(** * SEO / accessibility audit engine: a shallow embedding

    The audited program is [runSeoA11yAudit] together with its helpers
    [cssSelector], [locateElement], [locateQuery] and the [push] closure.
    Strings are sequences of code units; the embedding works over the
    code units 0..255 (type [ascii]), read as Latin-1.  Numbers that the
    program uses as indices, lengths, lines and columns are integers and
    are modelled in [Z], so that the [-1] of [indexOf], [lastIndexOf] and
    [search] is kept as it is. *)

From Stdlib Require Import ZArith List Bool Ascii String Lia DecimalString DecimalZ Sorted.
Import ListNotations.

Open Scope string_scope.
Open Scope Z_scope.

(** ** Primitives of the host language *)

Module JS.

Definition code (c : ascii) : Z := Z.of_N (N_of_ascii c).

Definition len (s : string) : Z := Z.of_nat (String.length s).

Definition LF : ascii := "010"%char.
Definition CR : ascii := "013"%char.

(** WhiteSpace and LineTerminator code units below 256: TAB, LF, VT, FF,
    CR, SP and NBSP.  [String.prototype.trim] and the regular expression
    class [\s] use the same set. *)
Definition isSpace (c : ascii) : bool :=
  let n := code c in
  ((9 <=? n) && (n <=? 13)) || (n =? 32) || (n =? 160).

Definition isAsciiUpper (c : ascii) : bool := (65 <=? code c) && (code c <=? 90).
Definition isAsciiLower (c : ascii) : bool := (97 <=? code c) && (code c <=? 122).
Definition isDigit (c : ascii) : bool := (48 <=? code c) && (code c <=? 57).

Definition shift (c : ascii) (d : Z) : ascii := ascii_of_N (Z.to_N (code c + d)).

(** Upper-case letters of Latin-1: A-Z and 0xC0-0xDE without 0xD7. *)
Definition isUpper (c : ascii) : bool :=
  isAsciiUpper c || ((192 <=? code c) && (code c <=? 222) && negb (code c =? 215)).

Definition lowerChar (c : ascii) : ascii := if isUpper c then shift c 32 else c.
Definition asciiLowerChar (c : ascii) : ascii := if isAsciiUpper c then shift c 32 else c.
Definition asciiUpperChar (c : ascii) : ascii := if isAsciiLower c then shift c (-32) else c.

Fixpoint mapChars (f : ascii -> ascii) (s : string) : string :=
  match s with
  | EmptyString => EmptyString
  | String c s' => String (f c) (mapChars f s')
  end.

(** [s.toLowerCase()] *)
Definition toLowerCase : string -> string := mapChars lowerChar.
Definition asciiLower : string -> string := mapChars asciiLowerChar.
Definition asciiUpper : string -> string := mapChars asciiUpperChar.

Fixpoint trimStart (s : string) : string :=
  match s with
  | String c s' => if isSpace c then trimStart s' else s
  | EmptyString => EmptyString
  end.

Fixpoint allSpace (s : string) : bool :=
  match s with
  | EmptyString => true
  | String c s' => isSpace c && allSpace s'
  end.

Fixpoint trimEnd (s : string) : string :=
  match s with
  | EmptyString => EmptyString
  | String c s' => if allSpace s then EmptyString else String c (trimEnd s')
  end.

(** [s.trim()] *)
Definition trim (s : string) : string := trimEnd (trimStart s).

(** Truthiness of a string value: the empty string is falsy. *)
Definition truthy (s : string) : bool :=
  match s with EmptyString => false | _ => true end.

(** [s.slice(from, to)], with negative arguments counted from the end and
    both ends clamped to the string. *)
Definition slice (s : string) (from to : Z) : string :=
  let n := len s in
  let a := if from <? 0 then Z.max (n + from) 0 else Z.min from n in
  let b := if to <? 0 then Z.max (n + to) 0 else Z.min to n in
  substring (Z.to_nat a) (Z.to_nat (Z.max (b - a) 0)) s.

(** [s.substring(from)] for a non-negative [from]. *)
Definition substringFrom (s : string) (from : Z) : string :=
  slice s (Z.max from 0) (len s).

(** [s.indexOf(q)]: first position at which [q] occurs, or [-1]. *)
Fixpoint indexOf (s q : string) : Z :=
  if prefix q s then 0
  else match s with
       | EmptyString => -1
       | String _ s' => let r := indexOf s' q in if r <? 0 then -1 else r + 1
       end.

(** [s.lastIndexOf(q)]: last position at which [q] occurs, or [-1]. *)
Fixpoint lastIndexOf (s q : string) : Z :=
  match s with
  | EmptyString => if prefix q EmptyString then 0 else -1
  | String _ s' =>
      let r := lastIndexOf s' q in
      if 0 <=? r then r + 1 else if prefix q s then 0 else -1
  end.

Definition includes (s q : string) : bool := 0 <=? indexOf s q.

(** [s.split(/\r\n|\r|\n/)]: the pieces between line separators; at a
    carriage return the alternative [\r\n] is tried first. *)
Fixpoint splitLines (s : string) : list string :=
  match s with
  | EmptyString => [EmptyString]
  | String c s' =>
      if Ascii.eqb c CR then
        match s' with
        | String d s'' =>
            if Ascii.eqb d LF then EmptyString :: splitLines s''
            else EmptyString :: splitLines s'
        | EmptyString => EmptyString :: splitLines s'
        end
      else if Ascii.eqb c LF then EmptyString :: splitLines s'
      else match splitLines s' with
           | p :: ps => String c p :: ps
           | [] => [String c EmptyString]
           end
  end.

(** [s.split(/\s+/)]: the pieces between maximal runs of white space;
    [inRun] records that the scan is inside such a run. *)
Fixpoint splitSpacesFrom (inRun : bool) (s : string) : list string :=
  match s with
  | EmptyString => [EmptyString]
  | String c s' =>
      if isSpace c then
        if inRun then splitSpacesFrom true s'
        else EmptyString :: splitSpacesFrom true s'
      else match splitSpacesFrom false s' with
           | p :: ps => String c p :: ps
           | [] => [String c EmptyString]
           end
  end.

Definition splitSpaces : string -> list string := splitSpacesFrom false.

(** [s.replace(/\s+/g, " ")] *)
Fixpoint collapseSpacesFrom (inRun : bool) (s : string) : string :=
  match s with
  | EmptyString => EmptyString
  | String c s' =>
      if isSpace c then
        if inRun then collapseSpacesFrom true s'
        else String " "%char (collapseSpacesFrom true s')
      else String c (collapseSpacesFrom false s')
  end.

Definition collapseSpaces : string -> string := collapseSpacesFrom false.

(** [String(n)] for an integer [n]. *)
Definition ofInt (n : Z) : string := NilZero.string_of_int (Z.to_int n).

(** Value of a decimal digit. *)
Definition digitVal (c : ascii) : Z := code c - 48.

Fixpoint digitsVal (acc : Z) (s : string) : option Z :=
  match s with
  | EmptyString => Some acc
  | String c s' => if isDigit c then digitsVal (10 * acc + digitVal c) s' else None
  end.

(** [Number(s)] on strings of decimal digits, the only strings the audit
    converts; [None] is NaN (a string that is not a digit string is outside
    what the audit feeds to [Number], and is read as NaN here). *)
Definition Number (s : string) : option Z :=
  match s with
  | EmptyString => Some 0
  | _ => digitsVal 0 s
  end.

End JS.

(** ** The parsed document *)

Module DOM.

(** The tree that [DOMParser] hands back, as far as the audit reads it:
    elements with their local name, their attributes in source order and
    their children; text and comments as leaves. *)
Inductive Element : Type :=
| mkElement (localName : string) (attributes : list (string * string))
            (childNodes : list Node)
with Node : Type :=
| ElementNode (e : Element)
| TextNode (data : string)
| CommentNode (data : string).

Definition localName (e : Element) : string :=
  match e with mkElement n _ _ => n end.
Definition attributes (e : Element) : list (string * string) :=
  match e with mkElement _ a _ => a end.
Definition childNodes (e : Element) : list Node :=
  match e with mkElement _ _ c => c end.

Record Document : Type := mkDocument { documentElement : Element }.

(** [el.tagName]: the local name in ASCII upper case. *)
Definition tagName (e : Element) : string := JS.asciiUpper (localName e).

Fixpoint lookupAttr (l : list (string * string)) (name : string) : option string :=
  match l with
  | [] => None
  | (k, v) :: l' => if String.eqb k name then Some v else lookupAttr l' name
  end.

(** [el.getAttribute(name)]; [None] is [null]. *)
Definition getAttribute (e : Element) (name : string) : option string :=
  lookupAttr (attributes e) name.

(** [el.textContent]: the text of all descendants, in tree order. *)
Fixpoint textContent (e : Element) : string :=
  match e with
  | mkElement _ _ cs =>
      (fix go (l : list Node) : string :=
         match l with
         | [] => EmptyString
         | n :: l' =>
             (match n with
              | ElementNode e' => textContent e'
              | TextNode d => d
              | CommentNode _ => EmptyString
              end) ++ go l'
         end) cs
  end.

(** The element and its descendants in document order. *)
Fixpoint inclusiveDescendants (e : Element) : list Element :=
  match e with
  | mkElement _ _ cs =>
      e :: (fix go (l : list Node) : list Element :=
              match l with
              | [] => []
              | n :: l' =>
                  List.app (match n with
                            | ElementNode e' => inclusiveDescendants e'
                            | _ => []
                            end) (go l')
              end) cs
  end.

Definition elements (doc : Document) : list Element :=
  inclusiveDescendants (documentElement doc).

Fixpoint childElements (l : list Node) : list Element :=
  match l with
  | [] => []
  | ElementNode e :: l' => e :: childElements l'
  | _ :: l' => childElements l'
  end.

(** Selectors with a fixed text are represented by the predicate they
    denote on an element. *)
Definition isTag (name : string) (e : Element) : bool :=
  String.eqb (localName e) name.

Definition attrIs (name value : string) (e : Element) : bool :=
  match getAttribute e name with
  | Some v => String.eqb v value
  | None => false
  end.

(** Values of [rel] are compared ASCII case-insensitively by selectors. *)
Definition attrIsCI (name value : string) (e : Element) : bool :=
  match getAttribute e name with
  | Some v => String.eqb (JS.asciiLower v) (JS.asciiLower value)
  | None => false
  end.

Definition hasAttr (name : string) (e : Element) : bool :=
  match getAttribute e name with Some _ => true | None => false end.

(** [doc.querySelector(sel)] and [doc.querySelectorAll(sel)] for a selector
    denoting [p]. *)
Definition querySelector (doc : Document) (p : Element -> bool) : option Element :=
  find p (elements doc).
Definition querySelectorAll (doc : Document) (p : Element -> bool) : list Element :=
  filter p (elements doc).

(** [doc.head]: the first [head] child of the root, if any. *)
Definition head (doc : Document) : option Element :=
  find (isTag "head") (childElements (childNodes (documentElement doc))).

(** [doc.body]: the first [body] or [frameset] child of the root, if any. *)
Definition body (doc : Document) : option Element :=
  find (fun e => isTag "body" e || isTag "frameset" e)
       (childElements (childNodes (documentElement doc))).

End DOM.

(** ** Regular expressions: the fragment the locator generates *)

Module RegExp.

Inductive atom : Type :=
| Lit (c : ascii)             (* a pattern character *)
| Space                       (* \s *)
| OneOf (cs : list ascii)     (* [...] *)
| NoneOf (cs : list ascii).   (* [^...] *)

Inductive item : Type :=
| One (a : atom)
| Star (a : atom)             (* a* *)
| WordBoundary.               (* \b *)

Definition regex : Type := list item.

(** Syntax characters of the pattern grammar. *)
Definition isSyntax (c : ascii) : bool :=
  existsb (Ascii.eqb c)
    ["^"; "$"; "\"; "."; "*"; "+"; "?"; "("; ")"; "["; "]"; "{"; "}"; "|"]%char.

Inductive pstate : Type :=
| Top
| Escape
| ClassOpen
| InClass (neg : bool) (acc : list ascii).

Definition classAtom (neg : bool) (acc : list ascii) : atom :=
  if neg then NoneOf (rev acc) else OneOf (rev acc).

Definition classMember (c : ascii) : bool :=
  negb (existsb (Ascii.eqb c) ["\"; "-"; "["; "^"]%char).

(** One left-to-right pass over the pattern text.  [out] holds the items
    read so far, last first.  [None]: the text uses syntax outside the
    fragment (or is not a pattern at all). *)
Fixpoint parseFrom (st : pstate) (out : list item) (s : string) : option regex :=
  match s with
  | EmptyString => match st with Top => Some (rev out) | _ => None end
  | String c s' =>
      match st with
      | Top =>
          if Ascii.eqb c "\" then parseFrom Escape out s'
          else if Ascii.eqb c "[" then parseFrom ClassOpen out s'
          else if Ascii.eqb c "*" then
            match out with
            | One a :: out' => parseFrom Top (Star a :: out') s'
            | _ => None
            end
          else if isSyntax c then None
          else parseFrom Top (One (Lit c) :: out) s'
      | Escape =>
          if Ascii.eqb c "s" then parseFrom Top (One Space :: out) s'
          else if Ascii.eqb c "b" then parseFrom Top (WordBoundary :: out) s'
          else if isSyntax c then parseFrom Top (One (Lit c) :: out) s'
          else None
      | ClassOpen =>
          if Ascii.eqb c "^" then parseFrom (InClass true []) out s'
          else if Ascii.eqb c "]" then parseFrom Top (One (OneOf []) :: out) s'
          else if classMember c then parseFrom (InClass false [c]) out s'
          else None
      | InClass neg acc =>
          if Ascii.eqb c "]" then parseFrom Top (One (classAtom neg acc) :: out) s'
          else if classMember c then parseFrom (InClass neg (c :: acc)) out s'
          else None
      end
  end.

Definition parse (pattern : string) : option regex := parseFrom Top [] pattern.

(** Canonicalize of the [i] flag: two code units match when their upper
    case forms agree.  0xB5 and 0xFF have upper case forms above 0xFF that
    no other code unit below 256 shares, and 0xDF has none of one unit;
    they stay as they are. *)
Definition canon (c : ascii) : ascii :=
  let n := JS.code c in
  if JS.isAsciiLower c then JS.shift c (-32)
  else if (224 <=? n) && (n <=? 254) && negb (n =? 247) then JS.shift c (-32)
  else c.

Definition sameChar (a b : ascii) : bool := Ascii.eqb (canon a) (canon b).

Definition isWordChar (c : ascii) : bool :=
  JS.isAsciiUpper c || JS.isAsciiLower c || JS.isDigit c || Ascii.eqb c "_".

Definition atomMatches (a : atom) (c : ascii) : bool :=
  match a with
  | Lit x => sameChar x c
  | Space => JS.isSpace c
  | OneOf cs => existsb (fun x => sameChar x c) cs
  | NoneOf cs => negb (existsb (fun x => sameChar x c) cs)
  end.

Definition wordAt (o : option ascii) : bool :=
  match o with Some c => isWordChar c | None => false end.

Definition next (s : string) : option ascii :=
  match s with String c _ => Some c | EmptyString => None end.

(** [matchesAt r prev s]: some match of [r] starts at the front of [s],
    where [prev] is the code unit before it (for [\b]). *)
Fixpoint matchesAt (r : regex) (prev : option ascii) (s : string) : bool :=
  match r with
  | [] => true
  | WordBoundary :: r' =>
      xorb (wordAt prev) (wordAt (next s)) && matchesAt r' prev s
  | One a :: r' =>
      match s with
      | String c s' => atomMatches a c && matchesAt r' (Some c) s'
      | EmptyString => false
      end
  | Star a :: r' =>
      (fix star (prev : option ascii) (s : string) : bool :=
         matchesAt r' prev s
         || match s with
            | String c s' => atomMatches a c && star (Some c) s'
            | EmptyString => false
            end) prev s
  end.

(** Index of the first position at which a match starts, counted from
    [i]; [-1] when there is none. *)
Fixpoint searchFrom (r : regex) (prev : option ascii) (s : string) (i : Z) : Z :=
  if matchesAt r prev s then i
  else match s with
       | String c s' => searchFrom r (Some c) s' (i + 1)
       | EmptyString => -1
       end.

Definition search (r : regex) (s : string) : Z := searchFrom r None s 0.

End RegExp.

(** ** What the embedding leaves to the platform *)

Inductive completion (A : Type) : Type :=
| Normal (a : A)
| Throw.
Arguments Normal {A} a.
Arguments Throw {A}.

(** The platform under the audit.  The regular-expression engine and the
    selector engine are modelled in this file on the fragments above and
    below; what they do on any other pattern or selector text is left to
    these operations, as are HTML parsing and URL resolution. *)
Class Platform : Type := {
  (* new DOMParser().parseFromString(html, "text/html") *)
  parseFromString : string -> DOM.Document;
  (* new RegExp(p, "i") returns rather than throws, for p outside the fragment *)
  patternAccepted : string -> bool;
  (* html.search(re) for such a pattern *)
  patternSearch : string -> string -> Z;
  (* doc.querySelector(text) for selector text outside the fragment *)
  selectorQuery : DOM.Document -> string -> completion (option DOM.Element);
  (* the href property of a link element: its href attribute, resolved *)
  linkHref : DOM.Element -> string
}.

Definition dquote : ascii := "034"%char.
Definition DQ : string := String dquote EmptyString.

(** *** Regular expression objects *)

Inductive RegExpObject : Type :=
| Compiled (r : RegExp.regex)
| Foreign (pattern : string).

(** [new RegExp(pattern, "i")] *)
Definition newRegExp {P : Platform} (pattern : string) : completion RegExpObject :=
  match RegExp.parse pattern with
  | Some r => Normal (Compiled r)
  | None => if patternAccepted pattern then Normal (Foreign pattern) else Throw
  end.

(** [html.search(re)] *)
Definition search {P : Platform} (html : string) (re : RegExpObject) : Z :=
  match re with
  | Compiled r => RegExp.search r html
  | Foreign p => patternSearch p html
  end.

(** *** Selector text built at run time *)

Module Selectors.

Definition plainStringChar (c : ascii) : bool :=
  negb (existsb (Ascii.eqb c) ["\"; "010"; "012"; "013"; "000"]%char).

(** Reads a double-quoted string whose opening quote has been consumed:
    the value up to the closing quote and the text after it.  [None]: the
    string has an escape, a line break or no end before the text ends. *)
Fixpoint scanString (s : string) : option (string * string) :=
  match s with
  | EmptyString => None
  | String c s' =>
      if Ascii.eqb c dquote then Some (EmptyString, s')
      else if plainStringChar c then
        match scanString s' with
        | Some (v, rest) => Some (String c v, rest)
        | None => None
        end
      else None
  end.

Fixpoint stripPrefix (p s : string) : option string :=
  match p with
  | EmptyString => Some s
  | String a p' =>
      match s with
      | String b s' => if Ascii.eqb a b then stripPrefix p' s' else None
      | EmptyString => None
      end
  end.

(** After the value of an attribute selector only white space, the
    modifiers [i] and [s], and the closing bracket may follow: an
    identifier that starts with any other letter makes the selector
    invalid. *)
Definition startsOtherIdent (s : string) : bool :=
  match s with
  | String c _ =>
      (JS.isAsciiUpper c || JS.isAsciiLower c)
      && negb (existsb (Ascii.eqb c) ["i"; "I"; "s"; "S"]%char)
  | EmptyString => false
  end.

(** [doc.querySelector(text)].  Text of the shape [[id="v"]] with [v] free
    of escapes and line breaks selects the first element whose [id] is
    [v]; text in which the quoted value is followed by a foreign identifier
    is rejected with a SyntaxError; any other text is the platform's. *)
Definition querySelectorText {P : Platform} (doc : DOM.Document) (text : string)
  : completion (option DOM.Element) :=
  match stripPrefix ("[id=" ++ DQ) text with
  | Some rest =>
      match scanString rest with
      | Some (v, after) =>
          if String.eqb after "]" then Normal (DOM.querySelector doc (DOM.attrIs "id" v))
          else if startsOtherIdent after then Throw
          else selectorQuery doc text
      | None => selectorQuery doc text
      end
  | None => selectorQuery doc text
  end.

End Selectors.

(** ** The audit *)

Inductive Severity : Type := success | warning | error.

Record AuditResult : Type := mkAuditResult {
  id : string;
  severity : Severity;
  message : string;
  selector : option string;
  line : option Z;
  column : option Z;
  snippet : option string;
  recommendation : option string
}.

Record Locator : Type := mkLocator {
  loc_line : option Z;
  loc_column : option Z;
  loc_snippet : option string
}.

Definition emptyLocator : Locator := mkLocator None None None.

Definition orEmpty (o : option string) : string :=
  match o with Some s => s | None => EmptyString end.

Definition cssSelector (el : DOM.Element) : string :=
  let name := JS.toLowerCase (DOM.tagName el) in
  let byClass :=
    let cls := filter JS.truthy
                 (JS.splitSpaces (JS.trim (orEmpty (DOM.getAttribute el "class")))) in
    match cls with
    | c :: _ => name ++ "." ++ c
    | [] => name
    end in
  match DOM.getAttribute el "id" with
  | Some i => if JS.truthy i then name ++ "#" ++ i else byClass
  | None => byClass
  end.

(** The class of [v.replace(/[.*+?^${}()|[\]\\]/g, "\\$&")]. *)
Definition isMeta (c : ascii) : bool :=
  existsb (Ascii.eqb c)
    ["."; "*"; "+"; "?"; "^"; "$"; "{"; "}"; "("; ")"; "|"; "["; "]"; "\"]%char.

Fixpoint escapeRegExp (v : string) : string :=
  match v with
  | EmptyString => EmptyString
  | String c v' =>
      if isMeta c then String "\" (String c (escapeRegExp v'))
      else String c (escapeRegExp v')
  end.

Definition locateAttrs (el : DOM.Element) : list (string * option string) :=
  [ ("id", DOM.getAttribute el "id");
    ("name", DOM.getAttribute el "name");
    ("property", DOM.getAttribute el "property");
    ("rel", DOM.getAttribute el "rel");
    ("href", DOM.getAttribute el "href");
    ("src", DOM.getAttribute el "src") ].

(** [attrs.find(([k, v]) => v && v.trim())], with the value unwrapped. *)
Fixpoint findUsable (attrs : list (string * option string)) : option (string * string) :=
  match attrs with
  | [] => None
  | (k, Some v) :: rest =>
      if JS.truthy v && JS.truthy (JS.trim v) then Some (k, v) else findUsable rest
  | (_, None) :: rest => findUsable rest
  end.

(** The pattern text that [locateElement] hands to [RegExp]. *)
Definition locatePattern (el : DOM.Element) : string :=
  let tn := JS.toLowerCase (DOM.tagName el) in
  match findUsable (locateAttrs el) with
  | Some (k, v) =>
      let safeV := escapeRegExp v in
      "<\s*" ++ tn ++ "[^>]*\b" ++ k ++ "\s*=\s*[" ++ DQ ++ "']" ++ safeV
        ++ "[" ++ DQ ++ "'][^>]*>"
  | None => "<\s*" ++ tn ++ "\b[^>]*>"
  end.

Definition locateElement {P : Platform} (el : DOM.Element) (html : string) : Locator :=
  let pattern := locatePattern el in
  match newRegExp pattern with
  | Normal re =>
      let idx := search html re in
      if 0 <=? idx then
        let pre := JS.slice html 0 idx in
        let line := Z.of_nat (List.length (JS.splitLines pre)) in
        let lastLineStart :=
          Z.max (JS.lastIndexOf pre (String JS.LF "")) (JS.lastIndexOf pre (String JS.CR "")) in
        let column := idx - (if 0 <=? lastLineStart then lastLineStart else -1) in
        let snippet :=
          JS.slice html (Z.max 0 (idx - 120)) (Z.min (JS.len html) (idx + 240)) in
        mkLocator (Some line) (Some column) (Some snippet)
      else emptyLocator
  | Throw => emptyLocator
  end.

Definition locateQuery (html query : string) : Locator :=
  let idx := JS.indexOf html query in
  if idx <? 0 then emptyLocator
  else
    let pre := JS.slice html 0 idx in
    let line := Z.of_nat (List.length (JS.splitLines pre)) in
    let lastLineStart :=
      Z.max (JS.lastIndexOf pre (String JS.LF "")) (JS.lastIndexOf pre (String JS.CR "")) in
    let column := idx - (if 0 <=? lastLineStart then lastLineStart else -1) in
    let snippet :=
      JS.slice html (Z.max 0 (idx - 120)) (Z.min (JS.len html) (idx + JS.len query + 120)) in
    mkLocator (Some line) (Some column) (Some snippet).

(** The locator that [push] computes from its optional node and query. *)
Definition pushLocator {P : Platform} (html : string) (el : option DOM.Element)
  (queryForLocate : option string) : Locator :=
  match el with
  | Some e => locateElement e html
  | None =>
      match queryForLocate with
      | Some q => if JS.truthy q then locateQuery html q else emptyLocator
      | None => emptyLocator
      end
  end.

(** The record that [push] appends. *)
Definition finding {P : Platform} (html : string) (sev : Severity) (i msg : string)
  (el : option DOM.Element) (rec : option string) (queryForLocate : option string)
  : AuditResult :=
  let loc := pushLocator html el queryForLocate in
  {| id := i;
     severity := sev;
     message := msg;
     selector := option_map cssSelector el;
     line := loc_line loc;
     column := loc_column loc;
     snippet := option_map JS.trim (loc_snippet loc);
     recommendation := rec |}.

(** The closure [push] of [runSeoA11yAudit]; the array [out] it captures is
    passed in and handed back. *)
Definition push {P : Platform} (html : string) (out : list AuditResult)
  (sev : Severity) (i msg : string) (el : option DOM.Element)
  (rec : option string) (queryForLocate : option string) : list AuditResult :=
  (out ++ [finding html sev i msg el rec queryForLocate])%list.

Section Checks.

Context {P : Platform}.
Variable doc : DOM.Document.
Variable html : string.

Definition orElse {A : Type} (a b : option A) : option A :=
  match a with Some _ => a | None => b end.

(** 1) <html lang=""> *)
Definition checkLang (out : list AuditResult) : list AuditResult :=
  let htmlEl := DOM.documentElement doc in
  let lang := option_map JS.trim (DOM.getAttribute htmlEl "lang") in
  if JS.truthy (orEmpty lang) then
    push html out success "lang-ok" ("HTML lang present (" ++ orEmpty lang ++ ").")
      (Some (DOM.documentElement doc)) None None
  else
    push html out error "lang-missing" "Missing <html lang>."
      (Some (DOM.documentElement doc))
      (Some ("Set the <html lang> attribute, e.g., <html lang=" ++ DQ ++ "en" ++ DQ ++ ">."))
      None.

(** 2) <title> *)
Definition checkTitle (out : list AuditResult) : list AuditResult :=
  let titleEl := DOM.querySelector doc (DOM.isTag "title") in
  let title := orEmpty (option_map (fun e => JS.trim (DOM.textContent e)) titleEl) in
  if negb (JS.truthy title) then
    push html out error "title-missing" "Missing <title>."
      (orElse titleEl (DOM.head doc))
      (Some "Add a descriptive, unique <title> (10–60 chars).") (Some "<title>")
  else if (JS.len title <? 10) || (60 <? JS.len title) then
    push html out warning "title-length"
      ("Title length " ++ JS.ofInt (JS.len title) ++ " (aim 10–60).")
      titleEl (Some "Rewrite title to recommended length.") None
  else
    push html out success "title-ok"
      ("Title present and well sized (" ++ JS.ofInt (JS.len title) ++ ").")
      titleEl None None.

(** 3) meta description *)
Definition checkMetaDescription (out : list AuditResult) : list AuditResult :=
  let descEl :=
    DOM.querySelector doc (fun e => DOM.isTag "meta" e && DOM.attrIs "name" "description" e) in
  let desc :=
    match descEl with
    | Some e => orEmpty (option_map JS.trim (DOM.getAttribute e "content"))
    | None => EmptyString
    end in
  if negb (JS.truthy desc) then
    push html out warning "meta-desc-missing" "Missing meta description."
      (DOM.head doc)
      (Some ("Add <meta name=" ++ DQ ++ "description" ++ DQ ++ " content=" ++ DQ ++ "…"
             ++ DQ ++ "> (50–160 chars)."))
      (Some ("meta name=" ++ DQ ++ "description" ++ DQ))
  else if (JS.len desc <? 50) || (160 <? JS.len desc) then
    push html out warning "meta-desc-length"
      ("Meta description length " ++ JS.ofInt (JS.len desc) ++ " (aim 50–160).")
      descEl (Some "Rewrite description to recommended length.") None
  else
    push html out success "meta-desc-ok" "Meta description present and well sized."
      descEl None None.

(** 4) Canonical *)
Definition checkCanonical (out : list AuditResult) : list AuditResult :=
  let canonical :=
    DOM.querySelector doc (fun e => DOM.isTag "link" e && DOM.attrIsCI "rel" "canonical" e) in
  let href := match canonical with Some c => linkHref c | None => EmptyString end in
  if negb (JS.truthy href) then
    push html out warning "canonical-missing" "Canonical URL missing."
      (DOM.head doc)
      (Some ("Add <link rel=" ++ DQ ++ "canonical" ++ DQ ++ " href=" ++ DQ ++ "…" ++ DQ ++ ">."))
      (Some ("link rel=" ++ DQ ++ "canonical" ++ DQ))
  else
    push html out success "canonical-ok" "Canonical URL present." canonical None None.

(** 5) Headings (one H1 and sane order) *)
Definition isHeading (e : DOM.Element) : bool :=
  existsb (fun n => DOM.isTag n e) ["h1"; "h2"; "h3"; "h4"; "h5"; "h6"].

Definition headingsOf : list DOM.Element := DOM.querySelectorAll doc isHeading.

Definition checkH1 (out : list AuditResult) : list AuditResult :=
  let headings := headingsOf in
  let h1s := filter (fun h => String.eqb (JS.toLowerCase (DOM.tagName h)) "h1") headings in
  if negb (Z.of_nat (List.length h1s) =? 1) then
    push html out warning "h1-count"
      ("Expected exactly 1 <h1>, found " ++ JS.ofInt (Z.of_nat (List.length h1s)) ++ ".")
      (orElse (List.hd_error h1s) (DOM.body doc))
      (Some "Use a single H1 and demote others to H2/H3 as needed.") None
  else
    push html out success "h1-ok" "Exactly one H1 present." (List.hd_error h1s) None None.

(** The state of the heading walk: [prev], [orderIssues] and [out].  [prev]
    and [level] are numbers; [None] stands for NaN. *)
Record WalkState : Type := mkWalk {
  prev : option Z;
  orderIssues : Z;
  walkOut : list AuditResult
}.

Definition levelOf (h : DOM.Element) : option Z :=
  JS.Number (JS.substringFrom (DOM.tagName h) 1).

(** One call of the [forEach] callback, on heading [h] at index [idx]. *)
Definition headingStep (st : WalkState) (h : DOM.Element) (idx : Z) : WalkState :=
  let level := levelOf h in
  match prev st, level with
  | Some p, Some l =>
      if negb (p =? 0) && (1 <? l - p) then
        mkWalk level (orderIssues st + 1)
          (push html (walkOut st) warning ("heading-order-" ++ JS.ofInt idx)
             ("Heading jumps from H" ++ JS.ofInt p ++ " to H" ++ JS.ofInt l ++ ".")
             (Some h) (Some "Adjust heading levels to avoid skipping levels.") None)
      else mkWalk level (orderIssues st) (walkOut st)
  | _, _ => mkWalk level (orderIssues st) (walkOut st)
  end.

Fixpoint headingWalk (st : WalkState) (hs : list DOM.Element) (idx : Z) : WalkState :=
  match hs with
  | [] => st
  | h :: hs' => headingWalk (headingStep st h idx) hs' (idx + 1)
  end.

Definition checkHeadingOrder (out : list AuditResult) : list AuditResult :=
  let headings := headingsOf in
  let st := headingWalk (mkWalk (Some 0) 0 out) headings 0 in
  if orderIssues st =? 0 then
    if 0 <? Z.of_nat (List.length headings) then
      push html (walkOut st) success "heading-order-ok" "Heading hierarchy is consistent."
        (List.hd_error headings) None None
    else walkOut st
  else walkOut st.

(** 6) Open Graph / Twitter basics *)
Definition metaProperty (v : string) (e : DOM.Element) : bool :=
  DOM.isTag "meta" e && DOM.attrIs "property" v e.

Definition checkOpenGraph (out : list AuditResult) : list AuditResult :=
  let ogT := DOM.querySelector doc (metaProperty "og:title") in
  let ogD := DOM.querySelector doc (metaProperty "og:description") in
  let ogI := DOM.querySelector doc (metaProperty "og:image") in
  match ogT, ogD, ogI with
  | Some _, Some _, Some _ =>
      push html out success "og-ok" "Open Graph tags present (title/description/image)."
        ogT None None
  | _, _, _ =>
      push html out warning "og-missing"
        "Missing one or more OG tags (title/description/image)."
        (DOM.head doc) (Some "Add og:title, og:description, and og:image meta tags.") None
  end.

Definition checkTwitterCard (out : list AuditResult) : list AuditResult :=
  let tw :=
    DOM.querySelector doc (fun e => DOM.isTag "meta" e && DOM.attrIs "name" "twitter:card" e) in
  match tw with
  | Some _ => push html out success "twitter-card-ok" "Twitter Card present." tw None None
  | None =>
      push html out warning "twitter-card-missing" "Twitter Card missing." (DOM.head doc)
        (Some ("Add <meta name=" ++ DQ ++ "twitter:card" ++ DQ ++ " content=" ++ DQ
               ++ "summary_large_image" ++ DQ ++ ">."))
        None
  end.

(** 7) Images need alt *)
Definition checkImages (out : list AuditResult) : list AuditResult :=
  let imgs := DOM.querySelectorAll doc (DOM.isTag "img") in
  let noAlt :=
    filter (fun img => negb (JS.truthy (JS.trim (orEmpty (DOM.getAttribute img "alt"))))) imgs in
  match noAlt with
  | first :: _ =>
      push html out error "img-alt-missing"
        (JS.ofInt (Z.of_nat (List.length noAlt)) ++ " image(s) missing alt.")
        (Some first)
        (Some "Add concise, meaningful alt text for non-decorative images.") None
  | [] =>
      match imgs with
      | _ :: _ =>
          push html out success "img-alt-ok" "All images have alt text."
            (List.hd_error imgs) None None
      | [] => out
      end
  end.

(** 8) Links: accessible names and rel for target=_blank *)
Definition isNameless (a : DOM.Element) : bool :=
  let txt := JS.trim (JS.collapseSpaces (DOM.textContent a)) in
  let aria := JS.trim (orEmpty (DOM.getAttribute a "aria-label")) in
  negb (JS.truthy txt) && negb (JS.truthy aria).

Definition isBlank (a : DOM.Element) : bool :=
  match DOM.getAttribute a "target" with
  | Some t => String.eqb t "_blank"
  | None => false
  end.

Definition isBlankNoRel (a : DOM.Element) : bool :=
  let rel := JS.toLowerCase (orEmpty (DOM.getAttribute a "rel")) in
  isBlank a && negb (JS.includes rel "noopener" || JS.includes rel "noreferrer").

(** The [forEach] over the anchors: [nameless] and [blankNoRel]. *)
Fixpoint anchorWalk (nameless : list DOM.Element) (blankNoRel : Z)
  (anchors : list DOM.Element) : list DOM.Element * Z :=
  match anchors with
  | [] => (nameless, blankNoRel)
  | a :: rest =>
      let nameless' := if isNameless a then (nameless ++ [a])%list else nameless in
      let blankNoRel' := if isBlankNoRel a then blankNoRel + 1 else blankNoRel in
      anchorWalk nameless' blankNoRel' rest
  end.

Definition checkLinks (out : list AuditResult) : list AuditResult :=
  let anchors := DOM.querySelectorAll doc (DOM.isTag "a") in
  let '(nameless, blankNoRel) := anchorWalk [] 0 anchors in
  let out :=
    match nameless with
    | _ :: _ =>
        push html out error "link-name-missing"
          (JS.ofInt (Z.of_nat (List.length nameless)) ++ " link(s) lack accessible names.")
          (List.hd_error nameless)
          (Some "Provide link text or aria-label that describes the destination.") None
    | [] =>
        match anchors with
        | _ :: _ =>
            push html out success "link-name-ok" "All links have accessible names."
              (List.hd_error anchors) None None
        | [] => out
        end
    end in
  if negb (blankNoRel =? 0) then
    push html out warning "link-rel-missing"
      (JS.ofInt blankNoRel ++ " link(s) use target=_blank without rel=noopener.")
      (find isBlank anchors)
      (Some ("Add rel=" ++ DQ ++ "noopener" ++ DQ ++ " (or rel=" ++ DQ
             ++ "noopener noreferrer" ++ DQ
             ++ ") to external links opening in new tab."))
      None
  else
    match anchors with
    | _ :: _ =>
        push html out success "link-rel-ok"
          "All external links use rel=noopener when target=_blank."
          (List.hd_error anchors) None None
    | [] => out
    end.

(** 9) Duplicate IDs.  [idCounts] is a [Map]: its entries keep the order in
    which their keys were first set. *)
Fixpoint mapGet (m : list (string * Z)) (k : string) : option Z :=
  match m with
  | [] => None
  | (k', v) :: m' => if String.eqb k' k then Some v else mapGet m' k
  end.

Fixpoint mapSet (m : list (string * Z)) (k : string) (v : Z) : list (string * Z) :=
  match m with
  | [] => [(k, v)]
  | (k', v') :: m' => if String.eqb k' k then (k, v) :: m' else (k', v') :: mapSet m' k v
  end.

Definition orZero (o : option Z) : Z :=
  match o with Some n => if n =? 0 then 0 else n | None => 0 end.

Fixpoint tally (idCounts : list (string * Z)) (els : list DOM.Element) : list (string * Z) :=
  match els with
  | [] => idCounts
  | el :: rest =>
      match DOM.getAttribute el "id" with
      | Some i => tally (mapSet idCounts i (orZero (mapGet idCounts i) + 1)) rest
      | None => tally idCounts rest
      end
  end.

Definition checkDuplicateIds (out : list AuditResult) : completion (list AuditResult) :=
  let idCounts := tally [] (DOM.querySelectorAll doc (DOM.hasAttr "id")) in
  let dups := filter (fun kc => 1 <? snd kc) idCounts in
  match dups with
  | (k, _) :: _ =>
      match Selectors.querySelectorText doc ("[id=" ++ DQ ++ k ++ DQ ++ "]") with
      | Normal found =>
          Normal (push html out warning "dup-ids"
                    (JS.ofInt (Z.of_nat (List.length dups)) ++ " duplicate id(s) detected.")
                    found (Some "Ensure IDs are unique per element.") None)
      | Throw => Throw
      end
  | [] =>
      Normal (push html out success "dup-ids-ok" "No duplicate ids found."
                (Some (DOM.documentElement doc)) None None)
  end.

(** The body of [runSeoA11yAudit] after parsing. *)
Definition audit : completion (list AuditResult) :=
  let out := [] in
  let out := checkLang out in
  let out := checkTitle out in
  let out := checkMetaDescription out in
  let out := checkCanonical out in
  let out := checkH1 out in
  let out := checkHeadingOrder out in
  let out := checkOpenGraph out in
  let out := checkTwitterCard out in
  let out := checkImages out in
  let out := checkLinks out in
  checkDuplicateIds out.

End Checks.

Definition runSeoA11yAudit {P : Platform} (html : string) : completion (list AuditResult) :=
  audit (parseFromString html) html.

(** ** The result array as an object *)

(** [runSeoA11yAudit] creates the array [out], every [push] changes that
    array in place, and the caller is handed the same array.  A store holds
    the arrays created so far, those of earlier runs among them; a reference
    is the position of an array in the store. *)
Module Heap.

Definition Ref : Type := nat.
Definition Store : Type := list (list AuditResult).

(** [const out: AuditResult[] = []]: a new array, empty. *)
Definition alloc (s : Store) : Ref * Store := (List.length s, (s ++ [[]])%list).

Definition read (s : Store) (r : Ref) : list AuditResult := nth r s [].

(** The array at [r] changed in place by [f]; no other array changes. *)
Fixpoint update (r : Ref) (f : list AuditResult -> list AuditResult) (s : Store)
  {struct s} : Store :=
  match s, r with
  | [], _ => []
  | a :: s', O => f a :: s'
  | a :: s', S r' => a :: update r' f s'
  end.

(** One run in the store [s]: the reference it returns, unless it raises,
    and the store it leaves.  A run that raises leaves behind the array it
    had filled so far. *)
Definition runSeoA11yAudit {P : Platform} (html : string) (s : Store)
  : completion Ref * Store :=
  let (out, s) := alloc s in
  let doc := parseFromString html in
  let s := update out (checkLang doc html) s in
  let s := update out (checkTitle doc html) s in
  let s := update out (checkMetaDescription doc html) s in
  let s := update out (checkCanonical doc html) s in
  let s := update out (checkH1 doc html) s in
  let s := update out (checkHeadingOrder doc html) s in
  let s := update out (checkOpenGraph doc html) s in
  let s := update out (checkTwitterCard doc html) s in
  let s := update out (checkImages doc html) s in
  let s := update out (checkLinks doc html) s in
  match checkDuplicateIds doc html (read s out) with
  | Normal pushed => (Normal out, update out (fun _ => pushed) s)
  | Throw => (Throw, s)
  end.


End Heap.

(** ** The preview proxy: allow-list test *)

Module Proxy.

(** The two fields of a [URL] object that [isAllowed] reads. *)
Record URL : Type := mkURL { origin : string; href : string }.

Definition isAllowed (url : URL) (allowed : list string) : bool :=
  existsb (fun a => JS.truthy a && (String.eqb (origin url) a || prefix a (href url)))
          allowed.

End Proxy.

(** ** The panel: URL assembly, one run, and the location row *)

Module Panel.

(** [s.replace(/\/$/, "")]: the text without a slash at its very end. *)
Fixpoint dropFinalSlash (s : string) : string :=
  match s with
  | EmptyString => EmptyString
  | String c s' =>
      match s' with
      | EmptyString => if Ascii.eqb c "/" then EmptyString else s
      | String _ _ => String c (dropFinalSlash s')
      end
  end.

Definition absoluteUrlFromRoute (baseOrigin route : string) : string :=
  let base := dropFinalSlash baseOrigin in
  let path := if prefix "/" route then route else "/" ++ route in
  base ++ path.

(** The fields of a [URL] object that [isBareOrigin] reads. *)
Record URLParts : Type := mkURLParts {
  protocol : string;
  pathname : string;
  search : string;
  hash : string
}.

(** What the panel takes from its surroundings: the URL parser ([None]
    when [new URL] throws), the route of the page shown in the host, and the
    proxied fetch of a URL; the last two may fail. *)
Class Host : Type := {
  parseURL : string -> option URLParts;
  pagesContextRoute : completion string;
  proxyFetch : string -> completion string
}.

Definition isBareOrigin {H : Host} (url : string) : bool :=
  match parseURL url with
  | Some u =>
      if negb (String.eqb (protocol u) "http:" || String.eqb (protocol u) "https:")
      then false
      else if (JS.truthy (pathname u) && negb (String.eqb (pathname u) "/"))
              || JS.truthy (search u) || JS.truthy (hash u)
      then false
      else true
  | None => false
  end.

(** The state of [RouteAuditorPanel] that [run] writes. *)
Record PanelState : Type := mkPanel {
  auditedUrl : string;
  results : list AuditResult;
  loading : bool;
  baseUrlError : string
}.

Definition fetchFailed : AuditResult :=
  {| id := "fetch-failed";
     severity := error;
     message := "Could not fetch page HTML. Verify base URL and proxy allowlist.";
     selector := None; line := None; column := None; snippet := None;
     recommendation := None |}.

(** The state once [run] has settled, from the state [st] it started in.
    [client] tells whether the SDK client is there; [baseUrl] is the base
    URL field. *)
Definition run {P : Platform} {H : Host} (client : bool) (baseUrl : string)
  (st : PanelState) : PanelState :=
  if negb client then st
  else if negb (JS.truthy baseUrl) || negb (isBareOrigin baseUrl) then
    mkPanel (auditedUrl st) (results st) (loading st)
      "Enter a valid site base URL (e.g., https://example.com) without any path or query."
  else
    match pagesContextRoute with
    | Normal route =>
        let url := absoluteUrlFromRoute baseUrl (if JS.truthy route then route else "/") in
        match proxyFetch url with
        | Normal html =>
            match runSeoA11yAudit html with
            | Normal found => mkPanel url found false EmptyString
            | Throw => mkPanel url [fetchFailed] false EmptyString
            end
        | Throw => mkPanel url [fetchFailed] false EmptyString
        end
    | Throw => mkPanel (auditedUrl st) [fetchFailed] false EmptyString
    end.

(** A number or [undefined] used as a condition. *)
Definition truthyNum (n : option Z) : bool :=
  match n with Some v => negb (v =? 0) | None => false end.

(** The text of the location row of a finding; [None] when the row is not
    rendered. *)
Definition locationRow (r : AuditResult) : option string :=
  if truthyNum (line r) || truthyNum (column r) then
    Some ("Location: "
          ++ (if truthyNum (line r) then "line " ++ JS.ofInt (match line r with Some l => l | None => 0 end) else "")
          ++ (if truthyNum (line r) && truthyNum (column r) then ", " else "")
          ++ (if truthyNum (column r) then "col " ++ JS.ofInt (match column r with Some c => c | None => 0 end) else ""))
  else None.

End Panel.

(** ** The specification's vocabulary *)

Module Spec.

Definition isBreak (c : ascii) : bool := Ascii.eqb c JS.LF || Ascii.eqb c JS.CR.

Definition startsWithLF (s : string) : bool :=
  match s with String c _ => Ascii.eqb c JS.LF | EmptyString => false end.

(** Number of line-break sequences of a text, where CR LF, CR and LF each
    count once: every LF ends one, and so does every CR that no LF
    follows. *)
Fixpoint lineBreaks (s : string) : nat :=
  match s with
  | EmptyString => O
  | String c s' =>
      ((if Ascii.eqb c JS.LF then 1
        else if Ascii.eqb c JS.CR && negb (startsWithLF s') then 1
        else 0) + lineBreaks s')%nat
  end.

Fixpoint hasBreak (s : string) : bool :=
  match s with
  | EmptyString => false
  | String c s' => isBreak c || hasBreak s'
  end.

(** The text after the last line-break character, or the whole text when
    it has none. *)
Fixpoint lastLineOf (s : string) : string :=
  match s with
  | EmptyString => EmptyString
  | String c s' =>
      if hasBreak s' then lastLineOf s'
      else if isBreak c then s'
      else s
  end.

(** The text preceding index [idx]. *)
Definition before (html : string) (idx : Z) : string :=
  substring 0 (Z.to_nat idx) html.

(** The raw text from index [a] to index [b], clamped to the text. *)
Definition window (html : string) (a b : Z) : string :=
  let lo := Z.max 0 a in
  let hi := Z.min (JS.len html) b in
  substring (Z.to_nat lo) (Z.to_nat hi - Z.to_nat lo) html.

(** Index of the last character that satisfies [p], or [-1]. *)
Fixpoint lastPos (p : ascii -> bool) (s : string) : Z :=
  match s with
  | EmptyString => -1
  | String c s' =>
      let r := lastPos p s' in
      if 0 <=? r then r + 1 else if p c then 0 else -1
  end.

(** The locator that the position rules prescribe for a match at [idx]
    whose window ends at [stop]. *)
Definition locatorAt (html : string) (idx stop : Z) : Locator :=
  let pre := before html idx in
  mkLocator (Some (1 + Z.of_nat (lineBreaks pre)))
            (Some (1 + JS.len (lastLineOf pre)))
            (Some (window html (idx - 120) stop)).

(** The disambiguating attributes in their order of priority. *)
Definition priority : list string := ["id"; "name"; "property"; "rel"; "href"; "src"].

(** An attribute is usable when it is present and its value is not empty
    after trimming. *)
Definition usable (el : DOM.Element) (k : string) : bool :=
  match DOM.getAttribute el k with
  | Some v => JS.truthy (JS.trim v)
  | None => false
  end.

(** Removes the backslash in front of every escaped character. *)
Fixpoint unescape (s : string) : string :=
  match s with
  | EmptyString => EmptyString
  | String c s' =>
      if Ascii.eqb c "\" then
        match s' with
        | String d s'' => String d (unescape s'')
        | EmptyString => String c EmptyString
        end
      else String c (unescape s')
  end.

(** A text without any syntax character of the pattern grammar. *)
Fixpoint plain (s : string) : bool :=
  match s with
  | EmptyString => true
  | String c s' => negb (RegExp.isSyntax c) && plain s'
  end.

(** Level of a heading element, from its local name. *)
Definition level (h : DOM.Element) : Z :=
  match DOM.localName h with
  | "h1" => 1 | "h2" => 2 | "h3" => 3 | "h4" => 4 | "h5" => 5 | "h6" => 6
  | _ => 0
  end.

(** The jumps of a heading sequence: walking it with the previous level
    [prevLevel] (0 before the first heading), every heading at index [idx]
    whose level exceeds a non-zero previous level by more than 1, with that
    index and previous level. *)
Fixpoint jumps (prevLevel idx : Z) (hs : list DOM.Element) : list (Z * Z * DOM.Element) :=
  match hs with
  | [] => []
  | h :: hs' =>
      ((if negb (prevLevel =? 0) && (1 <? level h - prevLevel)
        then [(idx, prevLevel, h)] else [])
       ++ jumps (level h) (idx + 1) hs')%list
  end.

(** Entries of the tally of a list of keys: every distinct key, in order
    of first occurrence, with its number of occurrences. *)
Fixpoint occurrences (k : string) (ks : list string) : Z :=
  match ks with
  | [] => 0
  | k' :: ks' => (if String.eqb k' k then 1 else 0) + occurrences k ks'
  end.

Definition seenIn (seen : list string) (k : string) : bool :=
  existsb (String.eqb k) seen.

Fixpoint distinct (seen ks : list string) : list string :=
  match ks with
  | [] => []
  | k :: ks' =>
      if seenIn seen k then distinct seen ks'
      else k :: distinct (k :: seen) ks'
  end.

(** The id values that occur more than once, in order of first occurrence. *)
Definition duplicated (ks : list string) : list string :=
  filter (fun k => 1 <? occurrences k ks) (distinct [] ks).

(** The values of the id attributes of a list of elements, in order. *)
Fixpoint idsOf (els : list DOM.Element) : list string :=
  match els with
  | [] => []
  | el :: rest =>
      match DOM.getAttribute el "id" with
      | Some i => i :: idsOf rest
      | None => idsOf rest
      end
  end.

(** An id value that can stand between double quotes in selector text as
    it is: no double quote, no backslash, no line break, no NUL. *)
Fixpoint plainValue (s : string) : bool :=
  match s with
  | EmptyString => true
  | String c s' =>
      negb (Ascii.eqb c dquote) && Selectors.plainStringChar c && plainValue s'
  end.

End Spec.

(** ** What the checks are expected to emit *)

Module Expected.

Section WithPlatform.

Context {P : Platform}.
Variable html : string.

(** [f] is a record built by the finding emitter. *)
Definition Emitted (f : AuditResult) : Prop :=
  exists sev i msg el rec q, f = finding html sev i msg el rec q.

(** Location recovery succeeded for the node or the query given to the
    emitter: the node's pattern was accepted and matched, or no node was
    given and the literal query occurs in the markup. *)
Definition Recovered (el : option DOM.Element) (q : option string) : Prop :=
  (exists e re, el = Some e /\ newRegExp (locatePattern e) = Normal re
                /\ 0 <= search html re)
  \/ (el = None /\ exists query, q = Some query /\ 0 <= JS.indexOf html query).

(** The warning for one jump of the heading sequence. *)
Definition jumpWarning (j : Z * Z * DOM.Element) : AuditResult :=
  let '(idx, from, h) := j in
  finding html warning ("heading-order-" ++ JS.ofInt idx)
    ("Heading jumps from H" ++ JS.ofInt from ++ " to H" ++ JS.ofInt (Spec.level h) ++ ".")
    (Some h) (Some "Adjust heading levels to avoid skipping levels.") None.

Definition orderSuccess (headings : list DOM.Element) : AuditResult :=
  finding html success "heading-order-ok" "Heading hierarchy is consistent."
    (List.hd_error headings) None None.

(** One warning per jump; a single success when there is no jump and at
    least one heading. *)
Definition headingOrderFindings (headings : list DOM.Element) : list AuditResult :=
  let js := Spec.jumps 0 0 headings in
  (map jumpWarning js
   ++ match js, headings with
      | [], _ :: _ => [orderSuccess headings]
      | _, _ => []
      end)%list.

End WithPlatform.

(** The trimmed text of the first title element; empty without one. *)
Definition titleText (doc : DOM.Document) : string :=
  match DOM.querySelector doc (DOM.isTag "title") with
  | Some e => JS.trim (DOM.textContent e)
  | None => EmptyString
  end.

(** The pattern items that match the characters of [s] literally. *)
Definition literally (s : string) : list RegExp.item :=
  map (fun c => RegExp.One (RegExp.Lit c)) (list_ascii_of_string s).

(** A locator is empty, or has all three fields with line and column at
    least 1. *)
Definition wellPlaced (l : Locator) : Prop :=
  (loc_line l = None /\ loc_column l = None /\ loc_snippet l = None)
  \/ (exists n c s, l = mkLocator (Some n) (Some c) (Some s) /\ 1 <= n /\ 1 <= c).

(** The findings pushed before the duplicate-id check runs. *)
Definition beforeDuplicateIds {P : Platform} (doc : DOM.Document) (html : string)
  : list AuditResult :=
  checkLinks doc html
    (checkImages doc html
       (checkTwitterCard doc html
          (checkOpenGraph doc html
             (checkHeadingOrder doc html
                (checkH1 doc html
                   (checkCanonical doc html
                      (checkMetaDescription doc html
                         (checkTitle doc html
                            (checkLang doc html []))))))))).

End Expected.

(** ** Concrete platform and documents used in examples *)

(** A platform that knows nothing beyond the fragments modelled in this
    file: every other pattern and selector text is refused.  [doc] is the
    tree its parser returns. *)
Definition fragmentOnly (doc : DOM.Document) : Platform :=
  {| parseFromString := fun _ => doc;
     patternAccepted := fun _ => false;
     patternSearch := fun _ _ => -1;
     selectorQuery := fun _ _ => Throw;
     linkHref := fun e => orEmpty (DOM.getAttribute e "href") |}.

Module Examples.

Definition elem (name : string) (attrs : list (string * string))
  (children : list DOM.Node) : DOM.Node :=
  DOM.ElementNode (DOM.mkElement name attrs children).

Definition page (headNodes bodyNodes : list DOM.Node) : DOM.Document :=
  DOM.mkDocument
    (DOM.mkElement "html" []
       [elem "head" [] headNodes; elem "body" [] bodyNodes]).

(** line1 LF <meta name="description" content="x"> LF line3 *)
Definition metaTag : string :=
  "<meta name=" ++ DQ ++ "description" ++ DQ ++ " content=" ++ DQ ++ "x" ++ DQ ++ ">".
Definition metaMarkup : string :=
  "line1" ++ String JS.LF metaTag ++ String JS.LF "line3".
Definition metaEl : DOM.Element :=
  DOM.mkElement "meta" [("name", "description"); ("content", "x")] [].
Definition metaDoc : DOM.Document :=
  page [] [DOM.TextNode ("line1" ++ String JS.LF ""); DOM.ElementNode metaEl;
           DOM.TextNode (String JS.LF "line3")].

(** A page whose only mention of a title is inside a comment in front of
    the root; the parser supplies the empty head. *)
Definition commentedTitleMarkup : string := "<!-- <title> --><p>hi</p>".
Definition commentedTitleDoc : DOM.Document :=
  page [] [elem "p" [] [DOM.TextNode "hi"]].

(** <title>Home</title> *)
Definition homeMarkup : string := "<title>Home</title>".
Definition homeDoc : DOM.Document :=
  page [elem "title" [] [DOM.TextNode "Home"]] [].

(** <h1>A</h1><h3>B</h3> *)
Definition skipMarkup : string := "<h1>A</h1><h3>B</h3>".
Definition skipDoc : DOM.Document :=
  page [] [elem "h1" [] [DOM.TextNode "A"]; elem "h3" [] [DOM.TextNode "B"]].

(** <p id="dup"></p><p id="dup"></p> *)
Definition dupMarkup : string :=
  "<p id=" ++ DQ ++ "dup" ++ DQ ++ "></p><p id=" ++ DQ ++ "dup" ++ DQ ++ "></p>".
Definition dupDoc : DOM.Document :=
  page [] [elem "p" [("id", "dup")] []; elem "p" [("id", "dup")] []].

(** Two p elements whose id is a, double quote, b (written in single
    quotes in the markup). *)
Definition quotedId : string := "a" ++ DQ ++ "b".
Definition quotedIdMarkup : string :=
  "<p id='" ++ quotedId ++ "'></p><p id='" ++ quotedId ++ "'></p>".
Definition quotedIdDoc : DOM.Document :=
  page [] [elem "p" [("id", quotedId)] []; elem "p" [("id", quotedId)] []].

End Examples.

(** ** Further notions used in the properties *)

(** A text without any white-space character. *)
Fixpoint noSpace (s : string) : bool :=
  match s with
  | EmptyString => true
  | String c s' => negb (JS.isSpace c) && noSpace s'
  end.

(** The check an id belongs to, by its prefix: 1 language, 2 title, 3 meta
    description, 4 canonical, 5 single H1, 6 heading order, 7 Open Graph,
    8 Twitter card, 9 images, 10 link names, 11 link rel, 12 duplicate ids;
    0 for any other id. *)
Definition family (i : string) : nat :=
  if prefix "lang-" i then 1
  else if prefix "title-" i then 2
  else if prefix "meta-desc-" i then 3
  else if prefix "canonical-" i then 4
  else if prefix "h1-" i then 5
  else if prefix "heading-order-" i then 6
  else if prefix "og-" i then 7
  else if prefix "twitter-card-" i then 8
  else if prefix "img-alt-" i then 9
  else if prefix "link-name-" i then 10
  else if prefix "link-rel-" i then 11
  else if prefix "dup-ids" i then 12
  else 0.

(** What the arguments of every call of the emitter have in common, for a
    call made by check number [n]: a recommendation is passed exactly when
    the severity is not success, a success comes with a node, and a literal
    query is passed only in place of a head element that may be missing. *)
Definition Entry (doc : DOM.Document) (n : nat) (sev : Severity) (i : string)
  (el : option DOM.Element) (rec q : option string) : Prop :=
  (rec = None <-> sev = success)
  /\ (sev = success -> el <> None)
  /\ (q <> None -> el = None -> DOM.head doc = None)
  /\ family i = n.

Definition Catalogued {P : Platform} (doc : DOM.Document) (html : string)
  (lo hi : nat) (f : AuditResult) : Prop :=
  exists n sev i msg el rec q,
    f = finding html sev i msg el rec q
    /\ Entry doc n sev i el rec q
    /\ (lo <= n <= hi)%nat.

(** The text ends with a slash. *)
Fixpoint endsWithSlash (s : string) : bool :=
  match s with
  | EmptyString => false
  | String c EmptyString => Ascii.eqb c "/"
  | String _ s' => endsWithSlash s'
  end.

(** The last character of [s], or [prev] when [s] is empty. *)
Fixpoint lastChar (prev : option ascii) (s : string) : option ascii :=
  match s with
  | EmptyString => prev
  | String c s' => lastChar (Some c) s'
  end.

(** The text is not empty and ends with a letter, a digit or an
    underscore. *)
Definition endsWithWordChar (s : string) : bool := RegExp.wordAt (lastChar None s).

(** * Properties *)

(** ** Strings *)

Section StringFacts.

Lemma len_nonneg (s : string) : 0 <= JS.len s.
Proof. unfold JS.len. lia. Qed.

Lemma len_cons (c : ascii) (s : string) : JS.len (String c s) = JS.len s + 1.
Proof. unfold JS.len. cbn [String.length]. lia. Qed.

Lemma length_substring_front (n : nat) (s : string) :
  (n <= String.length s)%nat -> String.length (substring 0 n s) = n.
Proof.
  revert s. induction n as [|n IH]; intros s Hn.
  - destruct s; reflexivity.
  - destruct s as [|c s]; cbn in Hn; [lia|].
    cbn. rewrite IH by lia. reflexivity.
Qed.

Lemma slice_front (s : string) (idx : Z) :
  0 <= idx -> JS.slice s 0 idx = Spec.before s (Z.min idx (JS.len s)).
Proof.
  intros H. unfold JS.slice, Spec.before.
  pose proof (len_nonneg s).
  replace (0 <? 0) with false by reflexivity.
  destruct (idx <? 0) eqn:E; [apply Z.ltb_lt in E; lia|].
  rewrite (Z.min_l 0) by lia. cbn [Z.to_nat].
  f_equal. lia.
Qed.

Lemma slice_window (s : string) (a b : Z) :
  a <= JS.len s -> 0 <= b ->
  JS.slice s (Z.max 0 a) (Z.min (JS.len s) b) = Spec.window s a b.
Proof.
  intros Ha Hb. unfold JS.slice, Spec.window.
  pose proof (len_nonneg s) as Hn.
  destruct (Z.max 0 a <? 0) eqn:E1; [apply Z.ltb_lt in E1; lia|].
  destruct (Z.min (JS.len s) b <? 0) eqn:E2; [apply Z.ltb_lt in E2; lia|].
  rewrite (Z.min_l (Z.max 0 a)) by lia.
  f_equal. lia.
Qed.

(** Line counting: the pieces of [split] are one more than the line-break
    sequences. *)
Lemma splitLines_length (s : string) :
  List.length (JS.splitLines s) = S (Spec.lineBreaks s).
Proof.
  induction s as [|c s IH]; [reflexivity|].
  cbn [JS.splitLines Spec.lineBreaks].
  destruct (Ascii.eqb c JS.CR) eqn:Ecr.
  - apply Ascii.eqb_eq in Ecr. subst c.
    replace (Ascii.eqb JS.CR JS.LF) with false by reflexivity.
    cbn [andb].
    destruct s as [|d s']; [reflexivity|].
    cbn [Spec.startsWithLF].
    destruct (Ascii.eqb d JS.LF) eqn:Elf.
    + cbn [negb]. cbn [List.length].
      apply Ascii.eqb_eq in Elf. subst d.
      cbn [JS.splitLines Spec.lineBreaks] in IH.
      replace (Ascii.eqb JS.LF JS.CR) with false in IH by reflexivity.
      rewrite Ascii.eqb_refl in IH. cbn [List.length] in IH.
      cbn [Spec.lineBreaks]. rewrite Ascii.eqb_refl. lia.
    + cbn [negb List.length]. rewrite IH. lia.
  - cbn [andb].
    destruct (Ascii.eqb c JS.LF) eqn:Elf.
    + cbn [List.length]. rewrite IH. lia.
    + destruct (JS.splitLines s) as [|p ps]; cbn [List.length] in *; lia.
Qed.

Lemma prefix_empty (s : string) : prefix EmptyString s = true.
Proof. destruct s; reflexivity. Qed.

Lemma lastIndexOf_char (x : ascii) (s : string) :
  JS.lastIndexOf s (String x EmptyString) = Spec.lastPos (Ascii.eqb x) s.
Proof.
  induction s as [|c s IH]; [reflexivity|].
  cbn [JS.lastIndexOf Spec.lastPos]. rewrite IH.
  destruct (0 <=? Spec.lastPos (Ascii.eqb x) s); [reflexivity|].
  cbn [prefix]. rewrite prefix_empty.
  destruct (ascii_dec x c) as [->|Hne].
  - rewrite Ascii.eqb_refl. reflexivity.
  - apply Ascii.eqb_neq in Hne. rewrite Hne. reflexivity.
Qed.

Lemma lastPos_lower (p : ascii -> bool) (s : string) : -1 <= Spec.lastPos p s.
Proof.
  induction s as [|c s IH]; cbn [Spec.lastPos]; [lia|].
  destruct (0 <=? Spec.lastPos p s) eqn:E; [apply Z.leb_le in E; lia|].
  destruct (p c); lia.
Qed.

Lemma lastPos_max (p q : ascii -> bool) (s : string) :
  Z.max (Spec.lastPos p s) (Spec.lastPos q s) = Spec.lastPos (fun c => p c || q c) s.
Proof.
  induction s as [|c s IH]; [reflexivity|].
  cbn [Spec.lastPos]. rewrite <- IH.
  pose proof (lastPos_lower p s). pose proof (lastPos_lower q s).
  destruct (0 <=? Spec.lastPos p s) eqn:Ep;
    destruct (0 <=? Spec.lastPos q s) eqn:Eq;
    destruct (0 <=? Z.max (Spec.lastPos p s) (Spec.lastPos q s)) eqn:Em;
    try apply Z.leb_le in Ep; try apply Z.leb_gt in Ep;
    try apply Z.leb_le in Eq; try apply Z.leb_gt in Eq;
    try apply Z.leb_le in Em; try apply Z.leb_gt in Em;
    destruct (p c); destruct (q c); cbn [orb]; lia.
Qed.

Lemma lastPos_break (s : string) :
  let m := Spec.lastPos Spec.isBreak s in
  Spec.hasBreak s = (0 <=? m) /\ JS.len s - m = 1 + JS.len (Spec.lastLineOf s).
Proof.
  induction s as [|c s [IH1 IH2]]; [split; reflexivity|].
  cbn zeta. cbn [Spec.lastPos Spec.hasBreak Spec.lastLineOf].
  pose proof (lastPos_lower Spec.isBreak s) as Hl.
  rewrite IH1.
  destruct (0 <=? Spec.lastPos Spec.isBreak s) eqn:E.
  - apply Z.leb_le in E. rewrite orb_true_r. split.
    + symmetry. apply Z.leb_le. lia.
    + rewrite len_cons. lia.
  - apply Z.leb_gt in E. rewrite orb_false_r.
    assert (Spec.lastPos Spec.isBreak s = -1) as Hm by lia.
    rewrite Hm in IH2.
    destruct (Spec.isBreak c); split; try reflexivity; rewrite ?len_cons; lia.
Qed.

(** The column computed from the two [lastIndexOf] calls. *)
Lemma column_offset (pre : string) :
  let lastLineStart :=
    Z.max (JS.lastIndexOf pre (String JS.LF "")) (JS.lastIndexOf pre (String JS.CR "")) in
  JS.len pre - (if 0 <=? lastLineStart then lastLineStart else -1)
  = 1 + JS.len (Spec.lastLineOf pre).
Proof.
  cbn zeta. rewrite !lastIndexOf_char, lastPos_max.
  assert (Spec.lastPos (fun c => Ascii.eqb JS.LF c || Ascii.eqb JS.CR c) pre
          = Spec.lastPos Spec.isBreak pre) as ->.
  { clear. induction pre as [|c s IH]; [reflexivity|].
    cbn [Spec.lastPos]. rewrite IH. unfold Spec.isBreak.
    rewrite (Ascii.eqb_sym JS.LF c), (Ascii.eqb_sym JS.CR c). reflexivity. }
  pose proof (lastPos_lower Spec.isBreak pre) as Hl.
  destruct (lastPos_break pre) as [_ H].
  destruct (0 <=? Spec.lastPos Spec.isBreak pre) eqn:E; [lia|].
  apply Z.leb_gt in E. lia.
Qed.

End StringFacts.

(** ** The text locator *)

Section LocatorFacts.

Context {P : Platform}.

Lemma indexOf_bounds (s q : string) : -1 <= JS.indexOf s q <= JS.len s.
Proof.
  induction s as [|c s IH].
  - cbn [JS.indexOf]. destruct (prefix q EmptyString); unfold JS.len; cbn; lia.
  - cbn [JS.indexOf]. rewrite len_cons.
    pose proof (len_nonneg s).
    destruct (prefix q (String c s)); [lia|].
    destruct (JS.indexOf s q <? 0) eqn:E; [lia|].
    apply Z.ltb_ge in E. lia.
Qed.

(** The two locators compute the same position from a match index; only
    the end of the snippet window differs. *)
Lemma position_at (html : string) (idx stop : Z) :
  0 <= idx <= JS.len html -> idx <= stop ->
  let pre := JS.slice html 0 idx in
  let lastLineStart :=
    Z.max (JS.lastIndexOf pre (String JS.LF "")) (JS.lastIndexOf pre (String JS.CR "")) in
  mkLocator (Some (Z.of_nat (List.length (JS.splitLines pre))))
            (Some (idx - (if 0 <=? lastLineStart then lastLineStart else -1)))
            (Some (JS.slice html (Z.max 0 (idx - 120)) (Z.min (JS.len html) stop)))
  = Spec.locatorAt html idx stop.
Proof.
  intros Hidx Hstop. cbn zeta. unfold Spec.locatorAt.
  rewrite slice_front by lia. rewrite Z.min_l by lia.
  rewrite splitLines_length.
  assert (JS.len (Spec.before html idx) = idx) as Hlen.
  { unfold Spec.before, JS.len. rewrite length_substring_front; unfold JS.len in *; lia. }
  pose proof (column_offset (Spec.before html idx)) as Hcol. cbn zeta in Hcol.
  rewrite Hlen in Hcol. rewrite Hcol.
  rewrite slice_window by lia.
  f_equal. f_equal. lia.
Qed.

Lemma locateElement_at (el : DOM.Element) (html : string) (re : RegExpObject) (idx : Z) :
  newRegExp (locatePattern el) = Normal re ->
  search html re = idx ->
  0 <= idx <= JS.len html ->
  locateElement el html = Spec.locatorAt html idx (idx + 240).
Proof.
  intros Hre Hs Hidx. unfold locateElement. rewrite Hre, Hs.
  destruct (0 <=? idx) eqn:E; [|apply Z.leb_gt in E; lia].
  apply position_at; lia.
Qed.

Lemma locateQuery_at (html query : string) (idx : Z) :
  JS.indexOf html query = idx ->
  0 <= idx ->
  locateQuery html query = Spec.locatorAt html idx (idx + JS.len query + 120).
Proof.
  intros Hq Hidx. unfold locateQuery. rewrite Hq.
  destruct (idx <? 0) eqn:E; [apply Z.ltb_lt in E; lia|].
  pose proof (indexOf_bounds html query). pose proof (len_nonneg query).
  apply position_at; lia.
Qed.

(** Without a match, and when the pattern is refused, the by-node locator
    hands back the empty locator. *)
Lemma locateElement_total (el : DOM.Element) (html : string) :
  (newRegExp (locatePattern el) = Throw -> locateElement el html = emptyLocator)
  /\ (forall re, newRegExp (locatePattern el) = Normal re -> search html re < 0 ->
        locateElement el html = emptyLocator).
Proof.
  unfold locateElement. split.
  - intros ->. reflexivity.
  - intros re -> Hneg.
    destruct (0 <=? search html re) eqn:E; [apply Z.leb_le in E; lia|reflexivity].
Qed.

Lemma locateQuery_none (html query : string) :
  JS.indexOf html query < 0 -> locateQuery html query = emptyLocator.
Proof.
  intros H. unfold locateQuery.
  destruct (JS.indexOf html query <? 0) eqn:E; [reflexivity|apply Z.ltb_ge in E; lia].
Qed.

End LocatorFacts.

(** C1.  For both locator entry points, a match at index [idx] of the raw
    markup is reported with line [1 +] the number of line-break sequences
    (CR LF, CR and LF each counted once) in the text before the match, with
    column [1 +] the number of characters since the last line break (or
    since the start of the text), and with the raw text from 120 characters
    before the match to 240 characters after it (by node) or to the length
    of the query plus 120 characters after it (by literal query), clamped to
    the text; the finding stores that snippet trimmed.  For the markup
    line1 / meta description tag / line3 the description node is reported
    on line 2 with a snippet that contains the whole tag. *)
Theorem locator_position (P : Platform) :
  (forall html idx el re sev i msg rec q,
      0 <= idx <= JS.len html ->
      newRegExp (locatePattern el) = Normal re ->
      search html re = idx ->
      locateElement el html = Spec.locatorAt html idx (idx + 240)
      /\ line (finding html sev i msg (Some el) rec q)
         = Some (1 + Z.of_nat (Spec.lineBreaks (Spec.before html idx)))
      /\ column (finding html sev i msg (Some el) rec q)
         = Some (1 + JS.len (Spec.lastLineOf (Spec.before html idx)))
      /\ snippet (finding html sev i msg (Some el) rec q)
         = Some (JS.trim (Spec.window html (idx - 120) (idx + 240))))
  /\ (forall html idx query sev i msg rec,
      0 <= idx ->
      JS.truthy query = true ->
      JS.indexOf html query = idx ->
      locateQuery html query = Spec.locatorAt html idx (idx + JS.len query + 120)
      /\ line (finding html sev i msg None rec (Some query))
         = Some (1 + Z.of_nat (Spec.lineBreaks (Spec.before html idx)))
      /\ column (finding html sev i msg None rec (Some query))
         = Some (1 + JS.len (Spec.lastLineOf (Spec.before html idx)))
      /\ snippet (finding html sev i msg None rec (Some query))
         = Some (JS.trim (Spec.window html (idx - 120) (idx + JS.len query + 120))))
  /\ (forall sev i msg rec q,
      let f := finding Examples.metaMarkup sev i msg (Some Examples.metaEl) rec q in
      line f = Some 2
      /\ exists s, snippet f = Some s /\ JS.includes s Examples.metaTag = true).
Proof.
  split; [|split].
  - intros html idx el re sev i msg rec q Hidx Hre Hs.
    pose proof (locateElement_at el html re idx Hre Hs Hidx) as H.
    unfold finding, pushLocator. rewrite H. cbn. repeat split; reflexivity.
  - intros html idx query sev i msg rec Hidx Hq Hs.
    pose proof (locateQuery_at html query idx Hs Hidx) as H.
    unfold finding, pushLocator. rewrite Hq, H. cbn. repeat split; reflexivity.
  - intros sev i msg rec q. cbn zeta. split.
    + vm_compute. reflexivity.
    + eexists. split; vm_compute; reflexivity.
Qed.

Lemma locator_position_witness :
  locateElement (P := fragmentOnly Examples.metaDoc) Examples.metaEl Examples.metaMarkup
  = Spec.locatorAt Examples.metaMarkup 6 246
  /\ locateQuery Examples.metaMarkup "content"
     = Spec.locatorAt Examples.metaMarkup 31 158.
Proof.
  pose proof (locator_position (fragmentOnly Examples.metaDoc)) as [Hnode [Hquery _]].
  split.
  - refine (proj1 (Hnode Examples.metaMarkup 6 Examples.metaEl _ success "" "" None None _ _ _)).
    + vm_compute. split; discriminate.
    + vm_compute. reflexivity.
    + vm_compute. reflexivity.
  - refine (proj1 (Hquery Examples.metaMarkup 31 "content" success "" "" None _ _ _)).
    + lia.
    + reflexivity.
    + vm_compute. reflexivity.
Defined.

(** ** Shape of the audit: every check only appends emitted records *)

Ltac emitted := unfold Expected.Emitted; do 6 eexists; reflexivity.
Ltac single_push :=
  eexists; split; [emitted | intros ?; unfold push; reflexivity].
Ltac none_pushed :=
  exists []; split; [constructor | split; [cbn; lia | intros; symmetry; apply app_nil_r]].
Ltac one_pushed :=
  eexists [_]; split; [|split]; [ | | intros ?; unfold push; reflexivity];
  [constructor; [emitted|constructor] | cbn; lia].
Ltac two_pushed :=
  eexists [_; _]; split; [|split];
  [ | | intros ?; unfold push; rewrite <- app_assoc; reflexivity];
  [constructor; [emitted|constructor; [emitted|constructor]] | cbn; lia].

Section AuditShape.

Context {P : Platform}.
Variable doc : DOM.Document.
Variable html : string.

Lemma checkLang_shape :
  exists f, Expected.Emitted html f /\ forall out, checkLang doc html out = (out ++ [f])%list.
Proof.
  unfold checkLang.
  destruct (JS.truthy (orEmpty (option_map JS.trim
              (DOM.getAttribute (DOM.documentElement doc) "lang")))); single_push.
Qed.

Lemma checkTitle_shape :
  exists f, Expected.Emitted html f /\ forall out, checkTitle doc html out = (out ++ [f])%list.
Proof.
  unfold checkTitle.
  set (title := orEmpty _).
  destruct (negb (JS.truthy title)); [single_push|].
  destruct ((JS.len title <? 10) || (60 <? JS.len title)); single_push.
Qed.

Lemma checkMetaDescription_shape :
  exists f, Expected.Emitted html f /\ forall out, checkMetaDescription doc html out = (out ++ [f])%list.
Proof.
  unfold checkMetaDescription.
  set (desc := match DOM.querySelector doc _ with Some _ => _ | None => _ end).
  destruct (negb (JS.truthy desc)); [single_push|].
  destruct ((JS.len desc <? 50) || (160 <? JS.len desc)); single_push.
Qed.

Lemma checkCanonical_shape :
  exists f, Expected.Emitted html f /\ forall out, checkCanonical doc html out = (out ++ [f])%list.
Proof.
  unfold checkCanonical.
  set (href := match DOM.querySelector doc _ with Some _ => _ | None => _ end).
  destruct (negb (JS.truthy href)); single_push.
Qed.

Lemma checkH1_shape :
  exists f, Expected.Emitted html f /\ forall out, checkH1 doc html out = (out ++ [f])%list.
Proof.
  unfold checkH1.
  set (h1s := filter _ _).
  destruct (negb (Z.of_nat (List.length h1s) =? 1)); single_push.
Qed.

Lemma checkOpenGraph_shape :
  exists f, Expected.Emitted html f /\ forall out, checkOpenGraph doc html out = (out ++ [f])%list.
Proof.
  unfold checkOpenGraph.
  destruct (DOM.querySelector doc (metaProperty "og:title"));
    destruct (DOM.querySelector doc (metaProperty "og:description"));
    destruct (DOM.querySelector doc (metaProperty "og:image")); single_push.
Qed.

Lemma checkTwitterCard_shape :
  exists f, Expected.Emitted html f /\ forall out, checkTwitterCard doc html out = (out ++ [f])%list.
Proof.
  unfold checkTwitterCard.
  destruct (DOM.querySelector doc _); single_push.
Qed.

Lemma checkImages_shape :
  exists fs, Forall (Expected.Emitted html) fs /\ (List.length fs <= 1)%nat
             /\ forall out, checkImages doc html out = (out ++ fs)%list.
Proof.
  unfold checkImages.
  set (imgs := DOM.querySelectorAll doc (DOM.isTag "img")).
  destruct (filter _ imgs) as [|first rest]; [destruct imgs|].
  - none_pushed.
  - one_pushed.
  - one_pushed.
Qed.

Lemma checkLinks_shape :
  exists fs, Forall (Expected.Emitted html) fs /\ (List.length fs <= 2)%nat
             /\ forall out, checkLinks doc html out = (out ++ fs)%list.
Proof.
  unfold checkLinks.
  set (anchors := DOM.querySelectorAll doc (DOM.isTag "a")).
  destruct (anchorWalk [] 0 anchors) as [nameless blankNoRel].
  destruct nameless as [|n ns]; destruct anchors as [|a rest];
    destruct (negb (blankNoRel =? 0));
    first [none_pushed | one_pushed | two_pushed].
Qed.

End AuditShape.

(** ** The heading walk *)

Section HeadingOrder.

Context {P : Platform}.
Variable doc : DOM.Document.
Variable html : string.

Lemma heading_level (h : DOM.Element) :
  isHeading h = true ->
  levelOf h = Some (Spec.level h) /\ 1 <= Spec.level h <= 6.
Proof.
  destruct h as [n a c]. unfold isHeading, DOM.isTag, levelOf, DOM.tagName, Spec.level.
  cbn [DOM.localName existsb].
  intros H.
  repeat match type of H with
         | (String.eqb ?x ?y || _) = true =>
             destruct (String.eqb_spec x y) as [->|_];
             [clear H; vm_compute; repeat split; congruence | cbn [orb] in H]
         end.
  discriminate.
Qed.

Lemma headings_are_headings : Forall (fun h => isHeading h = true) (headingsOf doc).
Proof.
  apply Forall_forall. intros h Hin.
  unfold headingsOf, DOM.querySelectorAll in Hin.
  apply filter_In in Hin. tauto.
Qed.

(** The walk counts the jumps and appends one warning for each. *)
Lemma headingWalk_jumps (hs : list DOM.Element) :
  Forall (fun h => isHeading h = true) hs ->
  forall st p idx,
    prev st = Some p ->
    orderIssues (headingWalk html st hs idx)
    = orderIssues st + Z.of_nat (List.length (Spec.jumps p idx hs))
    /\ walkOut (headingWalk html st hs idx)
       = (walkOut st ++ map (Expected.jumpWarning html) (Spec.jumps p idx hs))%list.
Proof.
  induction 1 as [|h hs Hh _ IH]; intros st p idx Hp.
  - cbn. split; [lia | symmetry; apply app_nil_r].
  - destruct (heading_level h Hh) as [Hl _].
    cbn [headingWalk Spec.jumps].
    assert (prev (headingStep html st h idx) = Some (Spec.level h)) as Hp'.
    { unfold headingStep. rewrite Hp, Hl.
      destruct (negb (p =? 0) && (1 <? Spec.level h - p)); reflexivity. }
    destruct (IH _ _ (idx + 1) Hp') as [IHn IHo].
    rewrite IHn, IHo. unfold headingStep. rewrite Hp, Hl.
    destruct (negb (p =? 0) && (1 <? Spec.level h - p)).
    + cbn [orderIssues walkOut]. split.
      * rewrite length_app. cbn [List.length]. lia.
      * unfold push. rewrite <- app_assoc. reflexivity.
    + cbn [orderIssues walkOut]. split; reflexivity.
Qed.

Lemma checkHeadingOrder_findings (out : list AuditResult) :
  checkHeadingOrder doc html out
  = (out ++ Expected.headingOrderFindings html (headingsOf doc))%list.
Proof.
  unfold checkHeadingOrder, Expected.headingOrderFindings.
  destruct (headingWalk_jumps (headingsOf doc) headings_are_headings
              (mkWalk (Some 0) 0 out) 0 0 eq_refl) as [Hn Ho].
  rewrite Hn, Ho. cbn [orderIssues walkOut].
  destruct (Spec.jumps 0 0 (headingsOf doc)) as [|j js].
  - cbn [List.length map]. replace (0 + Z.of_nat 0 =? 0) with true by reflexivity.
    destruct (headingsOf doc) as [|h hs].
    + reflexivity.
    + cbn [List.length].
      destruct (0 <? Z.of_nat (S (List.length hs))) eqn:E; [|apply Z.ltb_ge in E; lia].
      unfold push, Expected.orderSuccess. rewrite app_nil_r. reflexivity.
  - destruct (0 + Z.of_nat (List.length (j :: js)) =? 0) eqn:E.
    + apply Z.eqb_eq in E. cbn [List.length] in E. lia.
    + rewrite app_nil_r. reflexivity.
Qed.


End HeadingOrder.


(** ** Invariants of emitted records *)

Section EmittedFacts.

Context {P : Platform}.
Variable html : string.

Lemma lastPos_upper (p : ascii -> bool) (s : string) : Spec.lastPos p s < JS.len s.
Proof.
  induction s as [|c s IH]; [unfold JS.len; cbn; lia|].
  cbn [Spec.lastPos]. rewrite len_cons. pose proof (len_nonneg s).
  destruct (0 <=? Spec.lastPos p s); [lia|].
  destruct (p c); lia.
Qed.

Lemma len_slice_front (s : string) (idx : Z) :
  0 <= idx -> JS.len (JS.slice s 0 idx) <= idx.
Proof.
  intros H. rewrite slice_front by assumption.
  pose proof (len_nonneg s).
  unfold Spec.before, JS.len. rewrite length_substring_front; unfold JS.len in *; lia.
Qed.

(** A position computed from a non-negative index has line and column at
    least 1. *)
Lemma position_positive (idx : Z) :
  0 <= idx ->
  let pre := JS.slice html 0 idx in
  let lastLineStart :=
    Z.max (JS.lastIndexOf pre (String JS.LF "")) (JS.lastIndexOf pre (String JS.CR "")) in
  1 <= Z.of_nat (List.length (JS.splitLines pre))
  /\ 1 <= idx - (if 0 <=? lastLineStart then lastLineStart else -1).
Proof.
  intros Hidx. cbn zeta. split.
  - rewrite splitLines_length. lia.
  - rewrite !lastIndexOf_char.
    pose proof (lastPos_upper (Ascii.eqb JS.LF) (JS.slice html 0 idx)).
    pose proof (lastPos_upper (Ascii.eqb JS.CR) (JS.slice html 0 idx)).
    pose proof (len_slice_front html idx Hidx).
    destruct (0 <=? _); lia.
Qed.

Lemma locateElement_wellPlaced (el : DOM.Element) :
  Expected.wellPlaced (locateElement el html)
  /\ (locateElement el html <> emptyLocator ->
      exists re, newRegExp (locatePattern el) = Normal re /\ 0 <= search html re).
Proof.
  unfold locateElement.
  destruct (newRegExp (locatePattern el)) as [re|].
  - destruct (0 <=? search html re) eqn:E.
    + apply Z.leb_le in E. split.
      * right. destruct (position_positive (search html re) E) as [Hl Hc].
        do 3 eexists. split; [reflexivity|]. split; assumption.
      * intros _. exists re. split; [reflexivity|assumption].
    + split; [left; repeat split | intros H; contradiction H; reflexivity].
  - split; [left; repeat split | intros H; contradiction H; reflexivity].
Qed.

Lemma locateQuery_wellPlaced (query : string) :
  Expected.wellPlaced (locateQuery html query)
  /\ (locateQuery html query <> emptyLocator -> 0 <= JS.indexOf html query).
Proof.
  unfold locateQuery.
  destruct (JS.indexOf html query <? 0) eqn:E.
  - split; [left; repeat split | intros H; contradiction H; reflexivity].
  - apply Z.ltb_ge in E. split.
    + right. destruct (position_positive (JS.indexOf html query) E) as [Hl Hc].
      do 3 eexists. split; [reflexivity|]. split; assumption.
    + intros _. assumption.
Qed.

Lemma pushLocator_wellPlaced (el : option DOM.Element) (q : option string) :
  Expected.wellPlaced (pushLocator html el q)
  /\ (pushLocator html el q <> emptyLocator -> Expected.Recovered html el q).
Proof.
  unfold pushLocator, Expected.Recovered, Expected.wellPlaced.
  destruct el as [e|].
  - destruct (locateElement_wellPlaced e) as [Hw Hr]. split; [assumption|].
    intros H. destruct (Hr H) as [re [Hre Hs]]. left. exists e, re. auto.
  - destruct q as [query|].
    + destruct (JS.truthy query).
      * destruct (locateQuery_wellPlaced query) as [Hw Hr]. split; [assumption|].
        intros H. right. split; [reflexivity|]. exists query. auto.
      * split; [left; repeat split | intros H; contradiction H; reflexivity].
    + split; [left; repeat split | intros H; contradiction H; reflexivity].
Qed.

(** Presence of the optional fields of one emitted record. *)
Lemma finding_presence sev i msg el rec q :
  let f := finding html sev i msg el rec q in
  (selector f <> None <-> el <> None)
  /\ (line f <> None \/ column f <> None \/ snippet f <> None ->
      Expected.Recovered html el q).
Proof.
  cbn zeta. unfold finding. cbn [selector line column snippet]. split.
  - destruct el; cbn; split; congruence.
  - destruct (pushLocator_wellPlaced el q) as [Hw Hr].
    intros H. apply Hr. intros Hempty. rewrite Hempty in H. cbn in H.
    destruct H as [H|[H|H]]; congruence.
Qed.

Lemma finding_position sev i msg el rec q :
  let f := finding html sev i msg el rec q in
  (line f = None <-> column f = None)
  /\ (forall n, line f = Some n -> 1 <= n)
  /\ (forall c, column f = Some c -> 1 <= c).
Proof.
  cbn zeta. unfold finding. cbn [line column].
  destruct (pushLocator_wellPlaced el q) as [[(Hl & Hc & _)|(n & c & s & -> & Hn & Hc)] _].
  - rewrite Hl, Hc. repeat split; congruence.
  - cbn. repeat split; congruence.
Qed.

End EmittedFacts.

(** ** The audit as a whole *)

Section AuditWhole.

Context {P : Platform}.
Variable doc : DOM.Document.
Variable html : string.

Lemma checkHeadingOrder_shape :
  exists fs, Forall (Expected.Emitted html) fs
             /\ forall out, checkHeadingOrder doc html out = (out ++ fs)%list.
Proof.
  exists (Expected.headingOrderFindings html (headingsOf doc)). split.
  - unfold Expected.headingOrderFindings. apply Forall_app. split.
    + apply Forall_forall. intros f Hin. apply in_map_iff in Hin.
      destruct Hin as [[[idx p] h] [<- _]]. emitted.
    + destruct (Spec.jumps 0 0 (headingsOf doc)); [|constructor].
      destruct (headingsOf doc); constructor; [emitted|constructor].
  - apply checkHeadingOrder_findings.
Qed.

Lemma checkDuplicateIds_shape :
  (forall out, checkDuplicateIds doc html out = Throw)
  \/ (exists f, Expected.Emitted html f
                /\ forall out, checkDuplicateIds doc html out = Normal (out ++ [f])%list).
Proof.
  unfold checkDuplicateIds.
  destruct (filter _ _) as [|[k c] rest].
  - right. single_push.
  - destruct (Selectors.querySelectorText doc _) as [found|].
    + right. single_push.
    + left. reflexivity.
Qed.

Lemma audit_unfold :
  audit doc html = checkDuplicateIds doc html (Expected.beforeDuplicateIds doc html).
Proof. reflexivity. Qed.

(** The records pushed before the duplicate-id check, check by check. *)
Lemma beforeDuplicateIds_order :
  Expected.beforeDuplicateIds doc html
  = (checkLang doc html [] ++ checkTitle doc html []
     ++ checkMetaDescription doc html [] ++ checkCanonical doc html []
     ++ checkH1 doc html [] ++ checkHeadingOrder doc html []
     ++ checkOpenGraph doc html [] ++ checkTwitterCard doc html []
     ++ checkImages doc html [] ++ checkLinks doc html [])%list.
Proof.
  unfold Expected.beforeDuplicateIds.
  destruct (checkLang_shape doc html) as [f1 [_ H1]].
  destruct (checkTitle_shape doc html) as [f2 [_ H2]].
  destruct (checkMetaDescription_shape doc html) as [f3 [_ H3]].
  destruct (checkCanonical_shape doc html) as [f4 [_ H4]].
  destruct (checkH1_shape doc html) as [f5 [_ H5]].
  destruct checkHeadingOrder_shape as [f6 [_ H6]].
  destruct (checkOpenGraph_shape doc html) as [f7 [_ H7]].
  destruct (checkTwitterCard_shape doc html) as [f8 [_ H8]].
  destruct (checkImages_shape doc html) as [f9 [_ [_ H9]]].
  destruct (checkLinks_shape doc html) as [f10 [_ [_ H10]]].
  rewrite H10, H9, H8, H7, H6, H5, H4, H3, H2.
  rewrite (H10 []), (H9 []), (H8 []), (H7 []), (H6 []), (H5 []), (H4 []), (H3 []), (H2 []).
  cbn [app]. repeat rewrite <- app_assoc. reflexivity.
Qed.

Lemma beforeDuplicateIds_emitted :
  Forall (Expected.Emitted html) (Expected.beforeDuplicateIds doc html).
Proof.
  rewrite beforeDuplicateIds_order.
  destruct (checkLang_shape doc html) as [f1 [E1 H1]].
  destruct (checkTitle_shape doc html) as [f2 [E2 H2]].
  destruct (checkMetaDescription_shape doc html) as [f3 [E3 H3]].
  destruct (checkCanonical_shape doc html) as [f4 [E4 H4]].
  destruct (checkH1_shape doc html) as [f5 [E5 H5]].
  destruct checkHeadingOrder_shape as [f6 [E6 H6]].
  destruct (checkOpenGraph_shape doc html) as [f7 [E7 H7]].
  destruct (checkTwitterCard_shape doc html) as [f8 [E8 H8]].
  destruct (checkImages_shape doc html) as [f9 [E9 [_ H9]]].
  destruct (checkLinks_shape doc html) as [f10 [E10 [_ H10]]].
  rewrite H1, H2, H3, H4, H5, H6, H7, H8, H9, H10. cbn [app].
  repeat first [apply Forall_cons; [assumption|] | apply Forall_app; split; [assumption|]].
  assumption.
Qed.

Lemma beforeDuplicateIds_length :
  (7 <= List.length (Expected.beforeDuplicateIds doc html))%nat.
Proof.
  rewrite beforeDuplicateIds_order.
  destruct (checkLang_shape doc html) as [f1 [_ H1]].
  destruct (checkTitle_shape doc html) as [f2 [_ H2]].
  destruct (checkMetaDescription_shape doc html) as [f3 [_ H3]].
  destruct (checkCanonical_shape doc html) as [f4 [_ H4]].
  destruct (checkH1_shape doc html) as [f5 [_ H5]].
  destruct (checkOpenGraph_shape doc html) as [f7 [_ H7]].
  destruct (checkTwitterCard_shape doc html) as [f8 [_ H8]].
  rewrite H1, H2, H3, H4, H5, H7, H8.
  repeat rewrite length_app. cbn [List.length app]. lia.
Qed.

Lemma audit_emitted (f : AuditResult) :
  In f (Expected.beforeDuplicateIds doc html)
  \/ (exists out, audit doc html = Normal out /\ In f out) ->
  Expected.Emitted html f.
Proof.
  pose proof beforeDuplicateIds_emitted as Hb. rewrite Forall_forall in Hb.
  intros [Hin|[out [Ha Hin]]]; [auto|].
  rewrite audit_unfold in Ha.
  destruct checkDuplicateIds_shape as [Ht|[g [Eg Hg]]].
  - rewrite Ht in Ha. discriminate.
  - rewrite Hg in Ha. injection Ha as <-.
    apply in_app_iff in Hin. destruct Hin as [Hin|[<-|[]]]; auto.
Qed.

(** When the audit returns, its result is the concatenation of what the
    checks emit, in the order in which the checks run. *)
Lemma audit_order (out : list AuditResult) :
  audit doc html = Normal out ->
  exists dup,
    checkDuplicateIds doc html [] = Normal dup
    /\ List.length dup = 1%nat
    /\ out = (checkLang doc html [] ++ checkTitle doc html []
              ++ checkMetaDescription doc html [] ++ checkCanonical doc html []
              ++ checkH1 doc html [] ++ checkHeadingOrder doc html []
              ++ checkOpenGraph doc html [] ++ checkTwitterCard doc html []
              ++ checkImages doc html [] ++ checkLinks doc html [] ++ dup)%list.
Proof.
  rewrite audit_unfold. intros Ha.
  destruct checkDuplicateIds_shape as [Ht|[g [_ Hg]]].
  - rewrite Ht in Ha. discriminate.
  - rewrite Hg in Ha. injection Ha as <-.
    exists [g]. split; [apply (Hg [])|]. split; [reflexivity|].
    rewrite beforeDuplicateIds_order. repeat rewrite <- app_assoc. reflexivity.
Qed.

Lemma checkLang_id :
  exists f, checkLang doc html [] = [f] /\ (id f = "lang-missing" \/ id f = "lang-ok").
Proof.
  unfold checkLang.
  destruct (JS.truthy _); eexists; (split; [reflexivity|]); cbn; auto.
Qed.

(** A run that returns has at least eight records, the first of which is
    the language record. *)
Lemma audit_minimum (out : list AuditResult) :
  audit doc html = Normal out ->
  (8 <= List.length out)%nat
  /\ exists f rest, out = f :: rest /\ (id f = "lang-missing" \/ id f = "lang-ok").
Proof.
  intros Ha. split.
  - rewrite audit_unfold in Ha.
    destruct checkDuplicateIds_shape as [Ht|[g [_ Hg]]].
    + rewrite Ht in Ha. discriminate.
    + rewrite Hg in Ha. injection Ha as <-.
      rewrite length_app. pose proof beforeDuplicateIds_length. cbn [List.length]. lia.
  - destruct (audit_order out Ha) as [dup [_ [_ ->]]].
    destruct checkLang_id as [f [-> Hid]].
    exists f. eexists. split; [reflexivity|assumption].
Qed.

End AuditWhole.



(** C10.  In every emitted record the line is present exactly when the
    column is, and a line or column that is present is at least 1. *)
Theorem finding_line_column (P : Platform) (doc : DOM.Document) (html : string)
  (f : AuditResult) :
  In f (Expected.beforeDuplicateIds doc html)
  \/ (exists out, audit doc html = Normal out /\ In f out) ->
  (line f = None <-> column f = None)
  /\ (forall n, line f = Some n -> 1 <= n)
  /\ (forall c, column f = Some c -> 1 <= c).
Proof.
  intros H. apply audit_emitted in H.
  destruct H as (sev & i & msg & el & rec & q & ->).
  apply finding_position.
Qed.

Lemma finding_line_column_witness :
  let P := fragmentOnly Examples.dupDoc in
  let f := finding Examples.dupMarkup warning "dup-ids" "1 duplicate id(s) detected."
             (Some (DOM.mkElement "p" [("id", "dup")] []))
             (Some "Ensure IDs are unique per element.") None in
  line f = Some 1 /\ column f = Some 1
  /\ (line f = None <-> column f = None)
  /\ (forall n, line f = Some n -> 1 <= n)
  /\ (forall c, column f = Some c -> 1 <= c).
Proof.
  intros P f.
  split; [vm_compute; reflexivity|]. split; [vm_compute; reflexivity|].
  apply (finding_line_column P Examples.dupDoc Examples.dupMarkup f).
  right. eexists. split.
  - vm_compute. reflexivity.
  - repeat first [left; vm_compute; reflexivity | right].
Defined.

Section StoreFacts.






Context {P : Platform}.
Variable html : string.
Variable s : Heap.Store.






End StoreFacts.



(** ** The title check *)

Lemma truthy_empty (s : string) : JS.truthy s = false <-> s = EmptyString.
Proof. destruct s; cbn; split; congruence. Qed.

(** C4, as the code has it.  Without a non-empty title text the check emits
    the error title-missing; with a title whose trimmed length is below 10
    or above 60 it emits the warning title-length citing that length; else
    it emits the success title-ok.  The title-missing record is located by
    node on the title element, or on the head element when there is no title
    element; the literal query <title> is used only when the document has
    neither.  The title Home gives title-length, warning, citing length 4. *)
Theorem title_check (P : Platform) (doc : DOM.Document) (html : string)
  (out : list AuditResult) :
  let titleEl := DOM.querySelector doc (DOM.isTag "title") in
  let title := Expected.titleText doc in
  let node := orElse titleEl (DOM.head doc) in
  (title = EmptyString ->
     checkTitle doc html out
     = (out ++ [finding html error "title-missing" "Missing <title>." node
                  (Some "Add a descriptive, unique <title> (10–60 chars).")
                  (Some "<title>")])%list
     /\ (forall e, node = Some e ->
           pushLocator html node (Some "<title>") = locateElement e html)
     /\ (node = None ->
           pushLocator html node (Some "<title>") = locateQuery html "<title>"))
  /\ (title <> EmptyString -> JS.len title < 10 \/ 60 < JS.len title ->
        checkTitle doc html out
        = (out ++ [finding html warning "title-length"
                     ("Title length " ++ JS.ofInt (JS.len title) ++ " (aim 10–60).")
                     titleEl (Some "Rewrite title to recommended length.") None])%list)
  /\ (title <> EmptyString -> 10 <= JS.len title <= 60 ->
        checkTitle doc html out
        = (out ++ [finding html success "title-ok"
                     ("Title present and well sized (" ++ JS.ofInt (JS.len title) ++ ").")
                     titleEl None None])%list)
  /\ (exists f, checkTitle Examples.homeDoc Examples.homeMarkup [] = [f]
                /\ id f = "title-length" /\ severity f = warning
                /\ message f = "Title length 4 (aim 10–60).").
Proof.
  cbn zeta.
  assert (orEmpty (option_map (fun e => JS.trim (DOM.textContent e))
                     (DOM.querySelector doc (DOM.isTag "title")))
          = Expected.titleText doc) as Ht.
  { unfold Expected.titleText. destruct (DOM.querySelector doc (DOM.isTag "title")); reflexivity. }
  unfold checkTitle. rewrite Ht.
  split; [|split; [|split]].
  - intros ->. cbn [JS.truthy negb]. split; [reflexivity|]. split.
    + intros e ->. reflexivity.
    + intros ->. reflexivity.
  - intros Hne Hlen.
    destruct (JS.truthy (Expected.titleText doc)) eqn:E;
      [|apply truthy_empty in E; contradiction].
    cbn [negb].
    destruct ((JS.len (Expected.titleText doc) <? 10) || (60 <? JS.len (Expected.titleText doc))) eqn:E2;
      [reflexivity|].
    apply orb_false_elim in E2. destruct E2 as [E2 E3].
    apply Z.ltb_ge in E2. apply Z.ltb_ge in E3. lia.
  - intros Hne Hlen.
    destruct (JS.truthy (Expected.titleText doc)) eqn:E;
      [|apply truthy_empty in E; contradiction].
    cbn [negb].
    destruct ((JS.len (Expected.titleText doc) <? 10) || (60 <? JS.len (Expected.titleText doc))) eqn:E2;
      [|reflexivity].
    apply orb_prop in E2. destruct E2 as [E2|E2]; apply Z.ltb_lt in E2; lia.
  - eexists. split; [vm_compute; reflexivity|]. repeat split.
Qed.

Lemma title_check_witness :
  let P := fragmentOnly Examples.homeDoc in
  checkTitle Examples.homeDoc Examples.homeMarkup []
  = [finding Examples.homeMarkup warning "title-length" "Title length 4 (aim 10–60)."
       (Some (DOM.mkElement "title" [] [DOM.TextNode "Home"]))
       (Some "Rewrite title to recommended length.") None]
  /\ pushLocator Examples.commentedTitleMarkup
       (orElse (DOM.querySelector Examples.commentedTitleDoc (DOM.isTag "title"))
               (DOM.head Examples.commentedTitleDoc)) (Some "<title>")
     = locateElement (DOM.mkElement "head" [] []) Examples.commentedTitleMarkup.
Proof.
  intros P. split.
  - refine (proj1 (proj2 (title_check P Examples.homeDoc Examples.homeMarkup [])) _ _).
    + vm_compute. discriminate.
    + left. vm_compute. reflexivity.
  - refine (proj1 (proj2 (proj1 (title_check P Examples.commentedTitleDoc
                                   Examples.commentedTitleMarkup []) _)) _ _).
    + vm_compute. reflexivity.
    + vm_compute. reflexivity.
Defined.

(** C4 as stated fails: on a page without a title element, whose markup
    mentions <title> only inside a comment, the literal query <title> is
    found on line 1, yet the title-missing record has no line: it was
    located on the head element, which the markup does not spell out. *)
Lemma title_missing_not_located_by_query :
  let P := fragmentOnly Examples.commentedTitleDoc in
  let doc := Examples.commentedTitleDoc in
  let html := Examples.commentedTitleMarkup in
  DOM.querySelector doc (DOM.isTag "title") = None
  /\ loc_line (locateQuery html "<title>") = Some 1
  /\ exists f, checkTitle doc html [] = [f]
               /\ id f = "title-missing"
               /\ line f = None
               /\ line f <> loc_line (locateQuery html "<title>").
Proof.
  cbn zeta. split; [reflexivity|]. split; [vm_compute; reflexivity|].
  eexists. split; [vm_compute; reflexivity|].
  cbn [id line]. split; [reflexivity|]. split; [reflexivity|].
  vm_compute. discriminate.
Qed.

(** ** The duplicate-id check on an id that holds a double quote *)

(** C3 fails on the code.  For a page with two elements whose id holds a
    double quote (a, double quote, b) the selector text built from that id
    is not a valid selector: the quoted value ends at the inner quote and a
    stray identifier follows it.  [querySelector] throws, nothing catches
    it, and the audit raises. *)
Theorem audit_raises_on_quoted_duplicate_id (P : Platform) :
  Selectors.querySelectorText Examples.quotedIdDoc ("[id=" ++ DQ ++ Examples.quotedId ++ DQ ++ "]")
  = Throw
  /\ audit Examples.quotedIdDoc Examples.quotedIdMarkup = Throw.
Proof. split; vm_compute; reflexivity. Qed.

(** C6 fails on the code.  On the same page the id with the double quote
    occurs twice, yet the duplicate-id check emits no record: it raises,
    whatever was emitted before it. *)
Theorem duplicate_id_check_raises_on_quoted_id (P : Platform) (out : list AuditResult) :
  filter (fun kc => 1 <? snd kc)
    (tally [] (DOM.querySelectorAll Examples.quotedIdDoc (DOM.hasAttr "id")))
  = [(Examples.quotedId, 2)]
  /\ checkDuplicateIds Examples.quotedIdDoc Examples.quotedIdMarkup out = Throw.
Proof. split; vm_compute; reflexivity. Qed.

(** C9 fails on the code.  On the same page the run returns no result at
    all, so there are not eight records and the duplicate-id check has
    emitted none. *)
Theorem audit_has_no_result_on_quoted_duplicate_id (P : Platform) :
  ~ exists out, audit Examples.quotedIdDoc Examples.quotedIdMarkup = Normal out.
Proof.
  intros [out H]. vm_compute in H. discriminate.
Qed.

(** On the page with two elements of id dup the check emits one warning,
    citing 1 duplicated id and located on the first of the two elements. *)
Lemma duplicate_ids_example (P : Platform) :
  checkDuplicateIds Examples.dupDoc Examples.dupMarkup []
  = Normal [finding Examples.dupMarkup warning "dup-ids" "1 duplicate id(s) detected."
              (Some (DOM.mkElement "p" [("id", "dup")] []))
              (Some "Ensure IDs are unique per element.") None].
Proof. vm_compute. reflexivity. Qed.

(** ** The pattern of the by-node locator *)

Section PatternFacts.

Lemma isMeta_isSyntax (c : ascii) : isMeta c = RegExp.isSyntax c.
Proof. destruct c as [[] [] [] [] [] [] [] []]; reflexivity. Qed.

Lemma syntax_not_class (c : ascii) :
  RegExp.isSyntax c = true -> Ascii.eqb c "s" = false /\ Ascii.eqb c "b" = false.
Proof. destruct c as [[] [] [] [] [] [] [] []]; cbn; intros H; split; congruence. Qed.

Lemma plain_char (c : ascii) :
  RegExp.isSyntax c = false ->
  Ascii.eqb c "\" = false /\ Ascii.eqb c "[" = false /\ Ascii.eqb c "*" = false.
Proof. destruct c as [[] [] [] [] [] [] [] []]; cbn; intros H; repeat split; congruence. Qed.

Lemma trim_empty : JS.trim EmptyString = EmptyString.
Proof. reflexivity. Qed.

Lemma usable_truthy (v : string) :
  JS.truthy (JS.trim v) = true -> JS.truthy v && JS.truthy (JS.trim v) = true.
Proof.
  intros H. rewrite H. destruct v; [discriminate H|reflexivity].
Qed.

(** [find] on the attribute table picks the first usable attribute in
    the order of the table. *)
Lemma findUsable_first (el : DOM.Element) (before after : list string) (k v : string) :
  Forall (fun k' => Spec.usable el k' = false) before ->
  DOM.getAttribute el k = Some v ->
  JS.truthy (JS.trim v) = true ->
  findUsable (map (fun a => (a, DOM.getAttribute el a)) (before ++ k :: after))
  = Some (k, v).
Proof.
  intros Hb Hk Hv. induction Hb as [|k' before Hk' _ IH].
  - cbn. rewrite Hk, (usable_truthy v Hv). reflexivity.
  - cbn [app map findUsable]. unfold Spec.usable in Hk'.
    destruct (DOM.getAttribute el k') as [v'|]; [|exact IH].
    rewrite Hk', andb_false_r. exact IH.
Qed.

Lemma findUsable_none (el : DOM.Element) (ks : list string) :
  Forall (fun k' => Spec.usable el k' = false) ks ->
  findUsable (map (fun a => (a, DOM.getAttribute el a)) ks) = None.
Proof.
  induction 1 as [|k' ks Hk' _ IH]; [reflexivity|].
  cbn [map findUsable]. unfold Spec.usable in Hk'.
  destruct (DOM.getAttribute el k') as [v'|]; [|exact IH].
  rewrite Hk', andb_false_r. exact IH.
Qed.

Lemma unescape_escape (v : string) : Spec.unescape (escapeRegExp v) = v.
Proof.
  induction v as [|c v IH]; [reflexivity|].
  cbn [escapeRegExp]. destruct (isMeta c) eqn:E.
  - cbn [Spec.unescape]. rewrite Ascii.eqb_refl, IH. reflexivity.
  - cbn [Spec.unescape]. rewrite isMeta_isSyntax in E.
    destruct (plain_char c E) as [-> _]. rewrite IH. reflexivity.
Qed.

(** The escaped value reads back, as a pattern, as the characters of the
    value themselves. *)
Lemma parse_escaped (v rest : string) (out : list RegExp.item) :
  RegExp.parseFrom RegExp.Top out (escapeRegExp v ++ rest)
  = RegExp.parseFrom RegExp.Top (rev (Expected.literally v) ++ out)%list rest.
Proof.
  revert out. induction v as [|c v IH]; intros out; [reflexivity|].
  unfold Expected.literally. cbn [escapeRegExp list_ascii_of_string map rev].
  rewrite <- app_assoc. cbn [app].
  destruct (isMeta c) eqn:E; rewrite isMeta_isSyntax in E.
  - cbn [append RegExp.parseFrom]. rewrite Ascii.eqb_refl.
    destruct (syntax_not_class c E) as [-> ->]. rewrite E. apply IH.
  - cbn [append RegExp.parseFrom].
    destruct (plain_char c E) as (-> & -> & ->). rewrite E. apply IH.
Qed.

Lemma parse_plain (s rest : string) (out : list RegExp.item) :
  Spec.plain s = true ->
  RegExp.parseFrom RegExp.Top out (s ++ rest)
  = RegExp.parseFrom RegExp.Top (rev (Expected.literally s) ++ out)%list rest.
Proof.
  revert out. induction s as [|c s IH]; intros out Hp; [reflexivity|].
  cbn [Spec.plain] in Hp. apply andb_prop in Hp. destruct Hp as [Hc Hs].
  apply negb_true_iff in Hc.
  unfold Expected.literally. cbn [list_ascii_of_string map rev].
  rewrite <- app_assoc. cbn [app append RegExp.parseFrom].
  destruct (plain_char c Hc) as (-> & -> & ->). rewrite Hc. apply IH. assumption.
Qed.

Lemma priority_plain (k : string) : In k Spec.priority -> Spec.plain k = true.
Proof.
  intros H. repeat (destruct H as [<-|H]; [reflexivity|]). destruct H.
Qed.

(** Matching does not depend on the letter case of the text. *)
Lemma matchesAt_case (f : ascii -> ascii) :
  (forall c, RegExp.canon (f c) = RegExp.canon c) ->
  (forall c, JS.isSpace (f c) = JS.isSpace c) ->
  (forall c, RegExp.isWordChar (f c) = RegExp.isWordChar c) ->
  forall r prev s,
    RegExp.matchesAt r (option_map f prev) (JS.mapChars f s) = RegExp.matchesAt r prev s.
Proof.
  intros Hc Hs Hw.
  assert (Ha : forall a c, RegExp.atomMatches a (f c) = RegExp.atomMatches a c).
  { assert (He : forall cs c,
               existsb (fun x => RegExp.sameChar x (f c)) cs
               = existsb (fun x => RegExp.sameChar x c) cs).
    { intros cs c. induction cs as [|y cs IH]; [reflexivity|].
      cbn [existsb]. rewrite IH. unfold RegExp.sameChar. rewrite Hc. reflexivity. }
    intros [x| |cs|cs] c; cbn [RegExp.atomMatches].
    - unfold RegExp.sameChar. rewrite Hc. reflexivity.
    - apply Hs.
    - apply He.
    - rewrite He. reflexivity. }
  assert (Hwa : forall o, RegExp.wordAt (option_map f o) = RegExp.wordAt o).
  { intros [c|]; cbn; [apply Hw|reflexivity]. }
  assert (Hn : forall s, RegExp.next (JS.mapChars f s) = option_map f (RegExp.next s)).
  { intros [|c s]; reflexivity. }
  induction r as [|it r IH]; intros prev s; [reflexivity|].
  destruct it as [a|a|].
  - cbn [RegExp.matchesAt]. destruct s as [|c s]; [reflexivity|].
    cbn [JS.mapChars]. rewrite Ha. rewrite <- (IH (Some c) s). reflexivity.
  - cbn [RegExp.matchesAt]. revert prev.
    induction s as [|c s IHs]; intros prev.
    + pose proof (IH prev EmptyString) as H. cbn [JS.mapChars] in *.
      rewrite H. reflexivity.
    + pose proof (IH prev (String c s)) as H. cbn [JS.mapChars] in *.
      rewrite H, Ha. f_equal. f_equal. apply (IHs (Some c)).
  - cbn [RegExp.matchesAt]. rewrite Hn, !Hwa, IH. reflexivity.
Qed.

Lemma searchFrom_case (f : ascii -> ascii) :
  (forall c, RegExp.canon (f c) = RegExp.canon c) ->
  (forall c, JS.isSpace (f c) = JS.isSpace c) ->
  (forall c, RegExp.isWordChar (f c) = RegExp.isWordChar c) ->
  forall r s prev i,
    RegExp.searchFrom r (option_map f prev) (JS.mapChars f s) i = RegExp.searchFrom r prev s i.
Proof.
  intros Hc Hs Hw r s.
  induction s as [|c s IH]; intros prev i.
  - pose proof (matchesAt_case f Hc Hs Hw r prev EmptyString) as H.
    cbn [JS.mapChars RegExp.searchFrom] in *. rewrite H. reflexivity.
  - pose proof (matchesAt_case f Hc Hs Hw r prev (String c s)) as H.
    cbn [JS.mapChars RegExp.searchFrom] in *. rewrite H.
    rewrite <- (IH (Some c) (i + 1)). reflexivity.
Qed.

Lemma upper_lower_facts :
  (forall c, RegExp.canon (JS.asciiUpperChar c) = RegExp.canon c)
  /\ (forall c, JS.isSpace (JS.asciiUpperChar c) = JS.isSpace c)
  /\ (forall c, RegExp.isWordChar (JS.asciiUpperChar c) = RegExp.isWordChar c)
  /\ (forall c, RegExp.canon (JS.asciiLowerChar c) = RegExp.canon c)
  /\ (forall c, JS.isSpace (JS.asciiLowerChar c) = JS.isSpace c)
  /\ (forall c, RegExp.isWordChar (JS.asciiLowerChar c) = RegExp.isWordChar c).
Proof.
  repeat split; intros c; destruct c as [[] [] [] [] [] [] [] []]; reflexivity.
Qed.

End PatternFacts.

Ltac parse_step :=
  cbn [append RegExp.parseFrom Ascii.eqb Bool.eqb RegExp.isSyntax existsb orb andb negb
       RegExp.classMember RegExp.classAtom DQ dquote].
Ltac parse_done :=
  f_equal; cbn [rev app];
  repeat (rewrite ?rev_app_distr, ?rev_involutive; cbn [rev app]);
  repeat rewrite <- app_assoc; cbn [app]; reflexivity.

Section PatternShape.

(** The pattern for an attribute reads: an opening angle bracket, optional
    white space, the tag name, any run without a closing bracket, a word
    boundary, the attribute name, an equals sign between optional white
    space, a quote, the value itself, a quote, any run without a closing
    bracket, and the closing bracket. *)
Lemma parse_attr_pattern (tn k v : string) :
  Spec.plain tn = true -> Spec.plain k = true ->
  RegExp.parse ("<\s*" ++ tn ++ "[^>]*\b" ++ k ++ "\s*=\s*[" ++ DQ ++ "']" ++ escapeRegExp v
                ++ "[" ++ DQ ++ "'][^>]*>")
  = Some ([RegExp.One (RegExp.Lit "<"); RegExp.Star RegExp.Space]
          ++ Expected.literally tn
          ++ [RegExp.Star (RegExp.NoneOf [">"%char]); RegExp.WordBoundary]
          ++ Expected.literally k
          ++ [RegExp.Star RegExp.Space; RegExp.One (RegExp.Lit "=");
              RegExp.Star RegExp.Space; RegExp.One (RegExp.OneOf [dquote; "'"%char])]
          ++ Expected.literally v
          ++ [RegExp.One (RegExp.OneOf [dquote; "'"%char]);
              RegExp.Star (RegExp.NoneOf [">"%char]); RegExp.One (RegExp.Lit ">")])%list.
Proof.
  intros Ht Hk. unfold RegExp.parse.
  parse_step. rewrite parse_plain by assumption.
  parse_step. rewrite parse_plain by assumption.
  parse_step. rewrite parse_escaped.
  parse_step. parse_done.
Qed.

Lemma parse_tag_pattern (tn : string) :
  Spec.plain tn = true ->
  RegExp.parse ("<\s*" ++ tn ++ "\b[^>]*>")
  = Some ([RegExp.One (RegExp.Lit "<"); RegExp.Star RegExp.Space]
          ++ Expected.literally tn
          ++ [RegExp.WordBoundary; RegExp.Star (RegExp.NoneOf [">"%char]);
              RegExp.One (RegExp.Lit ">")])%list.
Proof.
  intros Ht. unfold RegExp.parse.
  parse_step. rewrite parse_plain by assumption.
  parse_step. parse_done.
Qed.

End PatternShape.

(** C7.  The by-node locator takes, in the order id, name, property, rel,
    href, src, the first attribute whose value is not empty after trimming,
    and builds from it the text of an opening-tag pattern in which the
    value's metacharacters are escaped: removing the escapes gives the value
    back, and for a tag name without metacharacters the text reads as a
    pattern that matches the value literally.  When no attribute of the list
    is usable the pattern is the bare opening tag.  The pattern is matched
    without regard to letter case. *)
Theorem locate_pattern_priority (P : Platform) (el : DOM.Element) :
  let tn := JS.toLowerCase (DOM.tagName el) in
  (forall before k after v,
      Spec.priority = (before ++ k :: after)%list ->
      Forall (fun k' => Spec.usable el k' = false) before ->
      DOM.getAttribute el k = Some v ->
      JS.truthy (JS.trim v) = true ->
      locatePattern el
      = "<\s*" ++ tn ++ "[^>]*\b" ++ k ++ "\s*=\s*[" ++ DQ ++ "']" ++ escapeRegExp v
          ++ "[" ++ DQ ++ "'][^>]*>"
      /\ Spec.unescape (escapeRegExp v) = v
      /\ (Spec.plain tn = true ->
          newRegExp (locatePattern el)
          = Normal (Compiled
              ([RegExp.One (RegExp.Lit "<"); RegExp.Star RegExp.Space]
               ++ Expected.literally tn
               ++ [RegExp.Star (RegExp.NoneOf [">"%char]); RegExp.WordBoundary]
               ++ Expected.literally k
               ++ [RegExp.Star RegExp.Space; RegExp.One (RegExp.Lit "=");
                   RegExp.Star RegExp.Space; RegExp.One (RegExp.OneOf [dquote; "'"%char])]
               ++ Expected.literally v
               ++ [RegExp.One (RegExp.OneOf [dquote; "'"%char]);
                   RegExp.Star (RegExp.NoneOf [">"%char]);
                   RegExp.One (RegExp.Lit ">")])%list)))
  /\ (Forall (fun k' => Spec.usable el k' = false) Spec.priority ->
      locatePattern el = "<\s*" ++ tn ++ "\b[^>]*>"
      /\ (Spec.plain tn = true ->
          newRegExp (locatePattern el)
          = Normal (Compiled
              ([RegExp.One (RegExp.Lit "<"); RegExp.Star RegExp.Space]
               ++ Expected.literally tn
               ++ [RegExp.WordBoundary; RegExp.Star (RegExp.NoneOf [">"%char]);
                   RegExp.One (RegExp.Lit ">")])%list)))
  /\ (forall r html,
        search (JS.asciiUpper html) (Compiled r) = search html (Compiled r)
        /\ search (JS.asciiLower html) (Compiled r) = search html (Compiled r)).
Proof.
  cbn zeta. split; [|split].
  - intros before k after v Hsplit Hb Hk Hv.
    assert (locatePattern el
            = "<\s*" ++ JS.toLowerCase (DOM.tagName el) ++ "[^>]*\b" ++ k ++ "\s*=\s*["
                ++ DQ ++ "']" ++ escapeRegExp v ++ "[" ++ DQ ++ "'][^>]*>") as Hpat.
    { unfold locatePattern.
      change (locateAttrs el) with (map (fun a => (a, DOM.getAttribute el a)) Spec.priority).
      rewrite Hsplit, (findUsable_first el before after k v Hb Hk Hv). reflexivity. }
    split; [exact Hpat|]. split; [apply unescape_escape|].
    intros Hplain. unfold newRegExp. rewrite Hpat.
    rewrite parse_attr_pattern; [reflexivity|assumption|].
    apply priority_plain. rewrite Hsplit. apply in_elt.
  - intros Hnone.
    assert (locatePattern el = "<\s*" ++ JS.toLowerCase (DOM.tagName el) ++ "\b[^>]*>") as Hpat.
    { unfold locatePattern.
      change (locateAttrs el) with (map (fun a => (a, DOM.getAttribute el a)) Spec.priority).
      rewrite (findUsable_none el Spec.priority Hnone). reflexivity. }
    split; [exact Hpat|].
    intros Hplain. unfold newRegExp. rewrite Hpat, parse_tag_pattern by assumption.
    reflexivity.
  - intros r html. destruct upper_lower_facts as (U1 & U2 & U3 & L1 & L2 & L3).
    unfold search, RegExp.search, JS.asciiUpper, JS.asciiLower. split.
    + apply (searchFrom_case JS.asciiUpperChar U1 U2 U3 r html None 0).
    + apply (searchFrom_case JS.asciiLowerChar L1 L2 L3 r html None 0).
Qed.

Lemma locate_pattern_priority_witness :
  let P := fragmentOnly Examples.metaDoc in
  locatePattern Examples.metaEl
  = "<\s*meta[^>]*\bname\s*=\s*[" ++ DQ ++ "']description[" ++ DQ ++ "'][^>]*>"
  /\ locatePattern (DOM.mkElement "head" [] []) = "<\s*head\b[^>]*>".
Proof.
  intros P. split.
  - refine (proj1 (proj1 (locate_pattern_priority P Examples.metaEl)
                     ["id"] "name" ["property"; "rel"; "href"; "src"] "description" _ _ _ _)).
    + reflexivity.
    + constructor; [reflexivity|constructor].
    + reflexivity.
    + reflexivity.
  - refine (proj1 (proj1 (proj2 (locate_pattern_priority P (DOM.mkElement "head" [] []))) _)).
    repeat constructor.
Defined.

(** ** The tally of the duplicate-id check *)

Section Tally.

Lemma occurrences_cons_other (i k : string) (ks : list string) :
  i <> k -> Spec.occurrences k (i :: ks) = Spec.occurrences k ks.
Proof.
  intros H. cbn [Spec.occurrences].
  destruct (String.eqb_spec i k); [contradiction|lia].
Qed.

Lemma seenIn_true (seen : list string) (k : string) : Spec.seenIn seen k = true <-> In k seen.
Proof.
  unfold Spec.seenIn. rewrite existsb_exists. split.
  - intros [x [Hin Hx]]. apply String.eqb_eq in Hx. subst. assumption.
  - intros H. exists k. split; [assumption|apply String.eqb_refl].
Qed.

Lemma seenIn_false (seen : list string) (k : string) : Spec.seenIn seen k = false <-> ~ In k seen.
Proof.
  rewrite <- seenIn_true. destruct (Spec.seenIn seen k); split; congruence.
Qed.

Lemma distinct_fresh (ks seen : list string) (k : string) :
  In k (Spec.distinct seen ks) -> ~ In k seen.
Proof.
  revert seen. induction ks as [|x ks IH]; intros seen H; [destruct H|].
  cbn [Spec.distinct] in H. fold (Spec.seenIn seen x) in H.
  destruct (Spec.seenIn seen x) eqn:E.
  - apply IH. assumption.
  - destruct H as [<-|H]; [apply seenIn_false; assumption|].
    apply IH in H. intros Hin. apply H. right. assumption.
Qed.

Lemma distinct_ext (ks seen1 seen2 : list string) :
  (forall k, In k seen1 <-> In k seen2) ->
  Spec.distinct seen1 ks = Spec.distinct seen2 ks.
Proof.
  revert seen1 seen2. induction ks as [|x ks IH]; intros seen1 seen2 H; [reflexivity|].
  cbn [Spec.distinct]. fold (Spec.seenIn seen1 x) (Spec.seenIn seen2 x).
  assert (Spec.seenIn seen1 x = Spec.seenIn seen2 x) as ->.
  { destruct (Spec.seenIn seen2 x) eqn:E.
    - apply seenIn_true. apply H. apply seenIn_true. assumption.
    - apply seenIn_false. intros Hin. apply H in Hin. apply seenIn_false in E. contradiction. }
  destruct (Spec.seenIn seen2 x); [apply IH; assumption|].
  f_equal. apply IH. intros k. cbn [In]. rewrite H. reflexivity.
Qed.

Lemma mapGet_absent (m : list (string * Z)) (k : string) :
  ~ In k (map fst m) -> mapGet m k = None /\ forall v, mapSet m k v = (m ++ [(k, v)])%list.
Proof.
  induction m as [|[k' c] m IH]; intros H; [split; reflexivity|].
  cbn [map fst In] in H. cbn [mapGet mapSet].
  destruct (String.eqb_spec k' k) as [->|Hne]; [contradiction H; left; reflexivity|].
  destruct IH as [IH1 IH2]; [tauto|]. split; [assumption|].
  intros v. rewrite IH2. reflexivity.
Qed.

(** Setting a key that is present bumps its count in place. *)
Lemma mapSet_present (m : list (string * Z)) (k : string) (ids : list string) :
  NoDup (map fst m) -> In k (map fst m) ->
  let m' := mapSet m k (orZero (mapGet m k) + 1) in
  map fst m' = map fst m
  /\ map (fun kc => (fst kc, snd kc + Spec.occurrences (fst kc) ids)) m'
     = map (fun kc => (fst kc, snd kc + Spec.occurrences (fst kc) (k :: ids))) m.
Proof.
  cbn zeta. induction m as [|[k' c] m IH]; intros Hnd Hin; [destruct Hin|].
  cbn [map fst] in Hnd, Hin. apply NoDup_cons_iff in Hnd. destruct Hnd as [Hk' Hnd].
  cbn [mapGet mapSet].
  destruct (String.eqb_spec k' k) as [->|Hne].
  - cbn [map fst snd]. split; [reflexivity|]. f_equal.
    + f_equal. cbn [Spec.occurrences]. rewrite String.eqb_refl.
      unfold orZero. destruct (c =? 0) eqn:E; [apply Z.eqb_eq in E|]; lia.
    + apply map_ext_in. intros [k2 c2] Hin2. cbn [fst snd].
      rewrite occurrences_cons_other; [reflexivity|].
      intros ->. apply Hk'. apply in_map_iff. exists (k2, c2). split; [reflexivity|assumption].
  - destruct Hin as [Heq|Hin]; [contradiction|].
    destruct (IH Hnd Hin) as [IH1 IH2].
    cbn [map fst snd]. rewrite IH1, IH2. split; [reflexivity|]. f_equal.
    rewrite occurrences_cons_other by congruence. reflexivity.
Qed.

(** The tally holds, in order of first occurrence, every id value with the
    number of its occurrences. *)
Lemma tally_counts (els : list DOM.Element) :
  forall m, NoDup (map fst m) ->
    tally m els
    = (map (fun kc => (fst kc, snd kc + Spec.occurrences (fst kc) (Spec.idsOf els))) m
       ++ map (fun k => (k, Spec.occurrences k (Spec.idsOf els)))
              (Spec.distinct (map fst m) (Spec.idsOf els)))%list.
Proof.
  induction els as [|el els IH]; intros m Hnd.
  - cbn. rewrite app_nil_r. symmetry. rewrite <- (map_id m) at 2.
    apply map_ext. intros [k c]. cbn. f_equal. lia.
  - cbn [tally Spec.idsOf]. destruct (DOM.getAttribute el "id") as [i|]; [|apply IH; assumption].
    set (ids := Spec.idsOf els) in *.
    cbn [Spec.distinct]. fold (Spec.seenIn (map fst m) i).
    destruct (Spec.seenIn (map fst m) i) eqn:E.
    + apply seenIn_true in E.
      destruct (mapSet_present m i ids Hnd E) as [Hk Hb]. cbn zeta in Hk, Hb.
      rewrite IH by (rewrite Hk; assumption).
      rewrite Hk, Hb. f_equal.
      apply map_ext_in. intros k Hin. f_equal.
      rewrite occurrences_cons_other; [reflexivity|].
      intros ->. apply distinct_fresh in Hin. contradiction.
    + apply seenIn_false in E.
      destruct (mapGet_absent m i E) as [Hg Hs]. rewrite Hg, Hs. cbn [orZero].
      assert (NoDup (map fst (m ++ [(i, 0 + 1)]))) as Hnd'.
      { rewrite map_app. cbn [map fst]. apply NoDup_app.
        - assumption.
        - constructor; [intros []|constructor].
        - intros k Hin [<-|[]]. contradiction. }
      rewrite IH by assumption.
      rewrite map_app. cbn [map fst snd]. rewrite <- app_assoc. cbn [app].
      f_equal.
      * apply map_ext_in. intros [k c] Hin. cbn [fst snd]. f_equal. f_equal.
        rewrite occurrences_cons_other; [reflexivity|].
        intros ->. apply E. apply in_map_iff. exists (k, c). split; [reflexivity|assumption].
      * f_equal.
        -- f_equal. cbn [Spec.occurrences]. rewrite String.eqb_refl. reflexivity.
        -- rewrite (distinct_ext ids (map fst (m ++ [(i, 0 + 1)])) (i :: map fst m)).
           ++ apply map_ext_in. intros k Hin. f_equal.
              rewrite occurrences_cons_other; [reflexivity|].
              intros ->. apply distinct_fresh in Hin. apply Hin. left. reflexivity.
           ++ intros k. rewrite map_app, in_app_iff. cbn [map fst In]. tauto.
Qed.

Lemma idsOf_with_id (els : list DOM.Element) :
  Spec.idsOf (filter (DOM.hasAttr "id") els) = Spec.idsOf els.
Proof.
  induction els as [|el els IH]; [reflexivity|].
  cbn [filter]. unfold DOM.hasAttr at 1.
  destruct (DOM.getAttribute el "id") as [i|] eqn:E.
  - cbn [Spec.idsOf]. rewrite E, IH. reflexivity.
  - cbn [Spec.idsOf]. rewrite E. assumption.
Qed.

Lemma filter_counts (ids l : list string) :
  filter (fun kc : string * Z => 1 <? snd kc)
         (map (fun k => (k, Spec.occurrences k ids)) l)
  = map (fun k => (k, Spec.occurrences k ids))
        (filter (fun k => 1 <? Spec.occurrences k ids) l).
Proof.
  induction l as [|k l IH]; [reflexivity|].
  cbn [map filter snd]. destruct (1 <? Spec.occurrences k ids); cbn [map]; rewrite IH; reflexivity.
Qed.

(** The entries that the check calls [dups]. *)
Lemma dups_are_duplicated (doc : DOM.Document) :
  let ids := Spec.idsOf (DOM.elements doc) in
  filter (fun kc : string * Z => 1 <? snd kc)
         (tally [] (DOM.querySelectorAll doc (DOM.hasAttr "id")))
  = map (fun k => (k, Spec.occurrences k ids)) (Spec.duplicated ids).
Proof.
  cbn zeta. rewrite tally_counts by constructor.
  unfold DOM.querySelectorAll. rewrite idsOf_with_id.
  cbn [map app fst]. apply filter_counts.
Qed.

Lemma stripPrefix_app (p s : string) : Selectors.stripPrefix p (p ++ s) = Some s.
Proof.
  induction p as [|c p IH]; [reflexivity|].
  cbn [append Selectors.stripPrefix]. rewrite Ascii.eqb_refl. assumption.
Qed.

Lemma scanString_plain (v rest : string) :
  Spec.plainValue v = true ->
  Selectors.scanString (v ++ String dquote rest) = Some (v, rest).
Proof.
  induction v as [|c v IH]; intros H.
  - cbn [append Selectors.scanString]. rewrite Ascii.eqb_refl. reflexivity.
  - cbn [Spec.plainValue] in H.
    apply andb_prop in H. destruct H as [H Hv]. apply andb_prop in H. destruct H as [Hq Hc].
    apply negb_true_iff in Hq.
    cbn [append Selectors.scanString]. rewrite Hq, Hc, (IH Hv). reflexivity.
Qed.

(** Selector text built from a plain id value selects the first element
    that bears this id. *)
Lemma querySelectorText_plain {P : Platform} (doc : DOM.Document) (k : string) :
  Spec.plainValue k = true ->
  Selectors.querySelectorText doc ("[id=" ++ DQ ++ k ++ DQ ++ "]")
  = Normal (DOM.querySelector doc (DOM.attrIs "id" k)).
Proof.
  intros Hk. unfold Selectors.querySelectorText.
  change ("[id=" ++ DQ ++ k ++ DQ ++ "]") with (("[id=" ++ DQ) ++ (k ++ String dquote "]")).
  rewrite stripPrefix_app, (scanString_plain k "]" Hk). reflexivity.
Qed.

(** Where the id values are free of quotes, backslashes and line breaks
    the duplicate-id check emits one warning when some id value occurs more
    than once, citing the number of such values and located on the first
    element that bears the first of them, and one success otherwise. *)
Lemma checkDuplicateIds_plain {P : Platform} (doc : DOM.Document) (html : string)
  (out : list AuditResult) :
  let ids := Spec.idsOf (DOM.elements doc) in
  match Spec.duplicated ids with
  | [] =>
      checkDuplicateIds doc html out
      = Normal (out ++ [finding html success "dup-ids-ok" "No duplicate ids found."
                          (Some (DOM.documentElement doc)) None None])%list
  | k :: _ =>
      Spec.plainValue k = true ->
      checkDuplicateIds doc html out
      = Normal (out ++ [finding html warning "dup-ids"
                          (JS.ofInt (Z.of_nat (List.length (Spec.duplicated ids)))
                           ++ " duplicate id(s) detected.")
                          (DOM.querySelector doc (DOM.attrIs "id" k))
                          (Some "Ensure IDs are unique per element.") None])%list
  end.
Proof.
  cbn zeta. unfold checkDuplicateIds. rewrite dups_are_duplicated.
  destruct (Spec.duplicated (Spec.idsOf (DOM.elements doc))) as [|k ks] eqn:E.
  - reflexivity.
  - intros Hk. cbn [map]. rewrite (querySelectorText_plain doc k Hk).
    cbn [List.length]. rewrite length_map. reflexivity.
Qed.

End Tally.

(** ** More on strings *)

Section MoreStringFacts.

Lemma length_substring_le (s : string) :
  forall n m, (String.length (substring n m s) <= m)%nat.
Proof.
  induction s as [|c s IH]; intros n m.
  - destruct n, m; cbn; lia.
  - destruct n as [|n].
    + destruct m as [|m]; cbn; [lia|]. specialize (IH O m). lia.
    + cbn. apply IH.
Qed.

Lemma length_trimStart_le (s : string) :
  (String.length (JS.trimStart s) <= String.length s)%nat.
Proof.
  induction s as [|c s IH]; cbn; [lia|].
  destruct (JS.isSpace c); cbn; lia.
Qed.

Lemma length_trimEnd_le (s : string) :
  (String.length (JS.trimEnd s) <= String.length s)%nat.
Proof.
  induction s as [|c s IH]; [cbn; lia|].
  cbn [JS.trimEnd]. destruct (JS.allSpace (String c s)); cbn; lia.
Qed.

Lemma len_trim_le (s : string) : JS.len (JS.trim s) <= JS.len s.
Proof.
  unfold JS.len, JS.trim.
  pose proof (length_trimEnd_le (JS.trimStart s)).
  pose proof (length_trimStart_le s). lia.
Qed.

Lemma len_slice_le (s : string) (a b : Z) :
  0 <= a -> 0 <= b -> JS.len (JS.slice s a b) <= Z.max (b - a) 0.
Proof.
  intros Ha Hb. unfold JS.slice.
  destruct (a <? 0) eqn:E1; [apply Z.ltb_lt in E1; lia|].
  destruct (b <? 0) eqn:E2; [apply Z.ltb_lt in E2; lia|].
  pose proof (len_nonneg s).
  pose proof (length_substring_le s (Z.to_nat (Z.min a (JS.len s)))
                (Z.to_nat (Z.max (Z.min b (JS.len s) - Z.min a (JS.len s)) 0))).
  unfold JS.len in *. lia.
Qed.

Lemma prefix_app (q b : string) : prefix q (q ++ b) = true.
Proof.
  induction q as [|c q IH]; [apply prefix_empty|].
  cbn. destruct (ascii_dec c c); [assumption|contradiction].
Qed.

Lemma prefix_split (q s : string) : prefix q s = true -> exists b, s = q ++ b.
Proof.
  revert s. induction q as [|c q IH]; intros s H.
  - exists s. reflexivity.
  - destruct s as [|d s]; [discriminate H|].
    cbn in H. destruct (ascii_dec c d) as [->|]; [|discriminate H].
    destruct (IH s H) as [b ->]. exists b. reflexivity.
Qed.

Lemma indexOf_unfold (s q : string) :
  JS.indexOf s q
  = if prefix q s then 0
    else match s with
         | EmptyString => -1
         | String _ s' => let r := JS.indexOf s' q in if r <? 0 then -1 else r + 1
         end.
Proof. destruct s; reflexivity. Qed.

(** A found index is the place of an occurrence. *)
Lemma indexOf_found (s q : string) :
  0 <= JS.indexOf s q -> exists a b, s = a ++ q ++ b /\ JS.len a = JS.indexOf s q.
Proof.
  induction s as [|c s IH]; rewrite indexOf_unfold.
  - destruct (prefix q EmptyString) eqn:E; [|lia].
    intros _. destruct (prefix_split q _ E) as [b Hb].
    exists EmptyString, b. split; [assumption|reflexivity].
  - destruct (prefix q (String c s)) eqn:E.
    + intros _. destruct (prefix_split q _ E) as [b Hb].
      exists EmptyString, b. split; [assumption|reflexivity].
    + cbn zeta. destruct (JS.indexOf s q <? 0) eqn:E2; [lia|].
      apply Z.ltb_ge in E2. intros _.
      destruct (IH E2) as [a [b [-> Hlen]]].
      exists (String c a), b. split; [reflexivity|]. rewrite len_cons. lia.
Qed.

(** An occurrence is found, at its place or before it. *)
Lemma indexOf_complete (a q b : string) :
  0 <= JS.indexOf (a ++ q ++ b) q <= JS.len a.
Proof.
  induction a as [|c a IH].
  - cbn [append]. rewrite indexOf_unfold, prefix_app. unfold JS.len. cbn. lia.
  - cbn [append]. rewrite indexOf_unfold. rewrite len_cons.
    pose proof (len_nonneg a).
    destruct (prefix q (String c (a ++ q ++ b))); [lia|].
    cbn zeta. destruct (JS.indexOf (a ++ q ++ b) q <? 0) eqn:E; [apply Z.ltb_lt in E; lia|].
    lia.
Qed.

Lemma length_append (a b : string) :
  String.length (a ++ b) = (String.length a + String.length b)%nat.
Proof. induction a as [|c a IH]; cbn; [reflexivity|]. rewrite IH. reflexivity. Qed.

Lemma len_append (a b : string) : JS.len (a ++ b) = JS.len a + JS.len b.
Proof. unfold JS.len. rewrite length_append. lia. Qed.

Lemma substring_front_app (u v : string) (m : nat) :
  (String.length u <= m)%nat ->
  substring 0 m (u ++ v) = u ++ substring 0 (m - String.length u) v.
Proof.
  revert m. induction u as [|c u IH]; intros m H.
  - cbn. rewrite Nat.sub_0_r. reflexivity.
  - cbn in H. destruct m as [|m]; [lia|].
    cbn. rewrite IH by lia. reflexivity.
Qed.

(** A window that starts in front of an occurrence and ends behind it
    holds the occurrence. *)
Lemma substring_covers (q b : string) (lo : nat) :
  forall a m,
    (lo <= String.length a)%nat ->
    (String.length a + String.length q <= lo + m)%nat ->
    exists a2 b1, substring lo m (a ++ q ++ b) = a2 ++ q ++ b1.
Proof.
  induction lo as [|lo IH]; intros a m Hlo Hm.
  - exists a. eexists.
    rewrite substring_front_app by lia. f_equal.
    rewrite substring_front_app by lia. reflexivity.
  - destruct a as [|c a]; [cbn in Hlo; lia|].
    cbn in Hlo, Hm. cbn [append substring].
    apply IH; lia.
Qed.

End MoreStringFacts.

(** ** Further properties of the locators *)

(** X1.  The snippet stored in a finding is short: at most 360 characters
    when the finding was located by node, and at most the length of the
    literal query plus 240 characters when it was located by query. *)
Theorem snippet_length_bound (P : Platform) (html : string) (sev : Severity)
  (i msg : string) (el : option DOM.Element) (rec q : option string) (s : string) :
  snippet (finding html sev i msg el rec q) = Some s ->
  JS.len s <= match el with
              | Some _ => 360
              | None => JS.len (orEmpty q) + 240
              end.
Proof.
  unfold finding, pushLocator. cbn [snippet].
  destruct el as [e|].
  - unfold locateElement.
    destruct (newRegExp (locatePattern e)) as [re|]; [|discriminate].
    destruct (0 <=? search html re) eqn:E; [|discriminate].
    apply Z.leb_le in E. cbn [loc_snippet option_map]. intros [= <-].
    pose proof (len_trim_le (JS.slice html (Z.max 0 (search html re - 120))
                               (Z.min (JS.len html) (search html re + 240)))).
    pose proof (len_nonneg html).
    pose proof (len_slice_le html (Z.max 0 (search html re - 120))
                  (Z.min (JS.len html) (search html re + 240))).
    lia.
  - destruct q as [query|]; [|discriminate].
    destruct (JS.truthy query); [|discriminate].
    unfold locateQuery.
    destruct (JS.indexOf html query <? 0) eqn:E; [discriminate|].
    apply Z.ltb_ge in E. cbn [loc_snippet option_map orEmpty]. intros [= <-].
    pose proof (len_nonneg html). pose proof (len_nonneg query).
    pose proof (len_trim_le (JS.slice html (Z.max 0 (JS.indexOf html query - 120))
                  (Z.min (JS.len html) (JS.indexOf html query + JS.len query + 120)))).
    pose proof (len_slice_le html (Z.max 0 (JS.indexOf html query - 120))
                  (Z.min (JS.len html) (JS.indexOf html query + JS.len query + 120))).
    lia.
Qed.

Lemma snippet_length_bound_witness :
  JS.len Examples.commentedTitleMarkup <= JS.len "<title>" + 240.
Proof.
  apply (snippet_length_bound (fragmentOnly Examples.commentedTitleDoc)
           Examples.commentedTitleMarkup error "title-missing" "Missing <title>."
           None None (Some "<title>") Examples.commentedTitleMarkup).
  vm_compute. reflexivity.
Defined.

(** X2.  The by-literal locator recovers a location exactly when the query
    occurs in the markup; the location is that of the first occurrence, and
    the snippet window holds the whole query. *)
Theorem locateQuery_first_occurrence (html query : string) :
  (locateQuery html query <> emptyLocator <-> exists a b, html = a ++ query ++ b)
  /\ (forall a b, html = a ++ query ++ b ->
        exists a0 b0,
          html = a0 ++ query ++ b0 /\ JS.len a0 <= JS.len a
          /\ locateQuery html query
             = Spec.locatorAt html (JS.len a0) (JS.len a0 + JS.len query + 120))
  /\ (forall s, loc_snippet (locateQuery html query) = Some s ->
        JS.includes s query = true).
Proof.
  assert (Hfound : forall a b, html = a ++ query ++ b ->
            exists a0 b0,
              html = a0 ++ query ++ b0 /\ JS.len a0 <= JS.len a
              /\ JS.indexOf html query = JS.len a0).
  { intros a b Hab.
    pose proof (indexOf_complete a query b) as Hc. rewrite <- Hab in Hc.
    destruct (indexOf_found html query (proj1 Hc)) as [a0 [b0 [H0 Hlen]]].
    exists a0, b0. repeat split; [assumption|lia|symmetry; assumption]. }
  split; [|split].
  - split.
    + intros Hne.
      destruct (Z.lt_ge_cases (JS.indexOf html query) 0) as [Hneg|Hpos].
      * contradiction Hne. apply locateQuery_none. assumption.
      * destruct (indexOf_found html query Hpos) as [a [b [H _]]]. eauto.
    + intros [a [b Hab]].
      destruct (Hfound a b Hab) as [a0 [b0 [_ [_ Hidx]]]].
      pose proof (len_nonneg a0).
      rewrite (locateQuery_at html query (JS.len a0) Hidx) by assumption.
      discriminate.
  - intros a b Hab.
    destruct (Hfound a b Hab) as [a0 [b0 [H0 [Hle Hidx]]]].
    exists a0, b0. repeat split; try assumption.
    apply locateQuery_at; [assumption|apply len_nonneg].
  - intros s Hs. unfold locateQuery in Hs.
    destruct (JS.indexOf html query <? 0) eqn:E; [discriminate|].
    apply Z.ltb_ge in E. cbn [loc_snippet] in Hs. injection Hs as <-.
    destruct (indexOf_found html query E) as [a [b [Hab Hlen]]].
    pose proof (len_nonneg a). pose proof (len_nonneg query). pose proof (len_nonneg b).
    assert (JS.len html = JS.len a + JS.len query + JS.len b) as Hl.
    { rewrite Hab, !len_append. lia. }
    rewrite slice_window by lia. unfold Spec.window.
    rewrite <- Hlen.
    destruct (substring_covers query b (Z.to_nat (Z.max 0 (JS.len a - 120))) a
                (Z.to_nat (Z.min (JS.len html) (JS.len a + JS.len query + 120))
                 - Z.to_nat (Z.max 0 (JS.len a - 120)))) as [a2 [b1 Hw]].
    + unfold JS.len in *. lia.
    + unfold JS.len in *. lia.
    + rewrite Hab at 2. rewrite Hw. unfold JS.includes.
      apply Z.leb_le. apply indexOf_complete.
Qed.

Lemma locateQuery_first_occurrence_witness :
  exists a0 b0,
    Examples.commentedTitleMarkup = a0 ++ "<title>" ++ b0
    /\ JS.len a0 <= 5
    /\ locateQuery Examples.commentedTitleMarkup "<title>"
       = Spec.locatorAt Examples.commentedTitleMarkup (JS.len a0) (JS.len a0 + 7 + 120).
Proof.
  apply (proj1 (proj2 (locateQuery_first_occurrence Examples.commentedTitleMarkup "<title>"))
           "<!-- " " --><p>hi</p>").
  reflexivity.
Defined.

Section LineFacts.

Lemma no_break_lines (s : string) :
  Spec.hasBreak s = false -> Spec.lineBreaks s = O /\ Spec.lastLineOf s = s.
Proof.
  induction s as [|c s IH]; [split; reflexivity|].
  cbn [Spec.hasBreak Spec.lineBreaks Spec.lastLineOf]. intros H.
  apply orb_false_elim in H. destruct H as [Hc Hs].
  destruct (IH Hs) as [IH1 IH2]. rewrite Hs, Hc, IH1.
  unfold Spec.isBreak in Hc. apply orb_false_elim in Hc. destruct Hc as [-> ->].
  split; reflexivity.
Qed.

Lemma lines_no_break (s : string) :
  Spec.lineBreaks s = O -> Spec.hasBreak s = false.
Proof.
  induction s as [|c s IH]; [reflexivity|].
  cbn [Spec.hasBreak Spec.lineBreaks]. unfold Spec.isBreak.
  destruct (Ascii.eqb c JS.LF) eqn:Elf; [cbn; lia|].
  destruct (Ascii.eqb c JS.CR) eqn:Ecr.
  - destruct s as [|d s']; [cbn; lia|].
    cbn [Spec.startsWithLF].
    destruct (Ascii.eqb d JS.LF) eqn:Ed; [|cbn; lia].
    cbn [negb andb Spec.lineBreaks]. rewrite Ed. lia.
  - cbn [andb orb]. intros H. apply IH. lia.
Qed.

Lemma lines_and_last_line (s : string) :
  (Spec.lineBreaks s + String.length (Spec.lastLineOf s) <= String.length s)%nat.
Proof.
  induction s as [|c s IH]; [cbn; lia|].
  cbn [Spec.lineBreaks Spec.lastLineOf String.length].
  assert (((if Ascii.eqb c JS.LF then 1
            else if Ascii.eqb c JS.CR && negb (Spec.startsWithLF s) then 1 else 0)
           <= if Spec.isBreak c then 1 else 0)%nat) as Hd.
  { unfold Spec.isBreak. destruct (Ascii.eqb c JS.LF); [cbn; lia|].
    destruct (Ascii.eqb c JS.CR); cbn; [destruct (negb _); lia|lia]. }
  destruct (Spec.hasBreak s) eqn:Hs.
  - destruct (Spec.isBreak c); lia.
  - destruct (no_break_lines s Hs) as [H0 _]. rewrite H0.
    destruct (Spec.isBreak c); cbn [String.length]; lia.
Qed.

Lemma startsWithLF_front (s : string) (k : nat) :
  Spec.startsWithLF (substring 0 (S k) s) = Spec.startsWithLF s.
Proof. destruct s; reflexivity. Qed.

(** A prefix has no more line breaks than the whole text. *)
Lemma lineBreaks_front (s : string) :
  forall k, (Spec.lineBreaks (substring 0 k s) <= Spec.lineBreaks s)%nat.
Proof.
  induction s as [|c s IH]; intros k.
  - destruct k; cbn; lia.
  - destruct k as [|k]; [cbn; lia|].
    cbn [substring Spec.lineBreaks].
    specialize (IH k).
    destruct (Ascii.eqb c JS.LF); [lia|].
    destruct (Ascii.eqb c JS.CR); cbn [andb]; [|lia].
    destruct k as [|k].
    + replace (substring 0 0 s) with EmptyString in * by (destruct s; reflexivity).
      cbn [Spec.startsWithLF negb Spec.lineBreaks] in *.
      destruct s as [|d s']; [cbn; lia|].
      cbn [Spec.startsWithLF Spec.lineBreaks].
      destruct (Ascii.eqb d JS.LF); cbn [negb]; lia.
    + rewrite startsWithLF_front. lia.
Qed.

(** Line and column of a locator computed at index [idx]. *)
Lemma locatorAt_bounds (html : string) (idx stop n c : Z) :
  0 <= idx <= JS.len html ->
  loc_line (Spec.locatorAt html idx stop) = Some n ->
  loc_column (Spec.locatorAt html idx stop) = Some c ->
  n + c <= idx + 2
  /\ (n = 1 <-> c = idx + 1)
  /\ n <= 1 + Z.of_nat (Spec.lineBreaks html).
Proof.
  intros Hidx Hn Hc. cbv [Spec.locatorAt loc_line loc_column] in Hn, Hc.
  assert (n = 1 + Z.of_nat (Spec.lineBreaks (Spec.before html idx))) by congruence.
  assert (c = 1 + JS.len (Spec.lastLineOf (Spec.before html idx))) by congruence.
  clear Hn Hc. subst n c.
  set (pre := Spec.before html idx).
  assert (JS.len pre = idx) as Hlen.
  { unfold pre, Spec.before, JS.len. rewrite length_substring_front; unfold JS.len in *; lia. }
  pose proof (lines_and_last_line pre) as Hb.
  pose proof (lineBreaks_front html (Z.to_nat idx)) as Hf. fold (Spec.before html idx) in Hf.
  fold pre in Hf.
  split; [unfold JS.len in *; lia|]. split; [|lia].
  split.
  - intros H1. assert (Spec.lineBreaks pre = O) as H0 by lia.
    destruct (no_break_lines pre (lines_no_break pre H0)) as [_ ->]. lia.
  - intros Hc. assert (Spec.lineBreaks pre = O) by (unfold JS.len in *; lia). lia.
Qed.

End LineFacts.

(** X3.  A reported position lies inside the text before the match: line
    plus column is at most the match index plus 2, the line is 1 exactly
    when the column is the match index plus 1 (no line break in front of the
    match), and the line never exceeds the number of lines of the markup. *)
Theorem position_bounds (P : Platform) (html : string) :
  (forall query n c,
      loc_line (locateQuery html query) = Some n ->
      loc_column (locateQuery html query) = Some c ->
      n + c <= JS.indexOf html query + 2
      /\ (n = 1 <-> c = JS.indexOf html query + 1)
      /\ n <= 1 + Z.of_nat (Spec.lineBreaks html))
  /\ (forall el re n c,
      newRegExp (locatePattern el) = Normal re ->
      search html re <= JS.len html ->
      loc_line (locateElement el html) = Some n ->
      loc_column (locateElement el html) = Some c ->
      n + c <= search html re + 2
      /\ (n = 1 <-> c = search html re + 1)
      /\ n <= 1 + Z.of_nat (Spec.lineBreaks html)).
Proof.
  split.
  - intros query n c Hn Hc.
    destruct (Z.lt_ge_cases (JS.indexOf html query) 0) as [Hneg|Hpos].
    + rewrite (locateQuery_none html query Hneg) in Hn. discriminate.
    + pose proof (indexOf_bounds html query).
      rewrite (locateQuery_at html query _ eq_refl Hpos) in Hn, Hc.
      eapply locatorAt_bounds; [|eassumption|eassumption]. lia.
  - intros el re n c Hre Hle Hn Hc.
    destruct (Z.lt_ge_cases (search html re) 0) as [Hneg|Hpos].
    + rewrite (proj2 (locateElement_total el html) re Hre Hneg) in Hn. discriminate.
    + rewrite (locateElement_at el html re _ Hre eq_refl) in Hn, Hc by lia.
      eapply locatorAt_bounds; [|eassumption|eassumption]. lia.
Qed.

Lemma position_bounds_witness :
  1 + 6 <= JS.indexOf Examples.commentedTitleMarkup "<title>" + 2
  /\ (1 = 1 <-> 6 = JS.indexOf Examples.commentedTitleMarkup "<title>" + 1)
  /\ 1 <= 1 + Z.of_nat (Spec.lineBreaks Examples.commentedTitleMarkup).
Proof.
  apply (proj1 (position_bounds (fragmentOnly Examples.commentedTitleDoc)
                  Examples.commentedTitleMarkup) "<title>" 1 6).
  - vm_compute. reflexivity.
  - vm_compute. reflexivity.
Defined.

Section SelectorFacts.

Lemma splitSpacesFrom_noSpace (s : string) :
  forall inRun, Forall (fun p => noSpace p = true) (JS.splitSpacesFrom inRun s).
Proof.
  induction s as [|c s IH]; intros inRun.
  - repeat constructor.
  - cbn [JS.splitSpacesFrom]. destruct (JS.isSpace c) eqn:E.
    + destruct inRun; [apply IH|]. constructor; [reflexivity|apply IH].
    + specialize (IH false). destruct (JS.splitSpacesFrom false s) as [|p ps].
      * constructor; [cbn; rewrite E; reflexivity|constructor].
      * inversion IH as [|? ? Hp Hps]. subst.
        constructor; [cbn; rewrite E, Hp; reflexivity|assumption].
Qed.

Lemma trimStart_allSpace (s : string) :
  JS.allSpace s = true -> JS.trimStart s = EmptyString.
Proof.
  induction s as [|c s IH]; [reflexivity|].
  cbn. intros H. apply andb_prop in H. destruct H as [-> Hs]. apply IH. assumption.
Qed.

Lemma trimStart_split (s : string) :
  exists pre, s = pre ++ JS.trimStart s /\ JS.allSpace pre = true.
Proof.
  induction s as [|c s [pre [IH Hp]]].
  - exists EmptyString. split; reflexivity.
  - cbn [JS.trimStart]. destruct (JS.isSpace c) eqn:E.
    + exists (String c pre). split.
      * cbn. rewrite <- IH. reflexivity.
      * cbn. rewrite E, Hp. reflexivity.
    + exists EmptyString. split; reflexivity.
Qed.

Lemma trimStart_head (s : string) :
  JS.allSpace s = false ->
  exists c s1, JS.trimStart s = String c s1 /\ JS.isSpace c = false.
Proof.
  induction s as [|c s IH]; cbn [JS.allSpace JS.trimStart]; [discriminate|].
  destruct (JS.isSpace c) eqn:E; cbn [andb].
  - apply IH.
  - intros _. exists c, s. split; [reflexivity|assumption].
Qed.

(** The first piece of the split of a text trimmed at its end is the run of
    characters in front of the first white space of the text. *)
Lemma split_first_piece (u : string) :
  exists p ps rest,
    JS.splitSpacesFrom false (JS.trimEnd u) = p :: ps
    /\ u = p ++ rest
    /\ noSpace p = true
    /\ (rest = EmptyString \/ exists ch r, rest = String ch r /\ JS.isSpace ch = true).
Proof.
  induction u as [|c u IH].
  - exists EmptyString, [], EmptyString. repeat split; auto.
  - cbn [JS.trimEnd]. destruct (JS.allSpace (String c u)) eqn:Ea.
    + exists EmptyString, [], (String c u). repeat split; auto.
      right. exists c, u. split; [reflexivity|].
      cbn [JS.allSpace] in Ea. apply andb_true_iff in Ea. apply Ea.
    + cbn [JS.splitSpacesFrom]. destruct (JS.isSpace c) eqn:E.
      * exists EmptyString. eexists. exists (String c u). repeat split; eauto.
      * destruct IH as [p [ps [rest [Hs [Hu [Hn Hr]]]]]].
        rewrite Hs. exists (String c p), ps, rest. split; [reflexivity|].
        split; [cbn; rewrite <- Hu; reflexivity|].
        split; [cbn; rewrite E, Hn; reflexivity|assumption].
Qed.

End SelectorFacts.

(** X4.  The selector of a node is its lower-cased tag name, followed by
    # and the id as it is when the id is not empty.  Without such an id and
    with a class that is not blank it is the tag name, a dot and the first
    class token: the characters of the class value from its first character
    that is not white space up to the next white space or the end.  A class
    that is absent or blank adds nothing. *)
Theorem cssSelector_shape (el : DOM.Element) :
  let name := JS.toLowerCase (DOM.tagName el) in
  (forall i, DOM.getAttribute el "id" = Some i -> i <> EmptyString ->
     cssSelector el = name ++ "#" ++ i)
  /\ (DOM.getAttribute el "id" = None \/ DOM.getAttribute el "id" = Some EmptyString ->
      forall cls, DOM.getAttribute el "class" = Some cls -> JS.allSpace cls = false ->
      exists pre c rest,
        cls = pre ++ c ++ rest
        /\ JS.allSpace pre = true
        /\ c <> EmptyString /\ noSpace c = true
        /\ (rest = EmptyString \/ exists ch r, rest = String ch r /\ JS.isSpace ch = true)
        /\ cssSelector el = name ++ "." ++ c)
  /\ (DOM.getAttribute el "id" = None \/ DOM.getAttribute el "id" = Some EmptyString ->
      JS.allSpace (orEmpty (DOM.getAttribute el "class")) = true ->
      cssSelector el = name).
Proof.
  intros name. split; [|split].
  - intros i Hi Hne. unfold cssSelector. rewrite Hi.
    destruct i; [congruence|reflexivity].
  - intros Hid cls Hc Hb.
    assert (Hsel : cssSelector el
                   = match filter JS.truthy (JS.splitSpaces (JS.trim cls)) with
                     | c :: _ => name ++ "." ++ c
                     | [] => name
                     end).
    { unfold cssSelector. rewrite Hc. cbn [orEmpty].
      destruct Hid as [-> | ->]; reflexivity. }
    destruct (trimStart_split cls) as [pre [Hpre Hsp]].
    destruct (trimStart_head cls Hb) as [c [s1 [Ht Hns]]].
    destruct (split_first_piece s1) as [p [ps [rest [Hs [Hu [Hn Hr]]]]]].
    exists pre, (String c p), rest.
    split; [rewrite Hpre at 1; rewrite Ht, Hu; reflexivity|].
    split; [assumption|]. split; [discriminate|].
    split; [cbn; rewrite Hns, Hn; reflexivity|]. split; [assumption|].
    rewrite Hsel. unfold JS.trim, JS.splitSpaces. rewrite Ht.
    cbn [JS.trimEnd].
    assert (Ha : JS.allSpace (String c s1) = false) by (cbn; rewrite Hns; reflexivity).
    rewrite Ha. cbn [JS.splitSpacesFrom]. rewrite Hns, Hs.
    cbn [filter JS.truthy]. reflexivity.
  - intros Hid Hb. unfold cssSelector, JS.trim.
    rewrite (trimStart_allSpace _ Hb). cbn.
    destruct Hid as [-> | ->]; reflexivity.
Qed.

Lemma cssSelector_shape_witness :
  cssSelector (DOM.mkElement "P" [("id", "intro"); ("class", "lead big")] []) = "p#intro"
  /\ (exists pre c rest,
        "  lead   big " = pre ++ c ++ rest
        /\ JS.allSpace pre = true
        /\ c <> EmptyString /\ noSpace c = true
        /\ (rest = EmptyString \/ exists ch r, rest = String ch r /\ JS.isSpace ch = true)
        /\ cssSelector (DOM.mkElement "div" [("class", "  lead   big ")] [])
           = "div" ++ "." ++ c)
  /\ cssSelector (DOM.mkElement "div" [("class", "   ")] []) = "div".
Proof.
  split; [|split].
  - apply (proj1 (cssSelector_shape (DOM.mkElement "P" [("id", "intro"); ("class", "lead big")] []))
             "intro"); [reflexivity|discriminate].
  - apply (proj1 (proj2 (cssSelector_shape (DOM.mkElement "div" [("class", "  lead   big ")] [])))).
    + left. reflexivity.
    + reflexivity.
    + reflexivity.
  - apply (proj2 (proj2 (cssSelector_shape (DOM.mkElement "div" [("class", "   ")] [])))).
    + left. reflexivity.
    + reflexivity.
Defined.

(** ** What all emitted records have in common *)

Ltac entry :=
  unfold Entry; repeat split;
  try (intros; discriminate); try (intros; congruence); try reflexivity.
Ltac catalogued n :=
  unfold Catalogued; exists n; do 6 eexists;
  split; [reflexivity|split; [entry|lia]].

Section Catalogue.

Context {P : Platform}.
Variable doc : DOM.Document.
Variable html : string.

Lemma checkLang_entry :
  exists f, checkLang doc html [] = [f] /\ Catalogued doc html 1 1 f.
Proof.
  unfold checkLang, push.
  destruct (JS.truthy _); eexists; (split; [reflexivity|]); catalogued 1%nat.
Qed.

Lemma checkTitle_entry :
  exists f, checkTitle doc html [] = [f] /\ Catalogued doc html 2 2 f.
Proof.
  unfold checkTitle, push.
  destruct (DOM.querySelector doc (DOM.isTag "title")) as [t|] eqn:Et; cbn [option_map orEmpty].
  - destruct (negb (JS.truthy (JS.trim (DOM.textContent t))));
      [|destruct ((JS.len _ <? 10) || (60 <? JS.len _))];
      eexists; (split; [reflexivity|]); catalogued 2%nat.
  - cbn [JS.truthy negb orElse].
    eexists; (split; [reflexivity|]); catalogued 2%nat.
Qed.

Lemma checkMetaDescription_entry :
  exists f, checkMetaDescription doc html [] = [f] /\ Catalogued doc html 3 3 f.
Proof.
  unfold checkMetaDescription, push.
  destruct (DOM.querySelector doc _) as [d|].
  - destruct (negb (JS.truthy _));
      [|destruct ((JS.len _ <? 50) || (160 <? JS.len _))];
      eexists; (split; [reflexivity|]); catalogued 3%nat.
  - cbn [JS.truthy negb].
    eexists; (split; [reflexivity|]); catalogued 3%nat.
Qed.

Lemma checkCanonical_entry :
  exists f, checkCanonical doc html [] = [f] /\ Catalogued doc html 4 4 f.
Proof.
  unfold checkCanonical, push.
  destruct (DOM.querySelector doc _) as [c|].
  - destruct (negb (JS.truthy (linkHref c)));
      eexists; (split; [reflexivity|]); catalogued 4%nat.
  - cbn [JS.truthy negb].
    eexists; (split; [reflexivity|]); catalogued 4%nat.
Qed.

Lemma checkH1_entry :
  exists f, checkH1 doc html [] = [f] /\ Catalogued doc html 5 5 f.
Proof.
  unfold checkH1, push.
  destruct (filter _ (headingsOf doc)) as [|h [|h' rest]];
    cbn [List.length]; try (replace (Z.of_nat 1 =? 1) with true by reflexivity);
    cbn [negb].
  - eexists; (split; [reflexivity|]); catalogued 5%nat.
  - eexists; (split; [reflexivity|]); catalogued 5%nat.
  - destruct (negb (Z.of_nat (S (S (List.length rest))) =? 1)) eqn:E.
    + eexists; (split; [reflexivity|]); catalogued 5%nat.
    + apply negb_false_iff, Z.eqb_eq in E. lia.
Qed.


Lemma checkOpenGraph_entry :
  exists f, checkOpenGraph doc html [] = [f] /\ Catalogued doc html 7 7 f.
Proof.
  unfold checkOpenGraph, push.
  destruct (DOM.querySelector doc (metaProperty "og:title"));
    destruct (DOM.querySelector doc (metaProperty "og:description"));
    destruct (DOM.querySelector doc (metaProperty "og:image"));
    eexists; (split; [reflexivity|]); catalogued 7%nat.
Qed.

Lemma checkTwitterCard_entry :
  exists f, checkTwitterCard doc html [] = [f] /\ Catalogued doc html 8 8 f.
Proof.
  unfold checkTwitterCard, push.
  destruct (DOM.querySelector doc _);
    eexists; (split; [reflexivity|]); catalogued 8%nat.
Qed.

(** The image check emits one record exactly when the document has an
    image. *)
Lemma checkImages_entry :
  Forall (Catalogued doc html 9 9) (checkImages doc html [])
  /\ List.length (checkImages doc html [])
     = match DOM.querySelectorAll doc (DOM.isTag "img") with [] => O | _ => 1%nat end.
Proof.
  unfold checkImages, push.
  destruct (DOM.querySelectorAll doc (DOM.isTag "img")) as [|img imgs] eqn:Ei.
  - cbn [filter]. split; [constructor|reflexivity].
  - destruct (filter _ (img :: imgs)) as [|first rest].
    + split; [|reflexivity]. constructor; [catalogued 9%nat|constructor].
    + split; [|reflexivity]. constructor; [catalogued 9%nat|constructor].
Qed.

Lemma family_heading (x : string) : family ("heading-order-" ++ x) = 6%nat.
Proof. unfold family. cbn. rewrite prefix_empty. reflexivity. Qed.

Lemma checkHeadingOrder_entry :
  Forall (Catalogued doc html 6 6) (checkHeadingOrder doc html []).
Proof.
  rewrite checkHeadingOrder_findings. cbn [app].
  unfold Expected.headingOrderFindings. apply Forall_app. split.
  - apply Forall_forall. intros f Hin. apply in_map_iff in Hin.
    destruct Hin as [[[idx p] h] [<- _]]. unfold Expected.jumpWarning.
    unfold Catalogued. exists 6%nat. do 6 eexists.
    split; [reflexivity|]. split; [|lia].
    unfold Entry. rewrite family_heading. repeat split; intros; congruence.
  - destruct (Spec.jumps 0 0 (headingsOf doc)); [|constructor].
    destruct (headingsOf doc); constructor; [|constructor].
    unfold Expected.orderSuccess. catalogued 6%nat.
Qed.

(** The walk over the anchors collects the nameless anchors in order and
    counts the anchors that open a new tab without rel. *)
Lemma anchorWalk_filter (anchors : list DOM.Element) :
  forall nameless blankNoRel,
    anchorWalk nameless blankNoRel anchors
    = ((nameless ++ filter isNameless anchors)%list,
       blankNoRel + Z.of_nat (List.length (filter isBlankNoRel anchors))).
Proof.
  induction anchors as [|a rest IH]; intros nameless blankNoRel.
  - cbn. rewrite app_nil_r. f_equal. lia.
  - cbn [anchorWalk filter]. rewrite IH.
    destruct (isNameless a); destruct (isBlankNoRel a); cbn [List.length];
      rewrite <- ?app_assoc; cbn [app]; f_equal; lia.
Qed.


End Catalogue.

Section CatalogueLinks.

Context {P : Platform}.
Variable doc : DOM.Document.
Variable html : string.

(** The link check emits nothing without an anchor, and otherwise one
    record about names followed by one record about rel. *)
Lemma checkLinks_entry :
  match DOM.querySelectorAll doc (DOM.isTag "a") with
  | [] => checkLinks doc html [] = []
  | _ :: _ =>
      exists f1 f2, checkLinks doc html [] = [f1; f2]
                    /\ Catalogued doc html 10 10 f1 /\ Catalogued doc html 11 11 f2
  end.
Proof.
  unfold checkLinks, push.
  destruct (DOM.querySelectorAll doc (DOM.isTag "a")) as [|a rest] eqn:Ea.
  - reflexivity.
  - rewrite anchorWalk_filter. cbn [app].
    destruct (filter isNameless (a :: rest)) as [|n ns];
      destruct (negb (0 + Z.of_nat (List.length (filter isBlankNoRel (a :: rest))) =? 0));
      do 2 eexists; (split; [reflexivity|]); split;
      first [catalogued 10%nat | catalogued 11%nat].
Qed.

Lemma checkDuplicateIds_entry :
  (forall out, checkDuplicateIds doc html out = Throw)
  \/ (exists f, Catalogued doc html 12 12 f
                /\ forall out, checkDuplicateIds doc html out = Normal (out ++ [f])%list).
Proof.
  unfold checkDuplicateIds, push.
  destruct (filter _ _) as [|[k c] rest].
  - right. eexists. split. 2: reflexivity. catalogued 12%nat.
  - destruct (Selectors.querySelectorText doc _) as [found|].
    + right. eexists. split. 2: reflexivity. catalogued 12%nat.
    + left. reflexivity.
Qed.

End CatalogueLinks.

(** ** Ids of the records *)

Section Ids.

Lemma to_int_normal (n : Z) :
  Z.to_int n <> Decimal.Pos Decimal.Nil /\ Z.to_int n <> Decimal.Neg Decimal.Nil.
Proof.
  pose proof (DecimalZ.to_of (Z.to_int n)) as H. rewrite DecimalZ.of_to in H.
  split; intros E; rewrite E in H; discriminate H.
Qed.

(** Printing an integer loses nothing. *)
Lemma ofInt_injective (n m : Z) : JS.ofInt n = JS.ofInt m -> n = m.
Proof.
  unfold JS.ofInt. intros H.
  destruct (to_int_normal n) as [Hn1 Hn2]. destruct (to_int_normal m) as [Hm1 Hm2].
  pose proof (NilZero.isi (Z.to_int n) Hn1 Hn2) as In.
  pose proof (NilZero.isi (Z.to_int m) Hm1 Hm2) as Im.
  rewrite H in In. rewrite In in Im. injection Im as Im.
  apply DecimalZ.to_int_inj. assumption.
Qed.

Lemma NoDup_map_injective {A B : Type} (f : A -> B) (l : list A) :
  (forall x y, f x = f y -> x = y) -> NoDup l -> NoDup (map f l).
Proof.
  intros Hf. induction 1 as [|x l Hx _ IH]; cbn; constructor; [|assumption].
  intros Hin. apply in_map_iff in Hin. destruct Hin as [y [Hy Hin]].
  apply Hf in Hy. subst. contradiction.
Qed.

(** The indices of the jumps grow along the list. *)
Lemma jumps_indices (hs : list DOM.Element) :
  forall p i0,
    Forall (fun j => i0 <= fst (fst j)) (Spec.jumps p i0 hs)
    /\ NoDup (map (fun j => fst (fst j)) (Spec.jumps p i0 hs)).
Proof.
  induction hs as [|h hs IH]; intros p i0; [split; constructor|].
  cbn [Spec.jumps]. destruct (IH (Spec.level h) (i0 + 1)) as [IH1 IH2].
  assert (Forall (fun j : Z * Z * DOM.Element => i0 <= fst (fst j))
            (Spec.jumps (Spec.level h) (i0 + 1) hs)) as Hge.
  { eapply Forall_impl; [|exact IH1]. cbn. intros j Hj. lia. }
  destruct (negb (p =? 0) && (1 <? Spec.level h - p)); cbn [app map].
  - split; [constructor; [cbn; lia|assumption]|].
    constructor; [|assumption]. cbn [fst].
    intros Hin. apply in_map_iff in Hin. destruct Hin as [j [Hj Hin]].
    rewrite Forall_forall in IH1. apply IH1 in Hin. lia.
  - split; assumption.
Qed.

Lemma heading_ids_distinct {P : Platform} (html : string) (hs : list DOM.Element) :
  NoDup (map id (Expected.headingOrderFindings html hs)).
Proof.
  unfold Expected.headingOrderFindings.
  destruct (Spec.jumps 0 0 hs) as [|j js] eqn:Ej.
  - cbn [map app]. destruct hs; cbn; repeat constructor; intros [].
  - rewrite app_nil_r, <- Ej. rewrite map_map.
    replace (map (fun j => id (Expected.jumpWarning html j)) (Spec.jumps 0 0 hs))
      with (map (fun z => "heading-order-" ++ JS.ofInt z)
                (map (fun j => fst (fst j)) (Spec.jumps 0 0 hs))).
    + apply NoDup_map_injective; [|apply jumps_indices].
      intros x y H. cbn in H. apply ofInt_injective. congruence.
    + rewrite map_map. apply map_ext. intros [[idx p] h]. reflexivity.
Qed.

Lemma catalogued_family {P : Platform} (doc : DOM.Document) (html : string)
  (lo hi : nat) (f : AuditResult) :
  Catalogued doc html lo hi f -> (lo <= family (id f) <= hi)%nat.
Proof.
  intros (n & sev & i & msg & el & rec & q & -> & (_ & _ & _ & Hf) & Hn).
  change (id (finding html sev i msg el rec q)) with i. rewrite Hf. exact Hn.
Qed.

Lemma catalogued_weaken {P : Platform} (doc : DOM.Document) (html : string)
  (lo hi lo' hi' : nat) (f : AuditResult) :
  (lo' <= lo)%nat -> (hi <= hi')%nat ->
  Catalogued doc html lo hi f -> Catalogued doc html lo' hi' f.
Proof.
  intros Hlo Hhi (n & sev & i & msg & el & rec & q & Hf & He & Hn).
  exists n, sev, i, msg, el, rec, q.
  split; [assumption|]. split; [assumption|lia].
Qed.

(** Pieces whose ids belong to families in increasing order have no id in
    common. *)
Lemma ranked_pieces_distinct (pieces : list (nat * list AuditResult)) :
  StronglySorted lt (map fst pieces) ->
  Forall (fun kp => NoDup (map id (snd kp))
                    /\ Forall (fun f => family (id f) = fst kp) (snd kp)) pieces ->
  NoDup (map id (List.concat (map snd pieces))).
Proof.
  induction pieces as [|[k p] rest IH]; intros Hs Hp; [constructor|].
  cbn [map fst snd List.concat] in *.
  apply StronglySorted_inv in Hs. destruct Hs as [Hs Hk].
  inversion Hp as [|? ? [Hnd Hfam] Hrest]. subst. cbn [fst snd] in *.
  rewrite map_app. apply NoDup_app; [assumption|apply IH; assumption|].
  intros i Hin1 Hin2.
  apply in_map_iff in Hin1. destruct Hin1 as [f1 [<- Hf1]].
  apply in_map_iff in Hin2. destruct Hin2 as [f2 [Heq Hf2]].
  apply in_concat in Hf2. destruct Hf2 as [p2 [Hp2 Hf2]].
  apply in_map_iff in Hp2. destruct Hp2 as [[k2 p2'] [<- Hkp2]]. cbn [snd] in Hf2.
  rewrite Forall_forall in Hfam, Hrest, Hk.
  specialize (Hfam f1 Hf1). destruct (Hrest _ Hkp2) as [_ Hfam2]. cbn [fst snd] in Hfam2.
  rewrite Forall_forall in Hfam2. specialize (Hfam2 f2 Hf2).
  assert (k < k2)%nat as Hlt.
  { apply Hk. apply in_map_iff. exists (k2, p2'). split; [reflexivity|assumption]. }
  rewrite Heq in Hfam2. rewrite Hfam in Hfam2. subst k2. lia.
Qed.

End Ids.

Section Assembly.

Context {P : Platform}.
Variable doc : DOM.Document.
Variable html : string.

Lemma catalogued_exact (k : nat) (f : AuditResult) :
  Catalogued doc html k k f -> family (id f) = k.
Proof.
  intros H. apply catalogued_family in H. destruct H as [H1 H2].
  apply Nat.le_antisymm; assumption.
Qed.

(** The records pushed before the duplicate-id check, as pieces ranked by
    the check that emits them. *)
Lemma before_pieces :
  exists pieces,
    Expected.beforeDuplicateIds doc html = List.concat (map snd pieces)
    /\ map fst pieces = [1; 2; 3; 4; 5; 6; 7; 8; 9; 10; 11]%nat
    /\ Forall (fun kp => NoDup (map id (snd kp))
                         /\ Forall (Catalogued doc html (fst kp) (fst kp)) (snd kp)) pieces.
Proof.
  destruct (checkLang_entry doc html) as [f1 [H1 C1]].
  destruct (checkTitle_entry doc html) as [f2 [H2 C2]].
  destruct (checkMetaDescription_entry doc html) as [f3 [H3 C3]].
  destruct (checkCanonical_entry doc html) as [f4 [H4 C4]].
  destruct (checkH1_entry doc html) as [f5 [H5 C5]].
  pose proof (checkHeadingOrder_entry doc html) as C6.
  destruct (checkOpenGraph_entry doc html) as [f7 [H7 C7]].
  destruct (checkTwitterCard_entry doc html) as [f8 [H8 C8]].
  destruct (checkImages_entry doc html) as [C9 L9].
  pose proof (checkLinks_entry doc html) as C10.
  assert (exists l1 l2, checkLinks doc html [] = (l1 ++ l2)%list
            /\ (List.length l1 <= 1)%nat /\ (List.length l2 <= 1)%nat
            /\ Forall (Catalogued doc html 10 10) l1
            /\ Forall (Catalogued doc html 11 11) l2) as (l1 & l2 & HL & Hl1 & Hl2 & Cl1 & Cl2).
  { destruct (DOM.querySelectorAll doc (DOM.isTag "a")).
    - exists [], []. rewrite C10.
      repeat split; try (cbn; lia); constructor.
    - destruct C10 as (g1 & g2 & -> & G1 & G2). exists [g1], [g2].
      repeat split; try (cbn; lia); repeat constructor; assumption. }
  assert (Hshort : forall l : list AuditResult, (List.length l <= 1)%nat -> NoDup (map id l)).
  { intros [|x [|y l]] Hl; cbn in Hl; [constructor|repeat constructor; intros []|lia]. }
  exists [(1%nat, [f1]); (2%nat, [f2]); (3%nat, [f3]); (4%nat, [f4]); (5%nat, [f5]);
          (6%nat, checkHeadingOrder doc html []); (7%nat, [f7]); (8%nat, [f8]);
          (9%nat, checkImages doc html []); (10%nat, l1); (11%nat, l2)].
  split; [|split].
  - rewrite beforeDuplicateIds_order, H1, H2, H3, H4, H5, H7, H8, HL.
    cbn [map snd List.concat app]. rewrite app_nil_r. reflexivity.
  - reflexivity.
  - repeat (apply Forall_cons; [cbn [fst snd]; split|]); try apply Forall_nil;
      try (apply Hshort; cbn; lia); try (repeat constructor; assumption);
      try assumption.
    + rewrite checkHeadingOrder_findings. cbn [app]. apply heading_ids_distinct.
    + apply Hshort. rewrite L9. destruct (DOM.querySelectorAll doc (DOM.isTag "img")); lia.
Qed.

Lemma before_all_catalogued :
  Forall (Catalogued doc html 1 11) (Expected.beforeDuplicateIds doc html).
Proof.
  destruct before_pieces as (pieces & -> & Hk & Hp).
  apply Forall_forall. intros f Hin.
  apply in_concat in Hin. destruct Hin as [p [Hp1 Hf]].
  apply in_map_iff in Hp1. destruct Hp1 as [[k p'] [<- Hkp]]. cbn [snd] in Hf.
  rewrite Forall_forall in Hp. destruct (Hp _ Hkp) as [_ Hc]. cbn [fst snd] in Hc.
  rewrite Forall_forall in Hc. specialize (Hc f Hf).
  assert (In k (map fst pieces)) as Hin.
  { apply in_map_iff. exists (k, p'). split; [reflexivity|assumption]. }
  rewrite Hk in Hin.
  apply (catalogued_weaken doc html k k); [| |assumption];
    repeat (destruct Hin as [<-|Hin]; [lia|]); destruct Hin.
Qed.

(** Every record of the audit, returned or pushed before the run raised,
    was emitted with arguments of the common shape. *)
Lemma audit_all_catalogued (f : AuditResult) :
  In f (Expected.beforeDuplicateIds doc html)
  \/ (exists out, audit doc html = Normal out /\ In f out) ->
  Catalogued doc html 1 12 f.
Proof.
  pose proof before_all_catalogued as Hb. rewrite Forall_forall in Hb.
  intros [Hin|[out [Ha Hin]]].
  - apply (catalogued_weaken doc html 1 11); [lia|lia|auto].
  - rewrite audit_unfold in Ha.
    destruct (checkDuplicateIds_entry doc html) as [Ht|[g [Cg Hg]]].
    + rewrite Ht in Ha. discriminate.
    + rewrite Hg in Ha. injection Ha as <-.
      apply in_app_iff in Hin. destruct Hin as [Hin|[<-|[]]].
      * apply (catalogued_weaken doc html 1 11); [lia|lia|auto].
      * apply (catalogued_weaken doc html 12 12); [lia|lia|assumption].
Qed.

Lemma audit_ids_NoDup (out : list AuditResult) :
  audit doc html = Normal out -> NoDup (map id out).
Proof.
  rewrite audit_unfold. intros Ha.
  destruct (checkDuplicateIds_entry doc html) as [Ht|[g [Cg Hg]]].
  - rewrite Ht in Ha. discriminate.
  - rewrite Hg in Ha. injection Ha as <-.
    destruct before_pieces as (pieces & -> & Hk & Hp).
    replace (List.concat (map snd pieces) ++ [g])%list
      with (List.concat (map snd (pieces ++ [(12%nat, [g])]))).
    + apply ranked_pieces_distinct.
      * rewrite map_app, Hk. cbn. repeat constructor.
      * apply Forall_app. split.
        -- eapply Forall_impl; [|exact Hp]. intros [k p] [Hn Hc]. cbn [fst snd] in *.
           split; [assumption|].
           eapply Forall_impl; [|exact Hc]. intros f. apply catalogued_exact.
        -- constructor; [|constructor]. cbn [fst snd]. split.
           ++ repeat constructor. intros [].
           ++ constructor; [apply catalogued_exact; assumption|constructor].
    + rewrite map_app, concat_app. cbn [map snd List.concat app]. reflexivity.
Qed.

End Assembly.

(** X5.  In every record of the audit a recommendation is present exactly
    when the severity is not success. *)
Theorem recommendation_iff_not_success (P : Platform) (doc : DOM.Document)
  (html : string) (f : AuditResult) :
  In f (Expected.beforeDuplicateIds doc html)
  \/ (exists out, audit doc html = Normal out /\ In f out) ->
  (recommendation f = None <-> severity f = success).
Proof.
  intros H. apply audit_all_catalogued in H.
  destruct H as (n & sev & i & msg & el & rec & q & -> & (Hrec & _) & _).
  exact Hrec.
Qed.

Lemma recommendation_iff_not_success_witness :
  let P := fragmentOnly Examples.skipDoc in
  let f := finding Examples.skipMarkup warning "heading-order-1"
             "Heading jumps from H1 to H3."
             (Some (DOM.mkElement "h3" [] [DOM.TextNode "B"]))
             (Some "Adjust heading levels to avoid skipping levels.") None in
  recommendation f = None <-> severity f = success.
Proof.
  intros P f.
  apply (recommendation_iff_not_success P Examples.skipDoc Examples.skipMarkup f).
  left. vm_compute. repeat first [left; reflexivity | right].
Defined.

(** X6.  Every success record of the audit carries a selector: a success
    is always reported on a node. *)
Theorem success_has_selector (P : Platform) (doc : DOM.Document)
  (html : string) (f : AuditResult) :
  In f (Expected.beforeDuplicateIds doc html)
  \/ (exists out, audit doc html = Normal out /\ In f out) ->
  severity f = success -> selector f <> None.
Proof.
  intros H. apply audit_all_catalogued in H.
  destruct H as (n & sev & i & msg & el & rec & q & -> & (_ & Hsel & _) & _).
  cbn [severity selector finding]. intros Hs. specialize (Hsel Hs).
  destruct el; [discriminate|contradiction].
Qed.

Lemma success_has_selector_witness :
  let P := fragmentOnly Examples.skipDoc in
  let f := finding Examples.skipMarkup success "h1-ok" "Exactly one H1 present."
             (Some (DOM.mkElement "h1" [] [DOM.TextNode "A"])) None None in
  selector f <> None.
Proof.
  intros P f.
  apply (success_has_selector P Examples.skipDoc Examples.skipMarkup f).
  - left. vm_compute. repeat first [left; reflexivity | right].
  - reflexivity.
Defined.

(** X7.  The ids of the records that one run returns are pairwise
    distinct. *)
Theorem audit_ids_distinct (P : Platform) (doc : DOM.Document) (html : string)
  (out : list AuditResult) :
  audit doc html = Normal out -> NoDup (map id out).
Proof. apply audit_ids_NoDup. Qed.

Lemma audit_ids_distinct_witness :
  NoDup ["lang-missing"; "title-missing"; "meta-desc-missing"; "canonical-missing";
         "h1-ok"; "heading-order-1"; "og-missing"; "twitter-card-missing"; "dup-ids-ok"].
Proof.
  pose proof (audit_ids_distinct (fragmentOnly Examples.skipDoc)
                Examples.skipDoc Examples.skipMarkup) as H.
  specialize (H _ ltac:(vm_compute; reflexivity)).
  exact H.
Defined.

(** X8.  On a document that has a head element, as every parsed document
    has, no record is located by a literal query: a record with a line, a
    column or a snippet always has a selector. *)
Theorem location_implies_selector (P : Platform) (doc : DOM.Document)
  (html : string) (f : AuditResult) :
  DOM.head doc <> None ->
  In f (Expected.beforeDuplicateIds doc html)
  \/ (exists out, audit doc html = Normal out /\ In f out) ->
  line f <> None \/ column f <> None \/ snippet f <> None ->
  selector f <> None.
Proof.
  intros Hhead H Hloc. apply audit_all_catalogued in H.
  destruct H as (n & sev & i & msg & el & rec & q & -> & (_ & _ & Hq & _) & _).
  destruct (finding_presence html sev i msg el rec q) as [Hsel Hrec].
  apply Hsel. destruct (Hrec Hloc) as [(e & re & -> & _)|[-> (query & -> & _)]].
  - discriminate.
  - contradiction Hhead. apply Hq; [discriminate|reflexivity].
Qed.

Lemma location_implies_selector_witness :
  let P := fragmentOnly Examples.skipDoc in
  let f := finding Examples.skipMarkup success "h1-ok" "Exactly one H1 present."
             (Some (DOM.mkElement "h1" [] [DOM.TextNode "A"])) None None in
  line f = Some 1 /\ selector f <> None.
Proof.
  intros P f. split; [vm_compute; reflexivity|].
  apply (location_implies_selector P Examples.skipDoc Examples.skipMarkup f).
  - discriminate.
  - left. vm_compute. repeat first [left; reflexivity | right].
  - left. vm_compute. discriminate.
Defined.

Section Counting.

Context {P : Platform}.
Variable doc : DOM.Document.
Variable html : string.

Lemma headingOrder_length :
  List.length (checkHeadingOrder doc html [])
  = match headingsOf doc with
    | [] => O
    | _ :: _ => Nat.max 1 (List.length (Spec.jumps 0 0 (headingsOf doc)))
    end.
Proof.
  rewrite checkHeadingOrder_findings. cbn [app]. unfold Expected.headingOrderFindings.
  destruct (headingsOf doc) as [|h hs]; [reflexivity|].
  destruct (Spec.jumps 0 0 (h :: hs)) as [|j js].
  - reflexivity.
  - rewrite app_nil_r, length_map. cbn [List.length]. lia.
Qed.

Lemma links_length :
  List.length (checkLinks doc html [])
  = match DOM.querySelectorAll doc (DOM.isTag "a") with [] => O | _ :: _ => 2%nat end.
Proof.
  pose proof (checkLinks_entry doc html) as H.
  destruct (DOM.querySelectorAll doc (DOM.isTag "a")).
  - rewrite H. reflexivity.
  - destruct H as (f1 & f2 & -> & _). reflexivity.
Qed.

End Counting.

(** X9.  A run that returns has exactly eight records from the checks that
    always report, plus, if the document has headings, one record per jump
    of the heading sequence or the single success; plus one record if it has
    an image; plus two records if it has an anchor. *)
Theorem audit_count (P : Platform) (doc : DOM.Document) (html : string)
  (out : list AuditResult) :
  audit doc html = Normal out ->
  List.length out
  = (8
     + match headingsOf doc with
       | [] => 0
       | _ :: _ => Nat.max 1 (List.length (Spec.jumps 0 0 (headingsOf doc)))
       end
     + match DOM.querySelectorAll doc (DOM.isTag "img") with [] => 0 | _ :: _ => 1 end
     + match DOM.querySelectorAll doc (DOM.isTag "a") with [] => 0 | _ :: _ => 2 end)%nat.
Proof.
  intros Ha. destruct (audit_order doc html out Ha) as [dup [_ [Hd ->]]].
  destruct (checkLang_shape doc html) as [f1 [_ H1]].
  destruct (checkTitle_shape doc html) as [f2 [_ H2]].
  destruct (checkMetaDescription_shape doc html) as [f3 [_ H3]].
  destruct (checkCanonical_shape doc html) as [f4 [_ H4]].
  destruct (checkH1_shape doc html) as [f5 [_ H5]].
  destruct (checkOpenGraph_shape doc html) as [f7 [_ H7]].
  destruct (checkTwitterCard_shape doc html) as [f8 [_ H8]].
  rewrite H1, H2, H3, H4, H5, H7, H8. repeat rewrite length_app.
  rewrite headingOrder_length, links_length, (proj2 (checkImages_entry doc html)), Hd.
  cbn [List.length app]. lia.
Qed.

Lemma audit_count_witness :
  let P := fragmentOnly Examples.skipDoc in
  exists out, audit Examples.skipDoc Examples.skipMarkup = Normal out
              /\ List.length out = 9%nat.
Proof.
  intros P.
  assert (exists out, audit Examples.skipDoc Examples.skipMarkup = Normal out) as [out Ho].
  { eexists. vm_compute. reflexivity. }
  exists out. split; [assumption|].
  rewrite (audit_count P Examples.skipDoc Examples.skipMarkup out Ho).
  reflexivity.
Defined.



Section H1Facts.


End H1Facts.


Section DuplicatedFacts.


Lemma distinct_In (ks seen : list string) (k : string) :
  In k (Spec.distinct seen ks) <-> In k ks /\ ~ In k seen.
Proof.
  revert seen. induction ks as [|x ks IH]; intros seen; [cbn; tauto|].
  cbn [Spec.distinct In]. destruct (Spec.seenIn seen x) eqn:E.
  - apply seenIn_true in E. rewrite IH. split.
    + tauto.
    + intros [[->|H] Hs]; [contradiction|tauto].
  - apply seenIn_false in E. cbn [In]. rewrite IH. cbn [In]. split.
    + intros [->|[H Hs]]; [tauto|]. split; [tauto|]. intros Hin. apply Hs. auto.
    + intros [[->|H] Hs]; [auto|].
      destruct (String.eqb_spec x k) as [->|Hne]; [auto|].
      right. split; [assumption|]. intros [Heq|Hin]; [contradiction|contradiction].
Qed.




End DuplicatedFacts.



(** X13.  The audit raises only in the duplicate-id check, and only when
    the first duplicated id value holds a double quote, a backslash, a line
    break or NUL.  On a document whose id values are all free of these
    characters every run returns. *)
Theorem audit_raises_only_on_unsafe_id (P : Platform) (doc : DOM.Document)
  (html : string) :
  let ids := Spec.idsOf (DOM.elements doc) in
  (audit doc html = Throw ->
   exists k rest, Spec.duplicated ids = k :: rest /\ Spec.plainValue k = false)
  /\ (Forall (fun k => Spec.plainValue k = true) ids ->
      exists out, audit doc html = Normal out).
Proof.
  cbn zeta.
  assert (Hthrow : audit doc html = Throw ->
            exists k rest, Spec.duplicated (Spec.idsOf (DOM.elements doc)) = k :: rest
                           /\ Spec.plainValue k = false).
  { rewrite audit_unfold. intros Ha.
    pose proof (checkDuplicateIds_plain doc html (Expected.beforeDuplicateIds doc html)) as Hc.
    cbn zeta in Hc.
    destruct (Spec.duplicated (Spec.idsOf (DOM.elements doc))) as [|k rest].
    - rewrite Hc in Ha. discriminate.
    - exists k, rest. split; [reflexivity|].
      destruct (Spec.plainValue k); [|reflexivity].
      rewrite (Hc eq_refl) in Ha. discriminate. }
  split; [exact Hthrow|].
  intros Hall. destruct (audit doc html) as [out|] eqn:Ea; [exists out; reflexivity|].
  destruct (Hthrow eq_refl) as (k & rest & Hd & Hk).
  assert (In k (Spec.duplicated (Spec.idsOf (DOM.elements doc)))) as Hin
    by (rewrite Hd; left; reflexivity).
  unfold Spec.duplicated in Hin. apply filter_In in Hin. destruct Hin as [Hin _].
  apply distinct_In in Hin. destruct Hin as [Hin _].
  rewrite Forall_forall in Hall. rewrite (Hall k Hin) in Hk. discriminate.
Qed.

Lemma audit_raises_only_on_unsafe_id_witness :
  let P := fragmentOnly Examples.quotedIdDoc in
  (exists k rest,
      Spec.duplicated (Spec.idsOf (DOM.elements Examples.quotedIdDoc)) = k :: rest
      /\ Spec.plainValue k = false)
  /\ exists out, audit Examples.dupDoc EmptyString = Normal out.
Proof.
  intros P. split.
  - apply (proj1 (audit_raises_only_on_unsafe_id P Examples.quotedIdDoc EmptyString)).
    vm_compute. reflexivity.
  - apply (proj2 (audit_raises_only_on_unsafe_id P Examples.dupDoc EmptyString)).
    repeat constructor.
Defined.

(** ** URL assembly *)

Section UrlFacts.

Lemma dropFinalSlash_added (b : string) : Panel.dropFinalSlash (b ++ "/") = b.
Proof.
  induction b as [|c b IH]; [reflexivity|].
  cbn [append Panel.dropFinalSlash].
  destruct (b ++ "/") eqn:E.
  - destruct b; discriminate E.
  - rewrite IH. reflexivity.
Qed.

Lemma dropFinalSlash_none (b : string) :
  endsWithSlash b = false -> Panel.dropFinalSlash b = b.
Proof.
  induction b as [|c b IH]; [reflexivity|].
  cbn [endsWithSlash Panel.dropFinalSlash].
  destruct b as [|d b].
  - intros ->. reflexivity.
  - intros H. rewrite (IH H). reflexivity.
Qed.

Lemma endsWithSlash_split (b : string) :
  endsWithSlash b = true -> exists b0, b = b0 ++ "/".
Proof.
  induction b as [|c b IH]; [discriminate|].
  cbn [endsWithSlash]. destruct b as [|d b].
  - intros H. apply Ascii.eqb_eq in H. subst. exists EmptyString. reflexivity.
  - intros H. destruct (IH H) as [b0 Hb0]. exists (String c b0).
    cbn [append]. rewrite <- Hb0. reflexivity.
Qed.

Lemma append_assoc (a b c : string) : (a ++ b) ++ c = a ++ b ++ c.
Proof. induction a as [|x a IH]; cbn; [reflexivity|]. rewrite IH. reflexivity. Qed.

End UrlFacts.

(** X14.  The joined URL is the base without its final slash, if it has
    one, then one slash, then the route without its leading slash, if it has
    one.  Only one slash is taken off on either side: a base and a route
    written without further slashes there are joined by exactly one slash in
    all four ways of writing them, and slashes written twice stay in the
    URL. *)
Theorem absoluteUrlFromRoute_normalises (base route : string) :
  (exists b r,
      base = (if endsWithSlash base then b ++ "/" else b)
      /\ route = (if prefix "/" route then "/" ++ r else r)
      /\ Panel.absoluteUrlFromRoute base route = b ++ "/" ++ r)
  /\ (endsWithSlash base = false ->
      prefix "/" route = false ->
      Panel.absoluteUrlFromRoute base route = base ++ "/" ++ route
      /\ Panel.absoluteUrlFromRoute (base ++ "/") route = base ++ "/" ++ route
      /\ Panel.absoluteUrlFromRoute base ("/" ++ route) = base ++ "/" ++ route
      /\ Panel.absoluteUrlFromRoute (base ++ "/") ("/" ++ route) = base ++ "/" ++ route)
  /\ Panel.absoluteUrlFromRoute (base ++ "//") ("//" ++ route) = base ++ "///" ++ route.
Proof.
  split; [|split].
  - unfold Panel.absoluteUrlFromRoute.
    destruct (endsWithSlash base) eqn:Eb.
    + destruct (endsWithSlash_split base Eb) as [b Hb].
      destruct (prefix "/" route) eqn:Er.
      * destruct (prefix_split "/" route Er) as [r Hr].
        exists b, r. split; [assumption|]. split; [assumption|].
        rewrite Hb at 1. rewrite dropFinalSlash_added, Hr. reflexivity.
      * exists b, route. split; [assumption|]. split; [reflexivity|].
        rewrite Hb at 1. rewrite dropFinalSlash_added. reflexivity.
    + rewrite (dropFinalSlash_none base Eb).
      destruct (prefix "/" route) eqn:Er.
      * destruct (prefix_split "/" route Er) as [r Hr].
        exists base, r. split; [reflexivity|]. split; [assumption|].
        rewrite Hr. reflexivity.
      * exists base, route. repeat split.
  - intros Hb Hr. unfold Panel.absoluteUrlFromRoute.
    rewrite dropFinalSlash_added, (dropFinalSlash_none base Hb), Hr.
    replace (prefix "/" ("/" ++ route)) with true by (symmetry; apply (prefix_app "/" route)).
    repeat split; reflexivity.
  - unfold Panel.absoluteUrlFromRoute.
    replace (base ++ "//") with ((base ++ "/") ++ "/")
      by (rewrite append_assoc; reflexivity).
    rewrite dropFinalSlash_added.
    replace (prefix "/" ("//" ++ route)) with true
      by (symmetry; apply (prefix_app "/" ("/" ++ route))).
    rewrite append_assoc. reflexivity.
Qed.

Lemma absoluteUrlFromRoute_normalises_witness :
  Panel.absoluteUrlFromRoute "https://example.com" "about" = "https://example.com/about"
  /\ Panel.absoluteUrlFromRoute "https://example.com/" "about" = "https://example.com/about"
  /\ Panel.absoluteUrlFromRoute "https://example.com" "/about" = "https://example.com/about"
  /\ Panel.absoluteUrlFromRoute "https://example.com/" "/about" = "https://example.com/about".
Proof.
  apply (proj1 (proj2 (absoluteUrlFromRoute_normalises "https://example.com" "about")));
    reflexivity.
Defined.

(** ** The allow-list *)

(** X15.  A URL passes the allow-list exactly when some entry that is not
    empty equals its origin or is a textual prefix of its href; empty
    entries never let a URL pass, and an entry that is a prefix of the href
    lets it pass whatever the origin. *)
Theorem isAllowed_spec (url : Proxy.URL) (allowed : list string) :
  Proxy.isAllowed url allowed = true
  <-> exists a, In a allowed /\ a <> EmptyString
                /\ (Proxy.origin url = a \/ exists rest, Proxy.href url = a ++ rest).
Proof.
  unfold Proxy.isAllowed. rewrite existsb_exists. split.
  - intros [a [Hin Ha]]. apply andb_prop in Ha. destruct Ha as [Ht Hm].
    exists a. split; [assumption|]. split; [intros ->; discriminate Ht|].
    apply orb_prop in Hm. destruct Hm as [Hm|Hm].
    + left. apply String.eqb_eq. assumption.
    + right. apply prefix_split. assumption.
  - intros [a [Hin [Hne Hm]]]. exists a. split; [assumption|].
    apply andb_true_intro. split; [destruct a; [contradiction|reflexivity]|].
    apply orb_true_intro. destruct Hm as [Hm|[rest Hm]].
    + left. apply String.eqb_eq. assumption.
    + right. rewrite Hm. apply prefix_app.
Qed.

(** ** One run of the panel *)

Section RunFacts.

Context {P : Platform} {H : Panel.Host}.

Lemma audit_never_fetch_failed (doc : DOM.Document) (html : string)
  (out : list AuditResult) :
  audit doc html = Normal out ->
  Forall (fun f => id f <> "fetch-failed") out.
Proof.
  intros Ha. apply Forall_forall. intros f Hin.
  assert (Catalogued doc html 1 12 f) as Hc.
  { apply audit_all_catalogued. right. exists out. split; assumption. }
  apply catalogued_family in Hc. intros E. rewrite E in Hc.
  change (family "fetch-failed") with O in Hc. lia.
Qed.

End RunFacts.

(** X16.  A run of the panel with a client and a valid base URL always
    settles with the loading flag off, no base-URL error and a list of
    records that is not empty: either the records of the audit of the
    fetched page, at least eight and none with id fetch-failed, or the
    single record fetch-failed.  The latter is what the panel shows when the
    route query or the fetch fails, and also when the page was fetched but
    the audit raised.  Without a client, or with a base URL that is not
    valid, the records are left as they were. *)
Theorem run_settles (P : Platform) (H : Panel.Host) (client : bool)
  (baseUrl : string) (st : Panel.PanelState) :
  let st' := Panel.run client baseUrl st in
  (client = true -> JS.truthy baseUrl = true -> Panel.isBareOrigin baseUrl = true ->
   Panel.loading st' = false
   /\ Panel.baseUrlError st' = EmptyString
   /\ (Panel.results st' = [Panel.fetchFailed]
       \/ (exists html,
              Panel.proxyFetch (Panel.auditedUrl st') = Normal html
              /\ runSeoA11yAudit html = Normal (Panel.results st')
              /\ (8 <= List.length (Panel.results st'))%nat
              /\ Forall (fun f => id f <> "fetch-failed") (Panel.results st')))
   /\ (forall route html,
          Panel.pagesContextRoute = Normal route ->
          Panel.proxyFetch
            (Panel.absoluteUrlFromRoute baseUrl (if JS.truthy route then route else "/"))
          = Normal html ->
          runSeoA11yAudit html = Throw ->
          Panel.results st' = [Panel.fetchFailed]))
  /\ (client = false \/ JS.truthy baseUrl = false \/ Panel.isBareOrigin baseUrl = false ->
      Panel.results st' = Panel.results st /\ Panel.auditedUrl st' = Panel.auditedUrl st).
Proof.
  cbn zeta. unfold Panel.run. split.
  - intros -> -> ->. cbn [negb orb].
    destruct Panel.pagesContextRoute as [route|].
    + set (url := Panel.absoluteUrlFromRoute baseUrl (if JS.truthy route then route else "/")).
      destruct (Panel.proxyFetch url) as [html|] eqn:Ef.
      * destruct (runSeoA11yAudit html) as [found|] eqn:Ea; cbn.
        -- repeat split; try reflexivity.
           ++ right. exists html. split; [assumption|]. split; [assumption|].
              unfold runSeoA11yAudit in Ea. split.
              ** apply (proj1 (audit_minimum _ _ _ Ea)).
              ** apply (audit_never_fetch_failed _ _ _ Ea).
           ++ intros r h Hr Hf Ht. injection Hr as <-. fold url in Hf.
              rewrite Ef in Hf. injection Hf as <-. rewrite Ea in Ht. discriminate.
        -- repeat split; try reflexivity; auto.
      * cbn. repeat split; try reflexivity; auto.
    + cbn. repeat split; try reflexivity; auto; try (intros r h Hr; discriminate).
  - intros Hcase. destruct client; cbn [negb]; [|split; reflexivity].
    destruct (negb (JS.truthy baseUrl) || negb (Panel.isBareOrigin baseUrl)) eqn:E;
      [split; reflexivity|].
    apply orb_false_elim in E. destruct E as [E1 E2].
    apply negb_false_iff in E1. apply negb_false_iff in E2.
    destruct Hcase as [Hc|[Hc|Hc]]; congruence.
Qed.

Lemma run_settles_witness :
  let P := fragmentOnly Examples.quotedIdDoc in
  let H := {| Panel.parseURL := fun _ => Some (Panel.mkURLParts "https:" "/" "" "");
              Panel.pagesContextRoute := Normal "/";
              Panel.proxyFetch := fun _ => Normal Examples.quotedIdMarkup |} in
  Panel.results (Panel.run true "https://example.com"
                   (Panel.mkPanel "" [] true "")) = [Panel.fetchFailed].
Proof.
  intros P H.
  refine (proj2 (proj2 (proj2 (proj1 (run_settles P H true "https://example.com"
                                        (Panel.mkPanel "" [] true ""))
                                 eq_refl eq_refl eq_refl)))
            "/" Examples.quotedIdMarkup eq_refl eq_refl _).
  vm_compute. reflexivity.
Defined.

(** ** The location row *)

(** X17.  For a record of the audit the location row is rendered exactly
    when the record has a line, and then it reads line and column together:
    a row with only a line or only a column does not occur. *)
Theorem location_row_of_finding (P : Platform) (doc : DOM.Document) (html : string)
  (f : AuditResult) :
  In f (Expected.beforeDuplicateIds doc html)
  \/ (exists out, audit doc html = Normal out /\ In f out) ->
  (Panel.locationRow f = None <-> line f = None)
  /\ (forall l, line f = Some l ->
        exists c, column f = Some c
                  /\ Panel.locationRow f
                     = Some ("Location: line " ++ JS.ofInt l ++ ", col " ++ JS.ofInt c)).
Proof.
  intros Hin. apply audit_emitted in Hin.
  destruct Hin as (sev & i & msg & el & rec & q & ->).
  destruct (finding_position html sev i msg el rec q) as (Hiff & Hl & Hc).
  cbn zeta in Hiff, Hl, Hc. unfold Panel.locationRow.
  destruct (line (finding html sev i msg el rec q)) as [l|] eqn:El;
    destruct (column (finding html sev i msg el rec q)) as [c|] eqn:Ec.
  - specialize (Hl l eq_refl). specialize (Hc c eq_refl).
    cbn [Panel.truthyNum].
    assert ((l =? 0) = false) as -> by (apply Z.eqb_neq; lia).
    assert ((c =? 0) = false) as -> by (apply Z.eqb_neq; lia).
    cbn [negb orb andb]. split; [split; discriminate|].
    intros l' [= <-]. exists c. split; [reflexivity|].
    cbn [append]. reflexivity.
  - destruct Hiff as [_ Hiff]. specialize (Hiff eq_refl). discriminate.
  - destruct Hiff as [Hiff _]. specialize (Hiff eq_refl). discriminate.
  - cbn. split; [split; reflexivity|]. intros l' [=].
Qed.

Lemma location_row_of_finding_witness :
  let P := fragmentOnly Examples.skipDoc in
  let f := finding Examples.skipMarkup success "h1-ok" "Exactly one H1 present."
             (Some (DOM.mkElement "h1" [] [DOM.TextNode "A"])) None None in
  Panel.locationRow f = Some "Location: line 1, col 1".
Proof.
  intros P f.
  destruct (proj2 (location_row_of_finding P Examples.skipDoc Examples.skipMarkup f
                     ltac:(left; vm_compute; repeat first [left; reflexivity | right]))
              1 ltac:(vm_compute; reflexivity)) as [c [Hc Hrow]].
  rewrite Hrow. vm_compute in Hc. injection Hc as <-. reflexivity.
Defined.

(** ** The bare-tag pattern finds an opening tag *)

Section MatcherFacts.

Lemma matchesAt_star (a : RegExp.atom) (r : RegExp.regex) (prev : option ascii) (s : string) :
  RegExp.matchesAt (RegExp.Star a :: r) prev s
  = RegExp.matchesAt r prev s
    || match s with
       | String c s' => RegExp.atomMatches a c && RegExp.matchesAt (RegExp.Star a :: r) (Some c) s'
       | EmptyString => false
       end.
Proof. destruct s; reflexivity. Qed.

Lemma matchesAt_star_skip (a : RegExp.atom) (r : RegExp.regex) (prev : option ascii) (s : string) :
  RegExp.matchesAt r prev s = true -> RegExp.matchesAt (RegExp.Star a :: r) prev s = true.
Proof. intros H. rewrite matchesAt_star, H. reflexivity. Qed.

Lemma sameChar_refl (c : ascii) : RegExp.sameChar c c = true.
Proof. unfold RegExp.sameChar. apply Ascii.eqb_refl. Qed.

(** Literal items consume the text they spell. *)
Lemma matchesAt_literally (s : string) :
  forall r prev rest,
    RegExp.matchesAt (Expected.literally s ++ r)%list prev (s ++ rest)
    = RegExp.matchesAt r (lastChar prev s) rest.
Proof.
  induction s as [|c s IH]; intros r prev rest; [reflexivity|].
  unfold Expected.literally. cbn [list_ascii_of_string map app append RegExp.matchesAt].
  cbn [RegExp.atomMatches]. rewrite sameChar_refl. cbn [andb lastChar].
  apply IH.
Qed.

Lemma lastChar_word (s : string) (p : option ascii) :
  endsWithWordChar s = true -> lastChar p s = lastChar None s.
Proof.
  unfold endsWithWordChar. destruct s as [|c s]; [discriminate|]. reflexivity.
Qed.

Lemma searchFrom_unfold (r : RegExp.regex) (prev : option ascii) (s : string) (i : Z) :
  RegExp.searchFrom r prev s i
  = if RegExp.matchesAt r prev s then i
    else match s with
         | String c s' => RegExp.searchFrom r (Some c) s' (i + 1)
         | EmptyString => -1
         end.
Proof. destruct s; reflexivity. Qed.

(** A match that starts behind [a] is found, there or earlier. *)
Lemma searchFrom_finds (r : RegExp.regex) (a rest : string) :
  forall prev i,
    RegExp.matchesAt r (lastChar prev a) rest = true ->
    i <= RegExp.searchFrom r prev (a ++ rest) i <= i + JS.len a.
Proof.
  induction a as [|c a IH]; intros prev i Hm.
  - cbn [append lastChar] in *. rewrite searchFrom_unfold, Hm. unfold JS.len. cbn. lia.
  - cbn [append]. rewrite searchFrom_unfold. rewrite len_cons. pose proof (len_nonneg a).
    destruct (RegExp.matchesAt r prev (String c (a ++ rest))); [lia|].
    specialize (IH (Some c) (i + 1) Hm). lia.
Qed.

(** The bare-tag pattern matches the tag written without attributes. *)
Lemma tag_pattern_matches (tn b : string) (prev : option ascii) :
  endsWithWordChar tn = true ->
  RegExp.matchesAt
    ([RegExp.One (RegExp.Lit "<"); RegExp.Star RegExp.Space]
     ++ Expected.literally tn
     ++ [RegExp.WordBoundary; RegExp.Star (RegExp.NoneOf [">"%char]);
         RegExp.One (RegExp.Lit ">")])%list
    prev ("<" ++ tn ++ ">" ++ b) = true.
Proof.
  intros Hw. cbn [app append RegExp.matchesAt RegExp.atomMatches].
  rewrite sameChar_refl. cbn [andb].
  change (RegExp.matchesAt
            (RegExp.Star RegExp.Space
             :: (Expected.literally tn
                 ++ [RegExp.WordBoundary; RegExp.Star (RegExp.NoneOf [">"%char]);
                     RegExp.One (RegExp.Lit ">")])%list)
            (Some "<"%char) (tn ++ String ">" b) = true).
  apply matchesAt_star_skip. rewrite matchesAt_literally.
  rewrite (lastChar_word tn _ Hw).
  cbn [RegExp.matchesAt RegExp.next]. unfold endsWithWordChar in Hw. rewrite Hw.
  cbn [RegExp.wordAt]. replace (RegExp.isWordChar ">") with false by reflexivity.
  cbn [xorb andb].
  change (RegExp.matchesAt
            [RegExp.Star (RegExp.NoneOf [">"%char]); RegExp.One (RegExp.Lit ">")]
            (lastChar None tn) (String ">" b) = true).
  apply matchesAt_star_skip.
  cbn [RegExp.matchesAt RegExp.atomMatches]. rewrite sameChar_refl. reflexivity.
Qed.

End MatcherFacts.

(** X18.  For a node without a usable attribute, whose tag name has no
    metacharacter and ends with a letter, digit or underscore, the by-node
    locator recovers a location as soon as the markup holds the opening tag
    written without attributes; the match is at that tag or in front of
    it. *)
Theorem bare_tag_is_found (P : Platform) (el : DOM.Element) (html a b : string) :
  let tn := JS.toLowerCase (DOM.tagName el) in
  Forall (fun k => Spec.usable el k = false) Spec.priority ->
  Spec.plain tn = true ->
  endsWithWordChar tn = true ->
  html = a ++ "<" ++ tn ++ ">" ++ b ->
  exists re idx,
    newRegExp (locatePattern el) = Normal re
    /\ search html re = idx
    /\ 0 <= idx <= JS.len a
    /\ locateElement el html = Spec.locatorAt html idx (idx + 240).
Proof.
  cbn zeta. intros Hnone Hplain Hword Hhtml.
  assert (locatePattern el = "<\s*" ++ JS.toLowerCase (DOM.tagName el) ++ "\b[^>]*>") as Hpat.
  { unfold locatePattern.
    change (locateAttrs el) with (map (fun k => (k, DOM.getAttribute el k)) Spec.priority).
    rewrite (findUsable_none el Spec.priority Hnone). reflexivity. }
  assert (newRegExp (locatePattern el)
          = Normal (Compiled
              ([RegExp.One (RegExp.Lit "<"); RegExp.Star RegExp.Space]
               ++ Expected.literally (JS.toLowerCase (DOM.tagName el))
               ++ [RegExp.WordBoundary; RegExp.Star (RegExp.NoneOf [">"%char]);
                   RegExp.One (RegExp.Lit ">")])%list)) as Hre.
  { unfold newRegExp. rewrite Hpat, parse_tag_pattern by assumption. reflexivity. }
  eexists. eexists. split; [exact Hre|]. split; [reflexivity|].
  assert (0 <= search html (Compiled
              ([RegExp.One (RegExp.Lit "<"); RegExp.Star RegExp.Space]
               ++ Expected.literally (JS.toLowerCase (DOM.tagName el))
               ++ [RegExp.WordBoundary; RegExp.Star (RegExp.NoneOf [">"%char]);
                   RegExp.One (RegExp.Lit ">")])%list) <= JS.len a) as Hidx.
  { unfold search, RegExp.search. rewrite Hhtml.
    pose proof (searchFrom_finds
                  ([RegExp.One (RegExp.Lit "<"); RegExp.Star RegExp.Space]
                   ++ Expected.literally (JS.toLowerCase (DOM.tagName el))
                   ++ [RegExp.WordBoundary; RegExp.Star (RegExp.NoneOf [">"%char]);
                       RegExp.One (RegExp.Lit ">")])%list
                  a ("<" ++ JS.toLowerCase (DOM.tagName el) ++ ">" ++ b) None 0
                  (tag_pattern_matches _ b _ Hword)) as Hs.
    lia. }
  split; [exact Hidx|].
  apply (locateElement_at el html _ _ Hre eq_refl).
  assert (JS.len html
          = JS.len a + JS.len ("<" ++ JS.toLowerCase (DOM.tagName el) ++ ">" ++ b)) as Hlen
    by (rewrite Hhtml; apply len_append).
  pose proof (len_nonneg ("<" ++ JS.toLowerCase (DOM.tagName el) ++ ">" ++ b)).
  lia.
Qed.

Lemma bare_tag_is_found_witness :
  let P := fragmentOnly Examples.skipDoc in
  exists re idx,
    newRegExp (locatePattern (DOM.mkElement "h3" [] [DOM.TextNode "B"])) = Normal re
    /\ search Examples.skipMarkup re = idx
    /\ 0 <= idx <= 10
    /\ locateElement (DOM.mkElement "h3" [] [DOM.TextNode "B"]) Examples.skipMarkup
       = Spec.locatorAt Examples.skipMarkup idx (idx + 240).
Proof.
  intros P.
  apply (bare_tag_is_found P (DOM.mkElement "h3" [] [DOM.TextNode "B"])
           Examples.skipMarkup "<h1>A</h1>" "B</h3>").
  - repeat constructor.
  - reflexivity.
  - reflexivity.
  - reflexivity.
Defined.

(** ** Blank values *)

Section BlankFacts.

Lemma trimStart_not_blank (s : string) :
  JS.allSpace s = false ->
  exists c r, JS.trimStart s = String c r /\ JS.isSpace c = false.
Proof.
  induction s as [|c s IH]; [discriminate|].
  cbn [JS.allSpace JS.trimStart]. destruct (JS.isSpace c) eqn:E.
  - cbn [andb]. exact IH.
  - intros _. exists c, s. split; [reflexivity|assumption].
Qed.

(** Trimming leaves nothing exactly of a blank text. *)
Lemma trim_blank (s : string) : JS.trim s = EmptyString <-> JS.allSpace s = true.
Proof.
  split.
  - intros H. destruct (JS.allSpace s) eqn:E; [reflexivity|].
    destruct (trimStart_not_blank s E) as [c [r [Hs Hc]]].
    unfold JS.trim in H. rewrite Hs in H. cbn [JS.trimEnd JS.allSpace] in H.
    rewrite Hc in H. discriminate H.
  - intros H. unfold JS.trim. rewrite (trimStart_allSpace s H). reflexivity.
Qed.

End BlankFacts.

(** X19.  A value made of white space only counts as absent.  A lang
    attribute that is missing or blank gives the error lang-missing, any
    other value gives the success lang-ok citing the trimmed value; a title
    element whose text is blank gives the error title-missing, located on
    that title element. *)
Theorem blank_values_count_as_missing (P : Platform) (doc : DOM.Document)
  (html : string) (out : list AuditResult) :
  let root := DOM.documentElement doc in
  (DOM.getAttribute root "lang" = None
   \/ (exists v, DOM.getAttribute root "lang" = Some v /\ JS.allSpace v = true) ->
   checkLang doc html out
   = (out ++ [finding html error "lang-missing" "Missing <html lang>." (Some root)
                (Some ("Set the <html lang> attribute, e.g., <html lang=" ++ DQ ++ "en"
                       ++ DQ ++ ">.")%string)
                None])%list)
  /\ (forall v, DOM.getAttribute root "lang" = Some v -> JS.allSpace v = false ->
        checkLang doc html out
        = (out ++ [finding html success "lang-ok"
                     ("HTML lang present (" ++ JS.trim v ++ ").")%string
                     (Some root) None None])%list)
  /\ (forall t, DOM.querySelector doc (DOM.isTag "title") = Some t ->
        JS.allSpace (DOM.textContent t) = true ->
        checkTitle doc html out
        = (out ++ [finding html error "title-missing" "Missing <title>." (Some t)
                     (Some "Add a descriptive, unique <title> (10–60 chars).")
                     (Some "<title>")])%list).
Proof.
  cbn zeta. split; [|split].
  - intros Hl. unfold checkLang, push.
    destruct Hl as [->|[v [-> Hv]]]; cbn [option_map orEmpty].
    + reflexivity.
    + rewrite (proj2 (trim_blank v) Hv). reflexivity.
  - intros v Hv Hb. unfold checkLang, push. rewrite Hv. cbn [option_map orEmpty].
    destruct (JS.trim v) eqn:E; [|reflexivity].
    apply trim_blank in E. congruence.
  - intros t Ht Hb. unfold checkTitle, push. rewrite Ht. cbn [option_map orEmpty].
    rewrite (proj2 (trim_blank _) Hb). reflexivity.
Qed.

Lemma blank_values_count_as_missing_witness :
  let P := fragmentOnly Examples.homeDoc in
  let doc := DOM.mkDocument
               (DOM.mkElement "html" [("lang", "  ")]
                  [Examples.elem "head" [] [Examples.elem "title" [] [DOM.TextNode " "]];
                   Examples.elem "body" [] []]) in
  (exists f, checkLang doc EmptyString [] = [f] /\ id f = "lang-missing")
  /\ (exists f, checkTitle doc EmptyString [] = [f] /\ id f = "title-missing"
                /\ selector f = Some "title").
Proof.
  intros P doc. split.
  - eexists. split.
    + apply (proj1 (blank_values_count_as_missing P doc EmptyString [])).
      right. exists "  ". split; reflexivity.
    + reflexivity.
  - eexists. split.
    + apply (proj2 (proj2 (blank_values_count_as_missing P doc EmptyString []))
               (DOM.mkElement "title" [] [DOM.TextNode " "])); reflexivity.
    + split; reflexivity.
Defined.

Section AttrMatcherFacts.

Lemma matchesAt_star_step (a : RegExp.atom) (r : RegExp.regex) (prev : option ascii)
  (c : ascii) (s : string) :
  RegExp.atomMatches a c = true ->
  RegExp.matchesAt (RegExp.Star a :: r) (Some c) s = true ->
  RegExp.matchesAt (RegExp.Star a :: r) prev (String c s) = true.
Proof.
  intros Ha Hs. rewrite matchesAt_star, Ha, Hs. apply orb_true_r.
Qed.

Lemma findUsable_key (attrs : list (string * option string)) (k v : string) :
  findUsable attrs = Some (k, v) -> In k (map fst attrs).
Proof.
  induction attrs as [|[k' [v'|]] attrs IH]; [discriminate| |].
  - cbn [findUsable map fst In].
    destruct (JS.truthy v' && JS.truthy (JS.trim v')).
    + intros [= -> ->]. left. reflexivity.
    + intros H. right. apply IH. assumption.
  - cbn [findUsable map fst In]. intros H. right. apply IH. assumption.
Qed.

Lemma priority_word_start (k : string) :
  In k Spec.priority ->
  exists c r, k = String c r /\ RegExp.isWordChar c = true.
Proof.
  intros H. repeat (destruct H as [<-|H]; [do 2 eexists; split; reflexivity|]).
  destruct H.
Qed.

Lemma next_app (k rest : string) (c : ascii) (r : string) :
  k = String c r -> RegExp.next (k ++ rest) = Some c.
Proof. intros ->. reflexivity. Qed.

(** The attribute pattern matches the tag written with that attribute in
    double quotes right behind the tag name. *)
Lemma attr_pattern_matches (tn k v b : string) (prev : option ascii) :
  In k Spec.priority ->
  RegExp.matchesAt
    ([RegExp.One (RegExp.Lit "<"); RegExp.Star RegExp.Space]
     ++ Expected.literally tn
     ++ [RegExp.Star (RegExp.NoneOf [">"%char]); RegExp.WordBoundary]
     ++ Expected.literally k
     ++ [RegExp.Star RegExp.Space; RegExp.One (RegExp.Lit "=");
         RegExp.Star RegExp.Space; RegExp.One (RegExp.OneOf [dquote; "'"%char])]
     ++ Expected.literally v
     ++ [RegExp.One (RegExp.OneOf [dquote; "'"%char]);
         RegExp.Star (RegExp.NoneOf [">"%char]); RegExp.One (RegExp.Lit ">")])%list
    prev ("<" ++ tn ++ " " ++ k ++ "=" ++ DQ ++ v ++ DQ ++ ">" ++ b) = true.
Proof.
  intros Hk. destruct (priority_word_start k Hk) as [kc [kr [Ek Hkc]]].
  cbn [app append RegExp.matchesAt RegExp.atomMatches].
  rewrite sameChar_refl. cbn [andb].
  match goal with
  | |- ?lhs = true =>
      change lhs with
        (RegExp.matchesAt
           (RegExp.Star RegExp.Space
            :: (Expected.literally tn
                ++ RegExp.Star (RegExp.NoneOf [">"%char]) :: RegExp.WordBoundary
                   :: (Expected.literally k
                       ++ RegExp.Star RegExp.Space :: RegExp.One (RegExp.Lit "=")
                          :: RegExp.Star RegExp.Space
                          :: RegExp.One (RegExp.OneOf [dquote; "'"%char])
                          :: (Expected.literally v
                              ++ [RegExp.One (RegExp.OneOf [dquote; "'"%char]);
                                  RegExp.Star (RegExp.NoneOf [">"%char]);
                                  RegExp.One (RegExp.Lit ">")])))%list)
           (Some "<"%char)
           (tn ++ String " " (k ++ String "=" (String dquote (v ++ String dquote (String ">" b))))))
  end.
  apply matchesAt_star_skip. rewrite matchesAt_literally.
  apply matchesAt_star_step; [reflexivity|].
  apply matchesAt_star_skip.
  cbn [RegExp.matchesAt]. rewrite (next_app k _ kc kr Ek). cbn [RegExp.wordAt].
  rewrite Hkc. replace (RegExp.isWordChar " ") with false by reflexivity.
  cbn [xorb andb].
  rewrite matchesAt_literally.
  apply matchesAt_star_skip.
  cbn [RegExp.matchesAt RegExp.atomMatches]. rewrite sameChar_refl. cbn [andb].
  match goal with
  | |- ?lhs = true =>
      change lhs with
        (RegExp.matchesAt
           (RegExp.Star RegExp.Space
            :: RegExp.One (RegExp.OneOf [dquote; "'"%char])
            :: (Expected.literally v
                ++ [RegExp.One (RegExp.OneOf [dquote; "'"%char]);
                    RegExp.Star (RegExp.NoneOf [">"%char]);
                    RegExp.One (RegExp.Lit ">")])%list)
           (Some "="%char) (String dquote (v ++ String dquote (String ">" b))))
  end.
  apply matchesAt_star_skip.
  cbn [RegExp.matchesAt RegExp.atomMatches existsb]. rewrite sameChar_refl. cbn [orb andb].
  rewrite matchesAt_literally.
  cbn [RegExp.matchesAt RegExp.atomMatches existsb]. rewrite sameChar_refl. cbn [orb andb].
  match goal with
  | |- ?lhs = true =>
      change lhs with
        (RegExp.matchesAt
           [RegExp.Star (RegExp.NoneOf [">"%char]); RegExp.One (RegExp.Lit ">")]
           (Some dquote) (String ">" b))
  end.
  apply matchesAt_star_skip.
  cbn [RegExp.matchesAt RegExp.atomMatches]. rewrite sameChar_refl. reflexivity.
Qed.

End AttrMatcherFacts.

(** X20.  For a node whose tag name has no metacharacter and whose first
    usable attribute is k with value v, the by-node locator recovers a
    location as soon as the markup holds the opening tag written with that
    attribute in double quotes right behind the tag name; the match is at
    that tag or in front of it. *)
Theorem attributed_tag_is_found (P : Platform) (el : DOM.Element)
  (html a b k v : string) :
  let tn := JS.toLowerCase (DOM.tagName el) in
  findUsable (locateAttrs el) = Some (k, v) ->
  Spec.plain tn = true ->
  html = a ++ "<" ++ tn ++ " " ++ k ++ "=" ++ DQ ++ v ++ DQ ++ ">" ++ b ->
  exists re idx,
    newRegExp (locatePattern el) = Normal re
    /\ search html re = idx
    /\ 0 <= idx <= JS.len a
    /\ locateElement el html = Spec.locatorAt html idx (idx + 240).
Proof.
  cbn zeta. intros Hfind Hplain Hhtml.
  assert (In k Spec.priority) as Hk.
  { apply findUsable_key in Hfind. exact Hfind. }
  set (r := ([RegExp.One (RegExp.Lit "<"); RegExp.Star RegExp.Space]
     ++ Expected.literally (JS.toLowerCase (DOM.tagName el))
     ++ [RegExp.Star (RegExp.NoneOf [">"%char]); RegExp.WordBoundary]
     ++ Expected.literally k
     ++ [RegExp.Star RegExp.Space; RegExp.One (RegExp.Lit "=");
         RegExp.Star RegExp.Space; RegExp.One (RegExp.OneOf [dquote; "'"%char])]
     ++ Expected.literally v
     ++ [RegExp.One (RegExp.OneOf [dquote; "'"%char]);
         RegExp.Star (RegExp.NoneOf [">"%char]); RegExp.One (RegExp.Lit ">")])%list).
  assert (newRegExp (locatePattern el) = Normal (Compiled r)) as Hre.
  { unfold newRegExp, locatePattern. rewrite Hfind.
    rewrite parse_attr_pattern; [reflexivity|assumption|apply priority_plain; assumption]. }
  exists (Compiled r). eexists. split; [exact Hre|]. split; [reflexivity|].
  assert (0 <= search html (Compiled r) <= JS.len a) as Hidx.
  { unfold search, RegExp.search. rewrite Hhtml.
    pose proof (searchFrom_finds r a _ None 0
                  (attr_pattern_matches (JS.toLowerCase (DOM.tagName el)) k v b _ Hk)) as Hs.
    lia. }
  split; [exact Hidx|].
  apply (locateElement_at el html _ _ Hre eq_refl).
  assert (JS.len html
          = JS.len a + JS.len ("<" ++ JS.toLowerCase (DOM.tagName el) ++ " " ++ k ++ "="
                               ++ DQ ++ v ++ DQ ++ ">" ++ b)) as Hlen
    by (rewrite Hhtml; apply len_append).
  pose proof (len_nonneg ("<" ++ JS.toLowerCase (DOM.tagName el) ++ " " ++ k ++ "="
                          ++ DQ ++ v ++ DQ ++ ">" ++ b)).
  lia.
Qed.

Lemma attributed_tag_is_found_witness :
  let P := fragmentOnly Examples.dupDoc in
  exists re idx,
    newRegExp (locatePattern (DOM.mkElement "p" [("id", "dup")] [])) = Normal re
    /\ search Examples.dupMarkup re = idx
    /\ 0 <= idx <= 0
    /\ locateElement (DOM.mkElement "p" [("id", "dup")] []) Examples.dupMarkup
       = Spec.locatorAt Examples.dupMarkup idx (idx + 240).
Proof.
  intros P.
  apply (attributed_tag_is_found P (DOM.mkElement "p" [("id", "dup")] [])
           Examples.dupMarkup "" ("</p><p id=" ++ DQ ++ "dup" ++ DQ ++ "></p>") "id" "dup").
  - reflexivity.
  - reflexivity.
  - reflexivity.
Defined.

(** X21.  For a node whose tag name has no metacharacter the pattern of
    the by-node locator is always accepted, whatever the attribute values:
    the constructor does not throw, and the locator is empty only when the
    pattern has no match. *)
Theorem pattern_accepted_for_plain_tag (P : Platform) (el : DOM.Element) (html : string) :
  Spec.plain (JS.toLowerCase (DOM.tagName el)) = true ->
  exists r,
    newRegExp (locatePattern el) = Normal (Compiled r)
    /\ (locateElement el html = emptyLocator <-> RegExp.search r html < 0).
Proof.
  intros Hplain.
  assert (exists r, newRegExp (locatePattern el) = Normal (Compiled r)) as [r Hr].
  { unfold newRegExp, locatePattern.
    destruct (findUsable (locateAttrs el)) as [[k v]|] eqn:E.
    - apply findUsable_key in E.
      rewrite parse_attr_pattern; [eexists; reflexivity|assumption|].
      apply priority_plain. exact E.
    - rewrite parse_tag_pattern by assumption. eexists. reflexivity. }
  exists r. split; [assumption|].
  unfold locateElement. rewrite Hr. cbn [search].
  destruct (0 <=? RegExp.search r html) eqn:E.
  - apply Z.leb_le in E. split; [discriminate|lia].
  - apply Z.leb_gt in E. split; [intros _; assumption|reflexivity].
Qed.

Lemma pattern_accepted_for_plain_tag_witness :
  let P := fragmentOnly Examples.dupDoc in
  exists r,
    newRegExp (locatePattern (DOM.mkElement "a" [("href", "x.(y)?z=[1]")] []))
    = Normal (Compiled r)
    /\ (locateElement (DOM.mkElement "a" [("href", "x.(y)?z=[1]")] []) EmptyString
        = emptyLocator <-> RegExp.search r EmptyString < 0).
Proof.
  intros P.
  apply (pattern_accepted_for_plain_tag P (DOM.mkElement "a" [("href", "x.(y)?z=[1]")] [])
           EmptyString).
  reflexivity.
Defined.

Section NamelessFacts.

Lemma collapse_blank (s : string) :
  forall inRun, JS.allSpace (JS.collapseSpacesFrom inRun s) = JS.allSpace s.
Proof.
  induction s as [|c s IH]; intros inRun; [reflexivity|].
  cbn [JS.collapseSpacesFrom JS.allSpace]. destruct (JS.isSpace c) eqn:E.
  - destruct inRun; cbn [JS.allSpace andb]; [apply IH|].
    replace (JS.isSpace " ") with true by reflexivity. apply IH.
  - cbn [JS.allSpace]. rewrite E. reflexivity.
Qed.

End NamelessFacts.

(** X22.  An anchor counts as nameless exactly when its text content is
    blank and its aria-label is absent or blank; collapsing the runs of
    white space of the text has no effect on that. *)
Theorem isNameless_spec (a : DOM.Element) :
  isNameless a = true
  <-> JS.allSpace (DOM.textContent a) = true
      /\ JS.allSpace (orEmpty (DOM.getAttribute a "aria-label")) = true.
Proof.
  unfold isNameless.
  assert (Hblank : forall s, negb (JS.truthy (JS.trim s)) = JS.allSpace s).
  { intros s. destruct (JS.allSpace s) eqn:E.
    - rewrite (proj2 (trim_blank s) E). reflexivity.
    - destruct (JS.trim s) eqn:Et; [|reflexivity].
      apply trim_blank in Et. congruence. }
  rewrite !Hblank. unfold JS.collapseSpaces. rewrite collapse_blank.
  apply andb_true_iff.
Qed.
